(** * Solidity-Analyzer: the source acquisition and staging pipeline of main.py

    A shallow embedding of [main.py]: the functions [get_contract_code],
    [analyze_contract_code], [get_solidity_version],
    [delete_contract_directory] and [analyze_contract], over an explicit
    model of what they touch: Python strings, the two regular expressions,
    the file system with its working directory, the compiler selection, and
    standard output.

    Conventions of the model.
    - A Python [str] is a list of characters ([str]).  Characters are the
      code points below 256, among which the regular expression class [\d]
      is exactly the ten digits [0-9].
    - The file system is a finite map from absolute paths (lists of names,
      the root being the empty list) to nodes.  There are no symbolic links,
      no name length limits and no quota; creating and writing never fail for
      lack of permission.  Removal can fail: unlinking and removing a
      directory fail on the paths in [locked].  A directory is listed in the
      order of the keys of the map, and [shutil.rmtree] follows that order
      and stops at the first failure, what it met before gone.
    - Text files are written and read on a POSIX host: writing leaves
      newlines alone, reading translates universal newlines.
    - Code outside the repository (the explorer, the JSON and base64
      decoders, the analysis engine, the process environment) is a field of
      the [World] record. *)

From Stdlib Require Import Ascii String ZArith List Lia.
From stdpp Require Import gmap strings list fin_maps.

Open Scope list_scope.

(** ** Python strings *)

Abbreviation str := (list ascii).

(** A string literal of the source. *)
Definition lit (s : string) : str := list_ascii_of_string s.
Arguments lit : simpl never.

Definition chr_slash : ascii := "/"%char.
Definition chr_lf : ascii := "010"%char.
Definition chr_cr : ascii := "013"%char.
Definition chr_nul : ascii := "000"%char.

(** [s.startswith(x)] *)
Fixpoint starts_with (x s : str) : bool :=
  match x, s with
  | [], _ => true
  | _ :: _, [] => false
  | a :: x', b :: s' => if decide (a = b) then starts_with x' s' else false
  end.

(** [x in s] on strings: [x] occurs in [s] as a substring. *)
Fixpoint str_in (x s : str) : bool :=
  starts_with x s ||
  match s with
  | [] => false
  | _ :: s' => str_in x s'
  end.

(** [s.split(c)] for a one-character separator. *)
Fixpoint split_on (c : ascii) (s : str) : list str :=
  match s with
  | [] => [[]]
  | a :: s' =>
      if decide (a = c) then [] :: split_on c s'
      else match split_on c s' with
           | [] => [[a]]
           | w :: ws => (a :: w) :: ws
           end
  end.

Definition join_with (c : ascii) (ws : list str) : str :=
  match ws with
  | [] => []
  | w :: ws' => w ++ concat (map (cons c) ws')
  end.

Fixpoint drop_while (p : ascii -> bool) (s : str) : str :=
  match s with
  | [] => []
  | a :: s' => if p a then drop_while p s' else s
  end.

Definition is_slash (a : ascii) : bool := bool_decide (a = chr_slash).

(** [os.path.dirname(p)] of posixpath: everything up to the last slash, with
    the trailing slashes removed unless nothing else is left. *)
Definition dirname (p : str) : str :=
  let head := rev (drop_while (fun a => negb (is_slash a)) (rev p)) in
  if forallb is_slash head then head
  else rev (drop_while is_slash (rev head)).

(** The lines of a text file opened for reading ([for line in f]): universal
    newlines, so a line ends at LF, at CR LF or at a lone CR, and the
    terminator reads back as LF.  [cur] is the line read so far, reversed. *)
Fixpoint read_lines_from (cur : str) (s : str) : list str :=
  match s with
  | [] => match cur with [] => [] | _ => [rev cur] end
  | a :: s' =>
      if decide (a = chr_lf) then rev (chr_lf :: cur) :: read_lines_from [] s'
      else if decide (a = chr_cr) then
        match s' with
        | b :: s'' =>
            if decide (b = chr_lf) then rev (chr_lf :: cur) :: read_lines_from [] s''
            else rev (chr_lf :: cur) :: read_lines_from [] s'
        | [] => [rev (chr_lf :: cur)]
        end
      else read_lines_from (a :: cur) s'
  end.

Definition read_lines (s : str) : list str := read_lines_from [] s.

(** ** Regular expressions

    The two patterns of the source, [\d+\.\d+\.\d+] and [v(\d+\.\d+\.\d+)],
    are sequences of atoms: a character class taken once or one or more
    times.  [match_here] is the backtracking matcher of [re]: a [+] first
    takes as many characters as it can and gives them back one at a time
    while the rest of the pattern fails. *)

Inductive quant := One | Plus.

Record atom := Atom { cls : ascii -> bool; rep : quant }.

Definition pattern := list atom.

(** One or more characters of the class [f], then the continuation [k]:
    the longest run first, one character less at every failure of [k]. *)
Fixpoint match_plus (f : ascii -> bool) (k : str -> option (list str))
    (s : str) : option (str * list str) :=
  match s with
  | c :: s' =>
      if f c then
        match match_plus f k s' with
        | Some (w, ws) => Some (c :: w, ws)
        | None => pair [c] <$> k s'
        end
      else None
  | [] => None
  end.

(** The matcher returns the lexeme of every atom, in order. *)
Fixpoint match_here (pat : pattern) : str -> option (list str) :=
  match pat with
  | [] => fun _ => Some []
  | a :: rest =>
      match rep a with
      | One => fun s =>
          match s with
          | c :: s' =>
              if cls a c then cons [c] <$> match_here rest s' else None
          | [] => None
          end
      | Plus => fun s =>
          (fun wws => fst wws :: snd wws) <$>
          match_plus (cls a) (match_here rest) s
      end
  end.

(** [re.search(pat, s)]: the match at the leftmost position that has one. *)
Fixpoint re_search (pat : pattern) (s : str) : option (list str) :=
  match match_here pat s with
  | Some ws => Some ws
  | None =>
      match s with
      | [] => None
      | _ :: s' => re_search pat s'
      end
  end.

(** [m.group(0)] *)
Definition group0 (ws : list str) : str := concat ws.

(** A capture group that spans the atoms [from, from + len). *)
Definition group_span (from len : nat) (ws : list str) : str :=
  concat (take len (drop from ws)).

(** [\d] on the characters the model has. *)
Definition is_digit (c : ascii) : bool :=
  (48 <=? nat_of_ascii c)%nat && (nat_of_ascii c <=? 57)%nat.

Definition is_char (a : ascii) (c : ascii) : bool := bool_decide (c = a).

Definition digits1 : atom := Atom is_digit Plus.
Definition dot : atom := Atom (is_char "."%char) One.

(** [r'\d+\.\d+\.\d+'] *)
Definition rx_version : pattern := [digits1; dot; digits1; dot; digits1].

(** [r'v(\d+\.\d+\.\d+)'], group 1 spanning the five atoms after [v]. *)
Definition rx_v_version : pattern := Atom (is_char "v"%char) One :: rx_version.

(** ** get_solidity_version *)

Definition get_solidity_version (compiler_version : str) : str :=
  match re_search rx_v_version compiler_version with
  | Some version => group_span 1 5 version
  | None => []
  end.

(** ** The file system, the process state and the effects *)

Abbreviation path := (list str).

Inductive node := File (content : str) | Dir.

Inductive exn :=
  | AttributeError | KeyError | ValueError | IndexError
  | FileNotFoundError | NotADirectoryError | IsADirectoryError
  | FileExistsError | PermissionError | OSError | RecursionError
  | JSONDecodeError | TypeError | DecodeError | ArgumentTypeError | EngineError.

(** What the process does to the outside, in order: lines printed and calls
    to the compiler selector. *)
Inductive event :=
  | Stdout (s : str)
  | PrintFailedToDelete (file_path : str) (e : exn)
  | SwitchGlobalVersion (version : str).

Record state := State {
  nodes : gmap path node;
  cwd : path;
  locked : gset path;
  solc : str;
  events : list event
}.

Definition set_nodes (fs : gmap path node) (st : state) : state :=
  State fs (cwd st) (locked st) (solc st) (events st).
Definition set_cwd (d : path) (st : state) : state :=
  State (nodes st) d (locked st) (solc st) (events st).
Definition set_solc (v : str) (st : state) : state :=
  State (nodes st) (cwd st) (locked st) v (events st).
Definition add_event (e : event) (st : state) : state :=
  State (nodes st) (cwd st) (locked st) (solc st) (events st ++ [e]).

(** A computation returns a value or raises, and leaves a state either way. *)
Inductive outcome (A : Type) :=
  | Ok (a : A) (st : state)
  | Raise (e : exn) (st : state).
Arguments Ok {A} a st.
Arguments Raise {A} e st.

Definition M (A : Type) : Type := state -> outcome A.

Definition ret {A} (a : A) : M A := fun st => Ok a st.
Definition raise {A} (e : exn) : M A := fun st => Raise e st.
Definition bind {A B} (m : M A) (k : A -> M B) : M B :=
  fun st => match m st with
            | Ok a st' => k a st'
            | Raise e st' => Raise e st'
            end.
(** [try: m except Exception as e: h e] *)
Definition try_except {A} (m : M A) (h : exn -> M A) : M A :=
  fun st => match m st with
            | Ok a st' => Ok a st'
            | Raise e st' => h e st'
            end.

#[global] Instance M_ret : MRet M := @ret.
#[global] Instance M_bind : MBind M := fun A B k m => bind m k.

Definition get_state : M state := fun st => Ok st st.
Definition modify (f : state -> state) : M unit := fun st => Ok tt (f st).
Definition lift {A} (r : exn + A) : M A :=
  match r with inl e => raise e | inr a => ret a end.
Definition print (s : str) : M unit := modify (add_event (Stdout s)).

Definition outcome_state {A} (o : outcome A) : state :=
  match o with Ok _ st => st | Raise _ st => st end.

(** *** Path resolution *)

Definition node_at (fs : gmap path node) (p : path) : option node :=
  match p with [] => Some Dir | _ => fs !! p end.

Definition parent (p : path) : path := removelast p.

Definition step (cur : path) (c : str) : path :=
  if decide (c = [] \/ c = lit ".") then cur
  else if decide (c = lit "..") then parent cur
  else cur ++ [c].

(** Walk the components of a path name from [cur]; every directory walked
    through has to exist, the last component need not. *)
Fixpoint walk (fs : gmap path node) (cur : path) (comps : list str) : exn + path :=
  match comps with
  | [] => inr cur
  | c :: rest =>
      match node_at fs cur with
      | Some Dir => walk fs (step cur c) rest
      | Some (File _) => inl NotADirectoryError
      | None => inl FileNotFoundError
      end
  end.

Definition resolve (st : state) (p : str) : exn + path :=
  if decide (p = []) then inl FileNotFoundError
  else if decide (chr_nul ∈ p) then inl ValueError
  else walk (nodes st)
            (if starts_with [chr_slash] p then [] else cwd st)
            (split_on chr_slash p).

(** *** The calls of [os], [os.path], [shutil] and [open] the source makes *)

Definition os_path_exists (p : str) : M bool := fun st =>
  match resolve st p with
  | inr q => Ok (bool_decide (is_Some (node_at (nodes st) q))) st
  | inl _ => Ok false st
  end.

Definition os_path_isfile (p : str) : M bool := fun st =>
  match resolve st p with
  | inr q => Ok (match node_at (nodes st) q with Some (File _) => true | _ => false end) st
  | inl _ => Ok false st
  end.

Definition os_path_isdir (p : str) : M bool := fun st =>
  match resolve st p with
  | inr q => Ok (match node_at (nodes st) q with Some Dir => true | _ => false end) st
  | inl _ => Ok false st
  end.

(** There are no symbolic links. *)
Definition os_path_islink (p : str) : M bool := ret false.

Definition os_chdir (p : str) : M unit := fun st =>
  match resolve st p with
  | inr q =>
      match node_at (nodes st) q with
      | Some Dir => Ok tt (set_cwd q st)
      | Some (File _) => Raise NotADirectoryError st
      | None => Raise FileNotFoundError st
      end
  | inl e => Raise e st
  end.

(** [os.makedirs] creates the missing directories along the path and insists
    that the last one be new.  [fresh] tells that [cur] was created by this
    call: the library accepts a final [.] then.  A component with a NUL in
    it is refused when its turn comes, the directories before it made. *)
Fixpoint mkdir_p (fs : gmap path node) (cur : path) (fresh : bool)
    (comps : list str) : gmap path node * option exn :=
  match comps with
  | [] => (fs, None)
  | c :: rest =>
      if decide (chr_nul ∈ c) then (fs, Some ValueError) else
      match node_at fs cur with
      | Some Dir =>
          let q := step cur c in
          match node_at fs q with
          | None => mkdir_p (<[q := Dir]> fs) q true rest
          | Some _ =>
              match rest with
              | [] => if fresh && bool_decide (c = lit ".") then (fs, None)
                      else (fs, Some FileExistsError)
              | _ => mkdir_p fs q false rest
              end
          end
      | Some (File _) => (fs, Some NotADirectoryError)
      | None => (fs, Some FileNotFoundError)
      end
  end.

(** The library drops the trailing slashes of the name first. *)
Fixpoint strip_trailing_empty (comps : list str) : list str :=
  match comps with
  | [] => []
  | c :: rest =>
      match strip_trailing_empty rest with
      | [] => if decide (c = []) then [] else [c]
      | r => c :: r
      end
  end.

Definition os_makedirs (p : str) : M unit := fun st =>
  if decide (p = []) then Raise FileNotFoundError st
  else
    match strip_trailing_empty (split_on chr_slash p) with
    | [] => Raise FileExistsError st
    | comps =>
        let '(fs, err) :=
          mkdir_p (nodes st)
                  (if starts_with [chr_slash] p then [] else cwd st)
                  false comps in
        match err with
        | None => Ok tt (set_nodes fs st)
        | Some e => Raise e (set_nodes fs st)
        end
    end.

(** The name ends in a slash. *)
Definition trailing_slash (p : str) : bool :=
  match last p with Some a => is_slash a | None => false end.

(** [with open(p, "w") as f: f.writelines(lines)]: the file is created or
    truncated, and the strings are written one after the other, nothing
    between them.  A name that ends in a slash is refused as a directory,
    whatever stands there, once the directories before its last component
    are walked through. *)
Definition open_w_writelines (p : str) (lines : list str) : M unit := fun st =>
  if decide (p <> [] /\ (chr_nul ∉ p) /\ trailing_slash p = true) then
    match walk (nodes st)
               (if starts_with [chr_slash] p then [] else cwd st)
               (removelast (strip_trailing_empty (split_on chr_slash p)) ++ [[]])
    with
    | inr _ => Raise IsADirectoryError st
    | inl e => Raise e st
    end
  else
  match resolve st p with
  | inr q =>
      match node_at (nodes st) q with
      | Some Dir => Raise IsADirectoryError st
      | Some (File _) => Ok tt (set_nodes (<[q := File (concat lines)]> (nodes st)) st)
      | None =>
          match node_at (nodes st) (parent q) with
          | Some Dir => Ok tt (set_nodes (<[q := File (concat lines)]> (nodes st)) st)
          | _ => Raise FileNotFoundError st
          end
      end
  | inl e => Raise e st
  end.

(** A string handed to [writelines] is written character by character. *)
Definition chars (s : str) : list str := map (fun c => [c]) s.

(** [open(p, "r")] and the list of its lines. *)
Definition open_r_lines (p : str) : M (list str) := fun st =>
  match resolve st p with
  | inr q =>
      match node_at (nodes st) q with
      | Some (File content) => Ok (read_lines content) st
      | Some Dir => Raise IsADirectoryError st
      | None => Raise FileNotFoundError st
      end
  | inl e => Raise e st
  end.

(** [open(p, "rb").read()]: what a later reader finds in the file. *)
Definition read_back (st : state) (p : str) : option str :=
  match resolve st p with
  | inr q => match node_at (nodes st) q with
             | Some (File content) => Some content
             | _ => None
             end
  | inl _ => None
  end.

Definition child_name (d p : path) : option str :=
  if decide (p <> [] /\ parent p = d) then last p else None.

Definition children (fs : gmap path node) (d : path) : list str :=
  omap (child_name d) (elements (dom fs)).

Definition os_listdir (p : str) : M (list str) := fun st =>
  match resolve st p with
  | inr q =>
      match node_at (nodes st) q with
      | Some Dir => Ok (children (nodes st) q) st
      | Some (File _) => Raise NotADirectoryError st
      | None => Raise FileNotFoundError st
      end
  | inl e => Raise e st
  end.

(** [os.unlink] of the file at [q]. *)
Definition unlink_at (q : path) : M unit := fun st =>
  match node_at (nodes st) q with
  | Some (File _) =>
      if decide (q ∈ locked st) then Raise PermissionError st
      else Ok tt (set_nodes (delete q (nodes st)) st)
  | Some Dir => Raise IsADirectoryError st
  | None => Raise FileNotFoundError st
  end.

Definition os_unlink (p : str) : M unit := fun st =>
  match resolve st p with
  | inr q => unlink_at q st
  | inl e => Raise e st
  end.

(** [os.rmdir] of the directory at [q]: it has to be empty. *)
Definition rmdir_at (q : path) : M unit := fun st =>
  match node_at (nodes st) q with
  | Some Dir =>
      if decide (q = [] \/ children (nodes st) q <> []) then Raise OSError st
      else if decide (q ∈ locked st) then Raise PermissionError st
      else Ok tt (set_nodes (delete q (nodes st)) st)
  | Some (File _) => Raise NotADirectoryError st
  | None => Raise FileNotFoundError st
  end.

Definition under (q p : path) : Prop := q `prefix_of` p.

(** [shutil.rmtree] inside the directory [q], over the names listed there:
    a directory goes through [rmtree_dir], anything else is unlinked, one
    entry after the other; the first failure ends it, what went before it
    gone. *)
Fixpoint rmtree_entries (rmtree_dir : path -> M unit) (q : path)
    (names : list str) : M unit :=
  match names with
  | [] => ret tt
  | c :: rest =>
      (fun st => match node_at (nodes st) (q ++ [c]) with
                 | Some Dir => rmtree_dir (q ++ [c]) st
                 | _ => unlink_at (q ++ [c]) st
                 end);;
      rmtree_entries rmtree_dir q rest
  end.

(** The directory [q] is listed, its entries removed, then [q] itself.
    The recursion of the library is by depth; [fuel] bounds it. *)
Fixpoint rmtree_dir (fuel : nat) (q : path) : M unit :=
  match fuel with
  | O => raise RecursionError
  | S fuel' =>
      names ← (fun st => Ok (children (nodes st) q) st);
      rmtree_entries (rmtree_dir fuel') q names;;
      rmdir_at q
  end.

(** The length of the longest path of the tree. *)
Definition depth (fs : gmap path node) : nat :=
  max_list (length <$> elements (dom fs)).

(** [shutil.rmtree(p)]: no directory below [p] lies deeper than the tree
    is deep, so the recursion has fuel enough. *)
Definition shutil_rmtree (p : str) : M unit := fun st =>
  match resolve st p with
  | inr q =>
      match node_at (nodes st) q with
      | Some Dir => rmtree_dir (S (depth (nodes st))) q st
      | Some (File _) => Raise NotADirectoryError st
      | None => Raise FileNotFoundError st
      end
  | inl e => Raise e st
  end.

(** ** The collaborators outside the repository *)

(** The Python values found in a finding: strings, and anything else (the
    engine's own objects) kept as its printed form. *)
Inductive pyval :=
  | PNone
  | PStr (s : str)
  | POther (repr : str).

(** A Python [dict] with string keys: its items in insertion order. *)
Abbreviation dict := (list (str * pyval)).

(** [d[k]] *)
Fixpoint dict_get (d : dict) (k : str) : exn + pyval :=
  match d with
  | [] => inl KeyError
  | (k', v) :: d' => if decide (k' = k) then inr v else dict_get d' k
  end.

(** The first record of the explorer's answer. *)
Record response := Response {
  status_code : Z;
  SourceCode : str;
  CompilerVersion : str;
  ContractName : str
}.

Class World := {
  (** [os.environ[name.upper()]], if set *)
  environ_upper : str -> option str;
  (** [requests.get(url)] with [response.json()["result"][0]] *)
  requests_get : str -> response;
  (** [json.loads(s)['sources']] as the items [(file_name,
      file_content['content'])] of the mapping, in its order; or the
      exception raised on the way: the decoder's when [s] is not JSON,
      [KeyError] when the object has no [sources] or a file no [content],
      [TypeError] or [AttributeError] when it has another shape *)
  json_loads_sources : str -> exn + list (str * str);
  (** [base64.b64decode(code).decode('utf-8')] *)
  b64decode_utf8 : str -> option str;
  (** whether [solc_select] knows the version and can make it current *)
  solc_known : str -> bool;
  (** [Slither(contract)] with every detector registered, then
      [run_detectors()]: one group of findings per detector *)
  slither_run_detectors : state -> str -> option (list (list dict))
}.

Section Program.
Context {W : World}.

(** [solc_select.switch_global_version(version, True)] *)
Definition switch_global_version (version : str) : M unit := fun st =>
  let st' := add_event (SwitchGlobalVersion version) st in
  if solc_known version then Ok tt (set_solc version st')
  else Raise ArgumentTypeError st'.

(** [str(x)] inside an f-string, for an argument that may be [None]. *)
Definition fstr (x : option str) : str :=
  match x with Some s => s | None => lit "None" end.

(** [not x] for an optional string. *)
Definition falsy (x : option str) : bool :=
  match x with None => true | Some [] => true | Some _ => false end.

(** ** get_contract_code *)

(** Lines 74-80: the scan for the main contract. *)
Fixpoint find_main_contract (contract_name : str) (items : list (str * str))
    (main_contract : str) : str :=
  match items with
  | [] => main_contract
  | (file_name, contract_lines) :: rest =>
      if str_in (lit "contract " ++ contract_name) contract_lines
      then find_main_contract contract_name rest file_name
      else find_main_contract contract_name rest main_contract
  end.

(** Lines 82-98: every file is written below the working directory. *)
Fixpoint write_contract_files (main_contract : str) (items : list (str * str))
    : M unit :=
  match items with
  | [] => ret tt
  | (file_name, contract_lines) :: rest =>
      (if decide (main_contract = file_name) then
         present ← os_path_exists (dirname file_name);
         (if negb present then os_makedirs (dirname file_name) else ret tt);;
         open_w_writelines file_name (chars contract_lines)
       else
         present ← os_path_exists (dirname file_name);
         (if negb present then os_makedirs (dirname file_name) else ret tt);;
         open_w_writelines file_name (chars contract_lines));;
      write_contract_files main_contract rest
  end.

(** Lines 120-125: the first line with a pragma gives the version. *)
Fixpoint scan_pragma (lines : list str) (solidity_version : str) : exn + str :=
  match lines with
  | [] => inr solidity_version
  | line :: rest =>
      if str_in (lit "pragma solidity") line then
        match re_search rx_version line with
        | Some m => inr (group0 m)
        | None => inl AttributeError
        end
      else scan_pragma rest solidity_version
  end.

(** Lines 62-100: the source is one file, or a mapping of files. *)
Definition stage_source (contract_code contract_name : str) : M (option str) :=
  match contract_code with
  | [] => raise IndexError
  | c0 :: _ =>
      if decide (c0 <> "{"%char) then
        let contract_lines :=
          [[chr_lf]; [chr_lf]; [chr_lf]; [chr_lf]]
          ++ split_on chr_lf contract_code in
        open_w_writelines (contract_name ++ lit ".sol") contract_lines;;
        ret (Some (contract_name ++ lit ".sol"))
      else
        contract_files ←
          lift (json_loads_sources (removelast (tail contract_code)));
        let main_contract := find_main_contract contract_name contract_files [] in
        write_contract_files main_contract contract_files;;
        ret (Some main_contract)
  end.

Definition get_contract_code (blockchain contract_address code : option str)
    : M (option str) :=
  if falsy code then
    upper ← match blockchain with
            | Some b => ret b
            | None => raise AttributeError
            end;
    entry ← match environ_upper upper with
            | Some v => ret v
            | None => raise KeyError
            end;
    '(api_url, api_key) ← match split_on ","%char entry with
                          | [u; k] => ret (u, k)
                          | _ => raise ValueError
                          end;
    let url := lit "https://" ++ api_url
               ++ lit "/api?module=contract&action=getsourcecode&address="
               ++ fstr contract_address ++ lit "&apikey=" ++ api_key in
    let response := requests_get url in
    if decide (status_code response = 200%Z) then
      let contract_code := SourceCode response in
      let compiler_version := CompilerVersion response in
      let contract_name := ContractName response in
      let solidity_version := get_solidity_version compiler_version in
      switch_global_version solidity_version;;
      let root := lit "contracts/" ++ fstr blockchain ++ lit "/"
                  ++ fstr contract_address in
      present ← os_path_exists root;
      (if negb present then os_makedirs root else ret tt);;
      os_chdir root;;
      stage_source contract_code contract_name
    else
      print (lit "Error: Unable to retrieve contract code");;
      ret None
  else
    let code := fstr code in
    present ← os_path_exists (lit "contracts/no-bc/contract");
    (if negb present then os_makedirs (lit "contracts/no-bc/contract") else ret tt);;
    os_chdir (lit "contracts/no-bc/contract");;
    open_w_writelines (lit "contract.sol") (chars code);;
    lines ← open_r_lines (lit "contract.sol");
    solidity_version ← lift (scan_pragma lines []);
    switch_global_version solidity_version;;
    ret (Some (lit "contract.sol")).

(** ** analyze_contract_code *)

(** Lines 161-166: the four fields of one finding. *)
Definition filter_issue (issue : dict) : exn + dict :=
  match dict_get issue (lit "check") with
  | inl e => inl e
  | inr check =>
  match dict_get issue (lit "description") with
  | inl e => inl e
  | inr description =>
  match dict_get issue (lit "impact") with
  | inl e => inl e
  | inr impact =>
  match dict_get issue (lit "confidence") with
  | inl e => inl e
  | inr confidence =>
      inr [(lit "check", check); (lit "description", description);
           (lit "impact", impact); (lit "confidence", confidence)]
  end end end end.

(** Lines 160-167: the inner loop appends to [filtered_results]. *)
Fixpoint filter_result (result : list dict) (filtered_results : list dict)
    : exn + list dict :=
  match result with
  | [] => inr filtered_results
  | issue :: rest =>
      match filter_issue issue with
      | inl e => inl e
      | inr filtered_result =>
          filter_result rest (filtered_results ++ [filtered_result])
      end
  end.

(** Lines 157-169: the outer loop. *)
Fixpoint filter_results (results : list (list dict)) (filtered_results : list dict)
    : exn + list dict :=
  match results with
  | [] => inr filtered_results
  | result :: rest =>
      if decide (result <> []) then
        match filter_result result filtered_results with
        | inl e => inl e
        | inr filtered_results' => filter_results rest filtered_results'
        end
      else filter_results rest filtered_results
  end.

Definition analyze_contract_code (contract : str) : M (list dict) :=
  st ← get_state;
  results ← match slither_run_detectors st contract with
            | Some results => ret results
            | None => raise EngineError
            end;
  lift (filter_results results []).

(** ** delete_contract_directory *)

(** Lines 206-214: one turn of the loop for every name listed. *)
Fixpoint delete_entries (filenames : list str) : M unit :=
  match filenames with
  | [] => ret tt
  | filename :: rest =>
      let file_path := lit "./" ++ filename in
      try_except
        (isfile ← os_path_isfile file_path;
         islink ← os_path_islink file_path;
         if (isfile : bool) || (islink : bool) then os_unlink file_path
         else
           (isdir ← os_path_isdir file_path;
            if (isdir : bool) then shutil_rmtree file_path else ret tt))
        (fun e => modify (add_event (PrintFailedToDelete file_path e)));;
      delete_entries rest
  end.

Definition delete_contract_directory : M unit :=
  os_chdir (lit "..");;
  filenames ← os_listdir (lit ".");
  delete_entries filenames;;
  os_chdir (lit "../..").

(** ** analyze_contract *)

Record request := Request {
  arg_blockchain : option str;
  arg_contract : option str;
  arg_code : option str
}.

(** What the route returns: [jsonify(body)] with its status. *)
Inductive body :=
  | ResultBody (result : list dict)
  | ErrorBody (error : str).

Definition reply : Type := body * Z.

Definition analyze_contract (req : request) : M reply :=
  let blockchain := arg_blockchain req in
  let contract_address := arg_contract req in
  let code := arg_code req in
  if falsy blockchain || falsy contract_address then
    if negb (falsy code) then
      print (fstr code);;
      decoded_code ← match b64decode_utf8 (fstr code) with
                     | Some s => ret s
                     | None => raise DecodeError
                     end;
      print decoded_code;;
      contract ← get_contract_code blockchain contract_address (Some decoded_code);
      if falsy contract then
        ret (ErrorBody (lit "Unable to retrieve contract code"), 400%Z)
      else
        slither_result ← analyze_contract_code (fstr contract);
        delete_contract_directory;;
        ret (ResultBody slither_result, 200%Z)
    else
      ret (ErrorBody (lit "Missing blockchain or contract address"), 400%Z)
  else
    contract ← get_contract_code blockchain contract_address None;
    if falsy contract then
      ret (ErrorBody (lit "Unable to retrieve contract code"), 400%Z)
    else
      slither_result ← analyze_contract_code (fstr contract);
      delete_contract_directory;;
      ret (ResultBody slither_result, 200%Z).

End Program.

(** ** Vocabulary of the statements *)

(** A non-empty run of digits. *)
Definition digits (s : str) : Prop := s <> [] /\ forallb is_digit s = true.

(** [major.minor.patch] *)
Definition version3 (m : str) : Prop :=
  exists a b c, digits a /\ digits b /\ digits c
                /\ m = a ++ "."%char :: b ++ "."%char :: c.

(** A three-component version starts at position [i] of [s]. *)
Definition version_at (s : str) (i : nat) : Prop :=
  exists m rest, drop i s = m ++ rest /\ version3 m.

(** [v] and a three-component version start at position [i] of [s]. *)
Definition v_version_at (s : str) (i : nat) : Prop :=
  exists m rest, drop i s = "v"%char :: m ++ rest /\ version3 m.

(** What follows is not one more digit. *)
Definition no_digit_next (rest : str) : Prop :=
  match rest with c :: _ => is_digit c = false | [] => True end.

(** What an atom can match. *)
Definition lexeme (a : atom) (w : str) : Prop :=
  match rep a with
  | One => exists c, w = [c] /\ cls a c = true
  | Plus => w <> [] /\ forallb (cls a) w = true
  end.

(** A dictionary holds each of its keys once. *)
Definition keys_once (d : dict) : Prop := NoDup d.*1.

(** The finding carries the four fields, with these values: the items
    themselves, whatever way they are looked up. *)
Definition four_fields (issue : dict) (check description impact confidence : pyval)
    : Prop :=
  keys_once issue
  /\ (lit "check", check) ∈ issue
  /\ (lit "description", description) ∈ issue
  /\ (lit "impact", impact) ∈ issue
  /\ (lit "confidence", confidence) ∈ issue.

(** The record is the four fields of the finding and nothing else. *)
Definition normalized (issue filtered : dict) : Prop :=
  exists check description impact confidence,
    four_fields issue check description impact confidence
    /\ filtered = [(lit "check", check); (lit "description", description);
                   (lit "impact", impact); (lit "confidence", confidence)].

(** ** Sample data *)

Definition sample_issue : dict :=
  [(lit "elements", POther (lit "[...]"));
   (lit "description", PStr (lit "Reentrancy in Vault.withdraw()"));
   (lit "check", PStr (lit "reentrancy-eth"));
   (lit "impact", PStr (lit "High"));
   (lit "confidence", PStr (lit "Medium"));
   (lit "id", PStr (lit "5d1c"))].

Definition sample_issue_2 : dict :=
  [(lit "check", PStr (lit "solc-version"));
   (lit "impact", PStr (lit "Informational"));
   (lit "confidence", PStr (lit "High"));
   (lit "description", PStr (lit "Pragma version allows old versions"))].

Definition sample_results : list (list dict) :=
  [[]; [sample_issue; sample_issue_2]; []; [sample_issue_2]].

(** A world for the examples: one blockchain is configured, the explorer
    answers [resp] whatever the address, the multi-file payload decodes to
    [sources], the engine reports [results], one base64 text is known. *)
Definition sample_world (resp : response) (sources : list (str * str))
    (results : list (list dict)) : World := {|
  environ_upper := fun name =>
    if decide (name = lit "ethereum") then Some (lit "api.etherscan.io,KEY")
    else None;
  requests_get := fun _ => resp;
  json_loads_sources := fun _ => inr sources;
  b64decode_utf8 := fun code =>
    if decide (code = lit "cHJhZ21hIHNvbGlkaXR5IF4wLjguMTA7")
    then Some (lit "pragma solidity ^0.8.10;")
    else if decide (code = lit "cHJhZ21hIHNvbGlkaXR5IF4wLjg7")
    then Some (lit "pragma solidity ^0.8;")
    else None;
  solc_known := fun version => bool_decide (version <> []);
  slither_run_detectors := fun _ _ => Some results
|}.

Definition no_response : response := Response 404 [] [] [].

(** A process started in [/srv/app], nothing staged yet. *)
Definition sample_fs : gmap path node :=
  <[ [lit "srv"; lit "app"] := Dir ]> (<[ [lit "srv"] := Dir ]> ∅).

Definition sample_state : state :=
  State sample_fs [lit "srv"; lit "app"] ∅ (lit "0.8.0") [].

(** ** Vocabulary of the file system statements *)

(** A name that is one component of a path. *)
Definition plain (c : str) : Prop :=
  c <> [] /\ c <> lit "." /\ c <> lit ".." /\ (chr_slash ∉ c) /\ (chr_nul ∉ c).

#[global] Instance plain_dec c : Decision (plain c).
Proof. unfold plain. apply _. Defined.

(** The tree is closed under parents, and its names are plain. *)
Definition fs_wf (fs : gmap path node) : Prop :=
  fs !! [] = None
  /\ forall p c, is_Some (fs !! (p ++ [c])) -> plain c /\ node_at fs p = Some Dir.

(** Nothing but a directory stands at [p]. *)
Definition may_be_dir (fs : gmap path node) (p : path) : Prop :=
  node_at fs p = None \/ node_at fs p = Some Dir.

(** Nothing but a regular file stands at [p]. *)
Definition may_be_file (fs : gmap path node) (p : path) : Prop :=
  fs !! p = None \/ exists content, fs !! p = Some (File content).

(** The directories on the way from [cur] down the components [cs]. *)
Fixpoint dir_chain (cur : path) (cs : list str) : list path :=
  match cs with
  | [] => []
  | c :: rest => (cur ++ [c]) :: dir_chain (cur ++ [c]) rest
  end.

(** The tree with the directories [ps] in it. *)
Definition add_dirs (fs : gmap path node) (ps : list path) : gmap path node :=
  foldl (fun fs p => <[p := Dir]> fs) fs ps.

(** The state once the directories [root] are made below the working
    directory and entered. *)
Definition enter (st : state) (root : list str) : state :=
  set_cwd (cwd st ++ root)
    (set_nodes (add_dirs (nodes st) (dir_chain (cwd st) root)) st).

(** The state once, besides, the file [name] is written in there. *)
Definition staged (st : state) (root : list str) (name : str) (content : str)
    : state :=
  set_nodes (<[cwd st ++ root ++ [name] := File content]> (nodes (enter st root)))
            (enter st root).

(** Staging below [root] can start: the tree is well formed, the working
    directory exists, and no regular file stands where a directory of [root]
    has to be. *)
Definition stage_ready (st : state) (root : list str) : Prop :=
  fs_wf (nodes st)
  /\ node_at (nodes st) (cwd st) = Some Dir
  /\ root <> [] /\ Forall plain root
  /\ Forall (may_be_dir (nodes st)) (dir_chain (cwd st) root).

(** [contracts/no-bc/contract] *)
Definition raw_root : list str := [lit "contracts"; lit "no-bc"; lit "contract"].

(** [contracts/{blockchain}/{contract_address}] *)
Definition explorer_root (blockchain contract_address : str) : list str :=
  [lit "contracts"; blockchain; contract_address].

(** [a] ends a line. *)
Definition is_newline (a : ascii) : Prop := a = chr_lf \/ a = chr_cr.

(** In the text [code], [line] is a whole line that is not empty: it stands
    between [pre], which is empty or ends with the end of a line, and
    [post], which is empty or starts with the end of this line. *)
Definition whole_line (code pre line post : str) : Prop :=
  code = pre ++ line ++ post
  /\ line <> [] /\ (chr_lf ∉ line) /\ (chr_cr ∉ line)
  /\ (pre = [] \/ exists pre' a, pre = pre' ++ [a] /\ is_newline a)
  /\ (post = [] \/ exists a post', post = a :: post' /\ is_newline a).

(** [line] is the first line of the text [code] to contain [pragma
    solidity]: a whole line with it, and nothing of it before. *)
Definition first_pragma (code pre line post : str) : Prop :=
  whole_line code pre line post
  /\ str_in (lit "pragma solidity") pre = false
  /\ str_in (lit "pragma solidity") line = true.

(** [line] is the first of [lines] to contain [pragma solidity], at index [i]. *)
Definition first_pragma_line (lines : list str) (i : nat) (line : str) : Prop :=
  lines !! i = Some line
  /\ str_in (lit "pragma solidity") line = true
  /\ forall j l, j < i -> lines !! j = Some l ->
                 str_in (lit "pragma solidity") l = false.

(** The run asked the compiler selector for [version], last of all it did,
    and returned [contract.sol] if the selector knew the version, raised the
    selector's error otherwise. *)
Definition activates `{W : World} (run : outcome (option str)) (version : str)
    : Prop :=
  last (events (outcome_state run)) = Some (SwitchGlobalVersion version)
  /\ if solc_known version
     then exists st', run = Ok (Some (lit "contract.sol")) st'
                      /\ solc st' = version
     else exists st', run = Raise ArgumentTypeError st'.

(** A submitted source: a comment, the pragma, a contract. *)
Definition sample_code : str :=
  lit "// SPDX-License-Identifier: MIT" ++ [chr_cr; chr_lf]
  ++ lit "pragma solidity ^0.8.10;" ++ [chr_cr; chr_lf]
  ++ lit "contract C {}".

(** A source with a version in a comment before its pragma. *)
Definition sample_code_commented : str :=
  lit "// since 0.4.0" ++ [chr_lf] ++ lit "pragma solidity ^0.8.10;".

(** The entry at [e] does not go whole: it is locked and there, or
    something below it is. *)
Definition refuses (st : state) (e : path) : Prop :=
  Exists (fun l => e `prefix_of` l /\ is_Some (nodes st !! l))
         (elements (locked st)).

#[global] Instance refuses_dec st e : Decision (refuses st e).
Proof. unfold refuses. apply _. Defined.

(** [st'] comes from [st] by removals below [q]: only the tree has
    changed; it is well formed; it has lost nodes, below [q] only, and none
    that is locked. *)
Definition removed_below (q : path) (st st' : state) : Prop :=
  cwd st' = cwd st /\ locked st' = locked st /\ solc st' = solc st
  /\ events st' = events st
  /\ fs_wf (nodes st')
  /\ (forall p, ~ under q p -> nodes st' !! p = nodes st !! p)
  /\ (forall p, nodes st' !! p = None \/ nodes st' !! p = nodes st !! p)
  /\ (forall l, l ∈ locked st -> nodes st' !! l = nodes st !! l).

(** The sample process after staging a submitted source. *)
Definition sample_staged : state :=
  staged sample_state raw_root (lit "contract.sol") (lit "contract C {}").

(** The same with two more files beside [contract.sol], one of them
    locked. *)
Definition sample_locked : state :=
  State (<[cwd sample_staged ++ [lit "b.sol"] := File (lit "b")]>
           (<[cwd sample_staged ++ [lit "a.sol"] := File (lit "a")]>
              (nodes sample_staged)))
        (cwd sample_staged)
        {[ cwd sample_staged ++ [lit "b.sol"] ]}
        (solc sample_staged) (events sample_staged).

(** ** Vocabulary of the explorer path *)

(** The explorer is configured for [blockchain] and answers [resp] for this
    address: lines 40-44. *)
Definition explorer_answers `{W : World} (blockchain : str)
    (contract_address : option str) (resp : response) : Prop :=
  exists entry api_url api_key,
    environ_upper blockchain = Some entry
    /\ split_on ","%char entry = [api_url; api_key]
    /\ requests_get
         (lit "https://" ++ api_url
          ++ lit "/api?module=contract&action=getsourcecode&address="
          ++ fstr contract_address ++ lit "&apikey=" ++ api_key) = resp.

(** The state after a call of the compiler selector that went well. *)
Definition switched (version : str) (st : state) : state :=
  set_solc version (add_event (SwitchGlobalVersion version) st).

(** The components of a file name. *)
Definition comps (file_name : str) : list str := split_on chr_slash file_name.

(** A relative file name with plain components, in a directory. *)
Definition nested_name (file_name : str) : Prop :=
  Forall plain (comps file_name) /\ 2 <= length (comps file_name).

(** The tree with the file [file_name] below [root] and its directories. *)
Definition stage_file (fs : gmap path node) (root : path) (file_name content : str)
    : gmap path node :=
  <[root ++ comps file_name := File content]>
    (add_dirs fs (dir_chain root (removelast (comps file_name)))).

Fixpoint stage_files (fs : gmap path node) (root : path)
    (items : list (str * str)) : gmap path node :=
  match items with
  | [] => fs
  | (file_name, content) :: rest =>
      stage_files (stage_file fs root file_name content) root rest
  end.

(** The file fits in the tree below [root]: no regular file where it needs
    a directory, no directory where it goes. *)
Definition file_fits (fs : gmap path node) (root : path) (file_name : str)
    : Prop :=
  nested_name file_name
  /\ Forall (may_be_dir fs) (dir_chain root (removelast (comps file_name)))
  /\ may_be_file fs (root ++ comps file_name).

(** The files fit, and none of them is a directory of another. *)
Definition files_fit (fs : gmap path node) (root : path)
    (items : list (str * str)) : Prop :=
  Forall (fun item => file_fits fs root item.1) items
  /\ forall f f', f ∈ items.*1 -> f' ∈ items.*1 ->
                  comps f `prefix_of` comps f' -> f = f'.

(** A multi-file source of three files; two of them contain
    [contract Vault]. *)
Definition sample_sources : list (str * str) :=
  [(lit "contracts/Vault.sol", lit "import './lib/Math.sol'; contract Vault {}");
   (lit "contracts/lib/Math.sol", lit "library Math {}");
   (lit "contracts/VaultV2.sol", lit "contract VaultV2 is Vault {}")].

Definition multi_response (contract_name : string) : response :=
  Response 200 (lit "{{...}}") (lit "v0.8.19+commit.7dd6d404") (lit contract_name).

(** A single-file source of two lines. *)
Definition sample_single_code : str :=
  lit "// SPDX-License-Identifier: MIT" ++ [chr_lf] ++ lit "contract Token {}".

Definition single_response : response :=
  Response 200 sample_single_code (lit "v0.8.19+commit.7dd6d404") (lit "Token").

(** A multi-file source whose one file lies at the top. *)
Definition top_level_sources : list (str * str) :=
  [(lit "Token.sol", lit "contract Token {}")].

(** The run returned [a]. *)
Definition returns {A} (run : outcome A) (a : A) : Prop :=
  match run with Ok a' _ => a' = a | Raise _ _ => False end.

(** The run raised [e]. *)
Definition raises {A} (run : outcome A) (e : exn) : Prop :=
  match run with Raise e' _ => e' = e | Ok _ _ => False end.

(** ** Tactics for closed side conditions *)

(** A literal name is plain; a list of literal names is. *)
Ltac solve_plain :=
  repeat first
    [ apply Forall_nil_2
    | apply Forall_cons_2
    | apply (bool_decide_unpack _); vm_compute; exact I ].

(** A decidable fact about literals, or an equation between them. *)
Ltac solve_literal :=
  first [ apply (bool_decide_unpack _); vm_compute; exact I
        | vm_compute; reflexivity ].


(** ** Vocabulary of the further properties *)

(** The four keys a finding is read at. *)
Definition issue_keys : list str :=
  [lit "check"; lit "description"; lit "impact"; lit "confidence"].

(** The finding lacks one of the four keys. *)
Definition lacks_key (issue : dict) : Prop :=
  Exists (fun k => dict_get issue k = inl KeyError) issue_keys.

(** A finding without its description. *)
Definition sample_issue_short : dict :=
  [(lit "check", PStr (lit "naming-convention"));
   (lit "impact", PStr (lit "Informational"));
   (lit "confidence", PStr (lit "High"))].

(** A world whose engine reports the same two findings for [a.sol] in one
    group, and for any other contract in two groups with an empty group
    between them. *)
Definition regrouping_world : World := {|
  environ_upper := fun _ => None;
  requests_get := fun _ => no_response;
  json_loads_sources := fun _ => inl JSONDecodeError;
  b64decode_utf8 := fun _ => None;
  solc_known := fun _ => true;
  slither_run_detectors := fun _ contract =>
    if decide (contract = lit "a.sol")
    then Some [[sample_issue; sample_issue_2]]
    else Some [[sample_issue]; []; [sample_issue_2]]
|}.

(** The number of commas of an entry of the environment. *)
Definition commas (entry : str) : nat :=
  length (filter (fun a => a = ","%char) entry).

(** An answer of the explorer for a contract that is not verified: status
    200 and an empty source. *)
Definition unverified_response : response :=
  Response 200 [] (lit "v0.8.19+commit.7dd6d404") [].

(** An answer whose compiler version the pattern does not match. *)
Definition vyper_response : response :=
  Response 200 (lit "# @version 0.3.7") (lit "vyper:0.3.7") (lit "Token").

(** * Properties *)

(** ** The matcher *)

Lemma match_plus_Some f k s w ws :
  match_plus f k s = Some (w, ws) ->
  exists s', s = w ++ s' /\ w <> [] /\ forallb f w = true /\ k s' = Some ws.
Proof.
  revert w ws. induction s as [|c s IH]; intros w ws H; simpl in H; [done|].
  destruct (f c) eqn:Hc; [|done].
  destruct (match_plus f k s) as [[w' ws']|] eqn:Hm.
  - injection H as <- <-.
    destruct (IH _ _ eq_refl) as (s' & -> & Hne & Hall & Hk).
    exists s'. simpl. rewrite Hc, Hall. done.
  - destruct (k s) as [ws'|] eqn:Hk; simpl in H; [|done].
    injection H as <- <-. exists s. simpl. rewrite Hc. done.
Qed.

Lemma match_plus_is_Some f k w s' :
  w <> [] -> forallb f w = true -> is_Some (k s') ->
  is_Some (match_plus f k (w ++ s')).
Proof.
  intros Hne Hall Hk. induction w as [|c w IH]; [done|].
  simpl in Hall. apply andb_prop in Hall as [Hc Hall]. simpl. rewrite Hc.
  destruct w as [|c' w].
  - simpl. destruct (match_plus f k s') as [[? ?]|]; [done|].
    destruct Hk as [ws ->]. done.
  - destruct (IH ltac:(done) Hall) as [[w' ws'] ->]. done.
Qed.

(** The longest run wins when nothing has to follow. *)
Lemma match_plus_last f s w ws :
  match_plus f (fun _ => Some []) s = Some (w, ws) ->
  exists s', s = w ++ s' /\ ws = []
             /\ match s' with c :: _ => f c = false | [] => True end.
Proof.
  revert w ws. induction s as [|c s IH]; intros w ws H; simpl in H; [done|].
  destruct (f c) eqn:Hc; [|done].
  destruct (match_plus f _ s) as [[w' ws']|] eqn:Hm.
  - injection H as <- <-. destruct (IH _ _ eq_refl) as (s' & -> & -> & Hn).
    by exists s'.
  - simpl in H. injection H as <- <-. exists s. split_and!; [done..|].
    destruct s as [|c' s]; [done|]. simpl in Hm.
    destruct (f c'); [|done].
    by destruct (match_plus f _ s) as [[? ?]|].
Qed.

Lemma match_here_cons_Some a pat s ws :
  match_here (a :: pat) s = Some ws ->
  exists w ws' s', ws = w :: ws' /\ s = w ++ s' /\ lexeme a w
                   /\ match_here pat s' = Some ws'.
Proof.
  unfold lexeme. simpl. destruct (rep a).
  - destruct s as [|c s]; [done|]. destruct (cls a c) eqn:Hc; [|done].
    destruct (match_here pat s) as [ws'|] eqn:Hm; simpl; [|done].
    intros [= <-]. exists [c], ws', s. eauto 10.
  - destruct (match_plus _ _ s) as [[w ws']|] eqn:Hm; simpl; [|done].
    intros [= <-]. apply match_plus_Some in Hm as (s' & -> & ? & ? & ?).
    exists w, ws', s'. eauto 10.
Qed.

Lemma match_here_sound pat s ws :
  match_here pat s = Some ws ->
  Forall2 lexeme pat ws /\ exists rest, s = concat ws ++ rest.
Proof.
  revert s ws. induction pat as [|a pat IH]; intros s ws H.
  - injection H as <-. split; [constructor|]. by exists s.
  - apply match_here_cons_Some in H as (w & ws' & s' & -> & -> & Hl & H).
    destruct (IH _ _ H) as (HF & rest & ->). split; [by constructor|].
    exists rest. simpl. by rewrite <- app_assoc.
Qed.

Lemma match_here_complete pat ws rest :
  Forall2 lexeme pat ws -> is_Some (match_here pat (concat ws ++ rest)).
Proof.
  induction 1 as [|a w pat ws Hl HF IH]; [done|].
  unfold lexeme in Hl. simpl. rewrite <- app_assoc. destruct (rep a).
  - destruct Hl as (c & -> & Hc). simpl. rewrite Hc.
    destruct IH as [? ->]. done.
  - destruct Hl as [Hne Hall].
    destruct (match_plus_is_Some (cls a) (match_here pat) w
                (concat ws ++ rest) Hne Hall IH) as [[? ?] ->]. done.
Qed.

Lemma re_search_Some pat s ws :
  re_search pat s = Some ws ->
  exists i, i <= length s /\ match_here pat (drop i s) = Some ws
            /\ forall j, j < i -> match_here pat (drop j s) = None.
Proof.
  induction s as [|c s IH]; simpl.
  - destruct (match_here pat []) eqn:Hm; [|done]. intros [= <-].
    exists 0. split_and!; [done..|lia].
  - destruct (match_here pat (c :: s)) eqn:Hm.
    + intros [= <-]. exists 0. split_and!; [lia|done|lia].
    + intros H. destruct (IH H) as (i & Hi & Hmi & Hlt).
      exists (S i). split_and!; [lia|done|].
      intros [|j] Hj; [done|]. apply Hlt. lia.
Qed.

Lemma re_search_None pat s :
  re_search pat s = None -> forall i, match_here pat (drop i s) = None.
Proof.
  induction s as [|c s IH]; simpl.
  - destruct (match_here pat []) eqn:Hm; [done|]. intros _ i.
    by rewrite drop_nil.
  - destruct (match_here pat (c :: s)) eqn:Hm; [done|].
    intros H [|i]; [done|]. by apply IH.
Qed.

(** ** The version patterns *)

Lemma lexeme_digits1 w : lexeme digits1 w <-> digits w.
Proof. done. Qed.

Lemma lexeme_char a w : lexeme (Atom (is_char a) One) w <-> w = [a].
Proof.
  unfold lexeme, is_char. simpl. split.
  - intros (c & -> & Hc). by apply bool_decide_eq_true in Hc as ->.
  - intros ->. exists a. split; [done|]. by apply bool_decide_eq_true.
Qed.

Lemma version3_lexemes m :
  version3 m <-> exists ws, Forall2 lexeme rx_version ws /\ concat ws = m.
Proof.
  split.
  - intros (a & b & c & Ha & Hb & Hc & ->).
    exists [a; ["."%char]; b; ["."%char]; c]. split.
    + repeat constructor; first [by apply lexeme_digits1 | by apply lexeme_char].
    + simpl. by rewrite app_nil_r.
  - intros (ws & HF & <-). unfold rx_version in HF.
    apply Forall2_cons_inv_l in HF as (a & ? & Ha & HF & ->).
    apply Forall2_cons_inv_l in HF as (? & ? & ->%lexeme_char & HF & ->).
    apply Forall2_cons_inv_l in HF as (b & ? & Hb & HF & ->).
    apply Forall2_cons_inv_l in HF as (? & ? & ->%lexeme_char & HF & ->).
    apply Forall2_cons_inv_l in HF as (c & ? & Hc & HF & ->).
    apply Forall2_nil_inv_l in HF as ->.
    exists a, b, c. split_and!; [done..|].
    simpl. by rewrite app_nil_r.
Qed.

Lemma match_here_version_Some s ws :
  match_here rx_version s = Some ws ->
  exists rest, s = concat ws ++ rest /\ version3 (concat ws) /\ no_digit_next rest.
Proof.
  intros H. destruct (match_here_sound _ _ _ H) as [HF _].
  assert (version3 (concat ws)) as Hv by (apply version3_lexemes; eauto).
  unfold rx_version in H.
  do 4 (apply match_here_cons_Some in H as (? & ? & ? & -> & -> & _ & H)).
  simpl in H.
  destruct (match_plus is_digit _ _) as [[w ws']|] eqn:Hm; [|done].
  injection H as <-.
  apply match_plus_last in Hm as (rest & -> & -> & Hn).
  exists rest. split_and!; [|done..].
  simpl. rewrite app_nil_r, <- ?app_assoc. simpl. by rewrite <- ?app_assoc.
Qed.

Lemma match_here_version_None s :
  match_here rx_version s = None ->
  forall m rest, s = m ++ rest -> ~ version3 m.
Proof.
  intros H m rest -> (ws & HF & <-)%version3_lexemes.
  destruct (match_here_complete _ _ rest HF) as [? Hs]. congruence.
Qed.

Lemma re_search_version_Some s ws :
  re_search rx_version s = Some ws ->
  exists i rest,
    drop i s = group0 ws ++ rest /\ version3 (group0 ws) /\ no_digit_next rest
    /\ forall j, j < i -> ~ version_at s j.
Proof.
  intros (i & _ & Hm & Hlt)%re_search_Some.
  apply match_here_version_Some in Hm as (rest & Hs & Hv & Hn).
  exists i, rest. split_and!; [done..|].
  intros j Hj (m & rest' & Hd & Hm).
  by eapply match_here_version_None; [apply Hlt| |].
Qed.

Lemma re_search_version_None s :
  re_search rx_version s = None -> forall i, ~ version_at s i.
Proof.
  intros H i (m & rest & Hd & Hm).
  by eapply match_here_version_None; [by apply re_search_None| |].
Qed.

(** The first occurrence decides: the search returns what stands there. *)
Lemma re_search_version_first s i :
  version_at s i -> (forall j, j < i -> ~ version_at s j) ->
  exists ws rest,
    re_search rx_version s = Some ws /\ drop i s = group0 ws ++ rest
    /\ version3 (group0 ws) /\ no_digit_next rest.
Proof.
  intros Hi Hmin. destruct (re_search rx_version s) as [ws|] eqn:Hs.
  - destruct (re_search_version_Some _ _ Hs) as (i' & rest & Hd & Hv & Hn & Hmin').
    assert (i' = i) as ->.
    { destruct (lt_eq_lt_dec i i') as [[?|?]|?]; [|done|].
      - by destruct (Hmin' i).
      - destruct (Hmin i'); [done|]. by exists (group0 ws), rest. }
    by exists ws, rest.
  - by destruct (re_search_version_None _ Hs i).
Qed.

Lemma match_here_v_version s :
  match_here rx_v_version s =
  match s with
  | c :: s' => if bool_decide (c = "v"%char)
               then cons [c] <$> match_here rx_version s' else None
  | [] => None
  end.
Proof. done. Qed.

Lemma re_search_v_version_Some s ws :
  re_search rx_v_version s = Some ws ->
  exists i rest,
    drop i s = "v"%char :: group_span 1 5 ws ++ rest
    /\ version3 (group_span 1 5 ws) /\ no_digit_next rest
    /\ forall j, j < i -> ~ v_version_at s j.
Proof.
  intros (i & _ & Hm & Hlt)%re_search_Some.
  rewrite match_here_v_version in Hm.
  destruct (drop i s) as [|c s'] eqn:Hd; [done|].
  case_bool_decide as Hc; [subst c|done].
  destruct (match_here rx_version s') as [ws'|] eqn:Hm'; [|done].
  injection Hm as <-.
  assert (group_span 1 5 (["v"%char] :: ws') = group0 ws') as ->.
  { destruct (match_here_sound _ _ _ Hm') as [HF _].
    apply Forall2_length in HF. unfold rx_version in HF. simpl in HF.
    unfold group_span, group0. simpl. rewrite drop_0, take_ge; [done|lia]. }
  apply match_here_version_Some in Hm' as (rest & -> & Hv & Hn).
  exists i, rest. split_and!; [done..|].
  intros j Hj (m & rest' & Hd' & Hm).
  specialize (Hlt j Hj). rewrite match_here_v_version, Hd' in Hlt.
  rewrite bool_decide_eq_true_2 in Hlt by done. apply fmap_None in Hlt.
  by eapply match_here_version_None.
Qed.

Lemma re_search_v_version_None s :
  re_search rx_v_version s = None -> forall i, ~ v_version_at s i.
Proof.
  intros H i (m & rest & Hd & Hm).
  pose proof (re_search_None _ _ H i) as Hn.
  rewrite match_here_v_version, Hd in Hn.
  rewrite bool_decide_eq_true_2 in Hn by done. apply fmap_None in Hn.
  by eapply match_here_version_None.
Qed.

(** ** get_solidity_version *)

Example get_solidity_version_scenario_A :
  get_solidity_version (lit "v0.8.19+commit.7dd6d404") = lit "0.8.19".
Proof. reflexivity. Qed.

Example get_solidity_version_without_v :
  get_solidity_version (lit "0.8.19") = [].
Proof. reflexivity. Qed.

(** C7. For every compiler-version string: where [v] followed by a
    three-component version occurs, [get_solidity_version] returns the
    version that stands at the first occurrence, without the [v] and with
    all the digits of its last component; where nothing of that form
    occurs, it returns the empty string. *)
Theorem get_solidity_version_first_match (compiler_version : str) :
  (forall i,
      v_version_at compiler_version i ->
      (forall j, j < i -> ~ v_version_at compiler_version j) ->
      exists m rest,
        drop i compiler_version = "v"%char :: m ++ rest
        /\ version3 m /\ no_digit_next rest
        /\ get_solidity_version compiler_version = m)
  /\ ((forall i, ~ v_version_at compiler_version i) ->
      get_solidity_version compiler_version = []).
Proof.
  unfold get_solidity_version. split.
  - intros i Hi Hmin.
    destruct (re_search rx_v_version compiler_version) as [ws|] eqn:Hs.
    + destruct (re_search_v_version_Some _ _ Hs)
        as (i' & rest & Hd & Hv & Hn & Hmin').
      assert (i' = i) as ->.
      { destruct (lt_eq_lt_dec i i') as [[?|?]|?]; [|done|].
        - by destruct (Hmin' i).
        - destruct (Hmin i'); [done|]. by eexists _, rest. }
      by eexists _, rest.
    + by destruct (re_search_v_version_None _ Hs i).
  - intros Hnone.
    destruct (re_search rx_v_version compiler_version) as [ws|] eqn:Hs; [|done].
    destruct (re_search_v_version_Some _ _ Hs) as (i & rest & Hd & Hv & _).
    destruct (Hnone i). by eexists _, rest.
Qed.

Lemma get_solidity_version_first_match_witness :
  (exists m rest,
      drop 0 (lit "v0.8.19+commit.7dd6d404") = "v"%char :: m ++ rest
      /\ version3 m /\ no_digit_next rest
      /\ get_solidity_version (lit "v0.8.19+commit.7dd6d404") = m)
  /\ get_solidity_version (lit "0.8.19") = [].
Proof.
  split.
  - apply (proj1 (get_solidity_version_first_match (lit "v0.8.19+commit.7dd6d404")) 0).
    + exists (lit "0.8.19"), (lit "+commit.7dd6d404"). split; [reflexivity|].
      exists (lit "0"), (lit "8"), (lit "19"). by repeat split.
    + intros j Hj. lia.
  - apply (proj2 (get_solidity_version_first_match (lit "0.8.19"))).
    by apply re_search_v_version_None.
Defined.

(** ** analyze_contract_code *)

(** Looking a key up gives the value the dictionary holds for it. *)
Lemma dict_get_item (d : dict) k v :
  keys_once d -> (k, v) ∈ d -> dict_get d k = inr v.
Proof.
  unfold keys_once. induction d as [|[k' v'] d IH]; intros Hnd Hin.
  - by apply elem_of_nil in Hin.
  - rewrite fmap_cons in Hnd. apply NoDup_cons in Hnd as [Hk Hnd]. simpl.
    apply elem_of_cons in Hin as [Heq|Hin].
    + injection Heq as -> ->. by rewrite decide_True.
    + rewrite decide_False; [by apply IH|].
      intros ->. apply Hk. apply list_elem_of_fmap. by exists (k, v).
Qed.

(** A finding has one normal form. *)
Lemma normalized_unique issue filtered filtered' :
  normalized issue filtered -> normalized issue filtered' -> filtered = filtered'.
Proof.
  intros (c & d & i & f & (Hk & Hc & Hd & Hi & Hf) & ->)
         (c' & d' & i' & f' & (_ & Hc' & Hd' & Hi' & Hf') & ->).
  assert (forall k v v', (k, v) ∈ issue -> (k, v') ∈ issue -> v = v') as Huniq.
  { intros k v v' Hv Hv'. pose proof (dict_get_item _ _ _ Hk Hv) as H1.
    rewrite (dict_get_item _ _ _ Hk Hv') in H1. by injection H1. }
  by rewrite (Huniq _ _ _ Hc Hc'), (Huniq _ _ _ Hd Hd'),
       (Huniq _ _ _ Hi Hi'), (Huniq _ _ _ Hf Hf').
Qed.

Lemma filter_issue_normalized issue c d i f :
  four_fields issue c d i f ->
  filter_issue issue =
  inr [(lit "check", c); (lit "description", d);
       (lit "impact", i); (lit "confidence", f)].
Proof.
  intros (Hk & Hc & Hd & Hi & Hf). unfold filter_issue.
  by rewrite (dict_get_item _ _ _ Hk Hc), (dict_get_item _ _ _ Hk Hd),
       (dict_get_item _ _ _ Hk Hi), (dict_get_item _ _ _ Hk Hf).
Qed.

Lemma filter_result_ok result acc :
  Forall (fun issue => exists c d i f, four_fields issue c d i f) result ->
  exists out, filter_result result acc = inr (acc ++ out)
              /\ Forall2 normalized result out.
Proof.
  intros HF. revert acc. induction HF as [|issue result (c & d & i & f & H4) _ IH];
    intros acc.
  - exists []. by rewrite app_nil_r.
  - simpl. rewrite (filter_issue_normalized _ _ _ _ _ H4).
    match goal with
    | |- context [filter_result result ?acc'] =>
        destruct (IH acc') as (out & Hres & Hout)
    end.
    eexists (_ :: out). rewrite Hres, <- app_assoc. split; [done|].
    constructor; [|done]. by exists c, d, i, f.
Qed.

Lemma filter_results_ok results acc :
  Forall (Forall (fun issue => exists c d i f, four_fields issue c d i f)) results ->
  exists out, filter_results results acc = inr (acc ++ out)
              /\ Forall2 normalized (concat (filter (fun g => g <> []) results)) out.
Proof.
  intros HF. revert acc. induction HF as [|result results Hr _ IH]; intros acc.
  - exists []. by rewrite app_nil_r.
  - simpl. rewrite filter_cons. destruct (decide (result <> [])) as [Hne|He].
    + destruct (filter_result_ok result acc Hr) as (out1 & Hres1 & H1).
      destruct (IH (acc ++ out1)) as (out2 & Hres2 & H2).
      exists (out1 ++ out2). rewrite Hres1, Hres2, <- app_assoc. split; [done|].
      simpl. by apply Forall2_app.
    + apply IH.
Qed.

Lemma four_fields_sample_issue :
  four_fields sample_issue
    (PStr (lit "reentrancy-eth")) (PStr (lit "Reentrancy in Vault.withdraw()"))
    (PStr (lit "High")) (PStr (lit "Medium")).
Proof.
  split; [apply (bool_decide_unpack _); vm_compute; exact I|].
  unfold sample_issue. split_and!; repeat constructor.
Qed.

Lemma four_fields_sample_issue_2 :
  four_fields sample_issue_2
    (PStr (lit "solc-version")) (PStr (lit "Pragma version allows old versions"))
    (PStr (lit "Informational")) (PStr (lit "High")).
Proof.
  split; [apply (bool_decide_unpack _); vm_compute; exact I|].
  unfold sample_issue_2. split_and!; repeat constructor.
Qed.

(** C8. For every sequence of result groups the engine returns, whose
    findings carry the four fields: [analyze_contract_code] returns, in
    order, one record for every finding of every non-empty group, made of
    the check, description, impact and confidence of that finding and of
    nothing else; empty groups contribute nothing, and the state is left as
    it was. *)
Theorem analyze_contract_code_normalizes `{W : World} (st : state)
    (contract : str) (results : list (list dict)) :
  slither_run_detectors st contract = Some results ->
  Forall (Forall (fun issue => exists c d i f, four_fields issue c d i f)) results ->
  exists filtered_results,
    analyze_contract_code contract st = Ok filtered_results st
    /\ Forall2 normalized (concat (filter (fun g => g <> []) results))
               filtered_results
    /\ length filtered_results = length (concat results).
Proof.
  intros Hrun HF. destruct (filter_results_ok results [] HF) as (out & Hout & Hn).
  exists out. unfold analyze_contract_code, mbind, M_bind, bind, get_state.
  rewrite Hrun. simpl. rewrite Hout. simpl. split_and!; [done..|].
  apply Forall2_length in Hn as <-. f_equal.
  clear. induction results as [|g results IH]; [done|].
  rewrite filter_cons. destruct (decide (g <> [])) as [?|He]; simpl.
  - by rewrite IH.
  - apply dec_stable in He as ->. done.
Qed.

Lemma analyze_contract_code_normalizes_witness :
  analyze_contract_code (W := sample_world no_response [] sample_results)
    (lit "contract.sol") sample_state
  = Ok [ [(lit "check", PStr (lit "reentrancy-eth"));
          (lit "description", PStr (lit "Reentrancy in Vault.withdraw()"));
          (lit "impact", PStr (lit "High"));
          (lit "confidence", PStr (lit "Medium"))];
         [(lit "check", PStr (lit "solc-version"));
          (lit "description", PStr (lit "Pragma version allows old versions"));
          (lit "impact", PStr (lit "Informational"));
          (lit "confidence", PStr (lit "High"))];
         [(lit "check", PStr (lit "solc-version"));
          (lit "description", PStr (lit "Pragma version allows old versions"));
          (lit "impact", PStr (lit "Informational"));
          (lit "confidence", PStr (lit "High"))] ]
       sample_state.
Proof.
  pose proof four_fields_sample_issue as H1.
  pose proof four_fields_sample_issue_2 as H2.
  destruct (analyze_contract_code_normalizes
              (W := sample_world no_response [] sample_results)
              sample_state (lit "contract.sol") sample_results eq_refl)
    as (filtered_results & Hrun & Hn & _).
  { unfold sample_results. repeat apply Forall_cons_2; try apply Forall_nil_2;
      by eexists _, _, _, _. }
  rewrite Hrun. f_equal.
  change (concat (filter (fun g => g <> []) sample_results))
    with [sample_issue; sample_issue_2; sample_issue_2] in Hn.
  apply Forall2_cons_inv_l in Hn as (r1 & l1 & Hr1 & Hn & ->).
  apply Forall2_cons_inv_l in Hn as (r2 & l2 & Hr2 & Hn & ->).
  apply Forall2_cons_inv_l in Hn as (r3 & l3 & Hr3 & Hn & ->).
  apply Forall2_nil_inv_l in Hn as ->.
  rewrite (normalized_unique _ _ _ Hr1 (ex_intro _ _ (ex_intro _ _ (ex_intro _ _
             (ex_intro _ _ (conj H1 eq_refl)))))).
  rewrite (normalized_unique _ _ _ Hr2 (ex_intro _ _ (ex_intro _ _ (ex_intro _ _
             (ex_intro _ _ (conj H2 eq_refl)))))).
  rewrite (normalized_unique _ _ _ Hr3 (ex_intro _ _ (ex_intro _ _ (ex_intro _ _
             (ex_intro _ _ (conj H2 eq_refl)))))).
  reflexivity.
Defined.

(** ** analyze_contract: the request without identifiers *)

(** C9. When the request has no blockchain or no address, and no code
    either, the answer is the error [Missing blockchain or contract
    address] with status 400, and the state is the one before the request:
    no directory made, no file written, the working directory where it
    was. *)
Theorem analyze_contract_missing_identifiers `{W : World} (req : request)
    (st : state) :
  falsy (arg_blockchain req) || falsy (arg_contract req) = true ->
  falsy (arg_code req) = true ->
  analyze_contract req st
  = Ok (ErrorBody (lit "Missing blockchain or contract address"), 400%Z) st.
Proof.
  intros Hid Hcode. unfold analyze_contract. by rewrite Hid, Hcode.
Qed.

Lemma analyze_contract_missing_identifiers_witness :
  analyze_contract (W := sample_world no_response [] [])
    (Request None (Some []) None) sample_state
  = Ok (ErrorBody (lit "Missing blockchain or contract address"), 400%Z)
       sample_state.
Proof.
  apply (analyze_contract_missing_identifiers (W := sample_world no_response [] [])
           (Request None (Some []) None) sample_state); reflexivity.
Defined.

(** ** Strings and path names *)

Lemma starts_with_app x s : starts_with x (x ++ s) = true.
Proof. induction x as [|a x IH]; [done|]. simpl. by rewrite decide_True. Qed.

Lemma starts_with_inv x s : starts_with x s = true -> exists s', s = x ++ s'.
Proof.
  revert s. induction x as [|a x IH]; intros s H; [by exists s|].
  destruct s as [|b s]; [done|]. simpl in H.
  destruct (decide (a = b)) as [->|]; [|done].
  destruct (IH _ H) as [s' ->]. by exists s'.
Qed.

Lemma str_in_spec x s :
  str_in x s = true <-> exists pre post, s = pre ++ x ++ post.
Proof.
  split.
  - induction s as [|b s IH]; simpl; rewrite orb_true_iff.
    + intros [H|?]; [|done]. apply starts_with_inv in H as [s' ->].
      by exists [], s'.
    + intros [H|H].
      * apply starts_with_inv in H as [s' ->]. by exists [], s'.
      * destruct (IH H) as (pre & post & ->). by exists (b :: pre), post.
  - intros (pre & post & ->). induction pre as [|b pre IH].
    + simpl. destruct (x ++ post) eqn:E; simpl; rewrite <- E.
      * by rewrite starts_with_app.
      * by rewrite starts_with_app.
    + simpl. by rewrite IH, orb_true_r.
Qed.

Lemma concat_chars s : concat (chars s) = s.
Proof. induction s as [|c s IH]; [done|]. simpl. by rewrite IH. Qed.

Lemma split_on_ne c s : split_on c s <> [].
Proof.
  destruct s as [|a s]; [done|]. simpl.
  destruct (decide (a = c)); [done|]. by destruct (split_on c s).
Qed.

Lemma split_on_no_sep c s : c ∉ s -> split_on c s = [s].
Proof.
  induction s as [|a s IH]; [done|]. intros Hn.
  apply not_elem_of_cons in Hn as [Hne Hn]. simpl.
  rewrite decide_False by done. by rewrite IH.
Qed.

Lemma split_on_app_sep c w s :
  c ∉ w -> split_on c (w ++ c :: s) = w :: split_on c s.
Proof.
  induction w as [|a w IH]; intros Hn; simpl.
  - by rewrite decide_True.
  - apply not_elem_of_cons in Hn as [Hne Hn].
    rewrite decide_False by done. by rewrite IH.
Qed.

Lemma split_on_join c ws :
  ws <> [] -> Forall (fun w => c ∉ w) ws ->
  split_on c (join_with c ws) = ws.
Proof.
  intros Hne HF. destruct HF as [|w ws Hw HF]; [done|]. clear Hne. simpl.
  revert w Hw. induction HF as [|w' ws Hw' HF IH]; intros w Hw; simpl.
  - rewrite app_nil_r. by apply split_on_no_sep.
  - rewrite split_on_app_sep by done. f_equal. by apply IH.
Qed.

Lemma join_with_snoc c ws w :
  ws <> [] -> join_with c (ws ++ [w]) = join_with c ws ++ c :: w.
Proof.
  destruct ws as [|w0 ws]; [done|]. intros _. simpl.
  rewrite map_app, concat_app. simpl. by rewrite app_nil_r, app_assoc.
Qed.

Lemma join_with_split c s : join_with c (split_on c s) = s.
Proof.
  induction s as [|a s IH]; [done|]. simpl.
  destruct (decide (a = c)) as [->|].
  - simpl. pose proof (split_on_ne c s) as Hne.
    destruct (split_on c s) as [|w ws] eqn:E; [done|].
    simpl in *. by rewrite IH.
  - pose proof (split_on_ne c s) as Hne.
    destruct (split_on c s) as [|w ws] eqn:E; [done|].
    simpl in *. by rewrite IH.
Qed.

Lemma split_on_inj c s t : split_on c s = split_on c t -> s = t.
Proof. intros H. by rewrite <- (join_with_split c s), H, join_with_split. Qed.

Lemma drop_while_app_stop p s a t :
  forallb p s = true -> p a = false ->
  drop_while p (s ++ a :: t) = a :: t.
Proof.
  intros Hs Ha. induction s as [|b s IH]; simpl.
  - by rewrite Ha.
  - simpl in Hs. apply andb_prop in Hs as [-> Hs]. by apply IH.
Qed.

Lemma drop_while_all p s : forallb p s = true -> drop_while p s = [].
Proof.
  induction s as [|b s IH]; [done|]. simpl.
  intros [-> Hs]%andb_prop. by apply IH.
Qed.

Lemma forallb_not_slash s :
  chr_slash ∉ s -> forallb (fun a => negb (is_slash a)) s = true.
Proof.
  induction s as [|a s IH]; [done|]. intros [Hne Hn]%not_elem_of_cons. simpl.
  rewrite IH by done. unfold is_slash. by rewrite bool_decide_eq_false_2.
Qed.

Lemma forallb_rev {A} (p : A -> bool) (s : list A) :
  forallb p (rev s) = forallb p s.
Proof.
  induction s as [|a s IH]; [done|]. simpl.
  rewrite forallb_app, IH. simpl. rewrite andb_true_r. apply andb_comm.
Qed.

Lemma dirname_no_slash f : chr_slash ∉ f -> dirname f = [].
Proof.
  intros Hf. unfold dirname.
  rewrite drop_while_all; [done|].
  rewrite forallb_rev. by apply forallb_not_slash.
Qed.

Lemma dirname_snoc J a f :
  a <> chr_slash -> chr_slash ∉ f ->
  dirname ((J ++ [a]) ++ chr_slash :: f) = J ++ [a].
Proof.
  intros Ha Hf. unfold dirname.
  rewrite rev_app_distr. simpl. rewrite <- app_assoc. simpl.
  rewrite drop_while_app_stop;
    [|rewrite forallb_rev; by apply forallb_not_slash|done].
  rewrite rev_involutive, forallb_rev. simpl.
  rewrite forallb_rev, forallb_app. simpl.
  unfold is_slash at 2. rewrite (bool_decide_eq_false_2 (a = chr_slash)) by done.
  simpl. rewrite andb_false_r.
  rewrite rev_app_distr. simpl. unfold is_slash.
  rewrite (bool_decide_eq_false_2 (a = chr_slash)) by done.
  simpl. by rewrite rev_involutive.
Qed.

Lemma join_with_ends c ws :
  ws <> [] -> Forall (fun w => w <> [] /\ c ∉ w) ws ->
  exists J a, join_with c ws = J ++ [a] /\ a <> c.
Proof.
  intros Hne HF. destruct ws as [|w ws _] using rev_ind; [done|].
  apply Forall_app in HF as [HF Hw]. apply Forall_singleton in Hw as [Hw Hc].
  destruct w as [|b w _] using rev_ind; [done|].
  apply not_elem_of_app in Hc as [_ Hc]. apply not_elem_of_cons in Hc as [Hc _].
  destruct (decide (ws = [])) as [->|Hws].
  - exists w, b. simpl. by rewrite app_nil_r.
  - rewrite join_with_snoc by done. exists (join_with c ws ++ c :: w), b.
    split; [|done]. by rewrite <- app_assoc.
Qed.

Lemma plain_no_slash c : plain c -> c <> [] /\ chr_slash ∉ c.
Proof. by intros (? & ? & ? & ? & ?). Qed.

(** The directory part of a path name with plain components. *)
Lemma dirname_join cs f :
  cs <> [] -> Forall plain cs -> plain f ->
  dirname (join_with chr_slash (cs ++ [f])) = join_with chr_slash cs.
Proof.
  intros Hne HF Hf. rewrite join_with_snoc by done.
  destruct (join_with_ends chr_slash cs Hne) as (J & a & -> & Ha).
  { eapply Forall_impl; [done|]. apply plain_no_slash. }
  apply dirname_snoc; [done|]. by apply plain_no_slash.
Qed.

(** ** Walking the tree *)

Lemma node_at_snoc fs p c : node_at fs (p ++ [c]) = fs !! (p ++ [c]).
Proof. by destruct p. Qed.

Lemma node_at_ne fs p : p <> [] -> node_at fs p = fs !! p.
Proof. by destruct p. Qed.

Lemma step_plain cur c : plain c -> step cur c = cur ++ [c].
Proof.
  intros (H1 & H2 & H3 & _). unfold step.
  rewrite decide_False by (by intros [?|?]). by rewrite decide_False.
Qed.

Lemma elem_of_dir_chain cur cs p :
  p ∈ dir_chain cur cs <-> exists a b, cs = a ++ b /\ a <> [] /\ p = cur ++ a.
Proof.
  revert cur. induction cs as [|c cs IH]; intros cur; simpl.
  - split; [by intros ?%elem_of_nil|].
    intros (a & b & H & Ha & _). by destruct a.
  - rewrite elem_of_cons, IH. split.
    + intros [->|(a & b & -> & Ha & ->)].
      * by exists [c], cs.
      * exists (c :: a), b. by rewrite <- app_assoc.
    + intros (a & b & H & Ha & ->). destruct a as [|c' a]; [done|].
      injection H as <- ->. destruct a as [|c'' a]; [by left|].
      right. exists (c'' :: a), b. by rewrite <- app_assoc.
Qed.

Lemma dir_chain_snoc cur cs c :
  dir_chain cur (cs ++ [c]) = dir_chain cur cs ++ [cur ++ cs ++ [c]].
Proof.
  revert cur. induction cs as [|c' cs IH]; intros cur; simpl; [done|].
  by rewrite IH, <- app_assoc.
Qed.

Lemma walk_plain_inr fs cur cs q :
  Forall plain cs -> walk fs cur cs = inr q -> q = cur ++ cs.
Proof.
  intros HF. revert cur. induction HF as [|c cs Hc _ IH]; intros cur; simpl.
  - intros [= <-]. by rewrite app_nil_r.
  - destruct (node_at fs cur) as [[|]|]; [done| |done].
    rewrite step_plain by done. intros ->%IH. by rewrite <- app_assoc.
Qed.

Lemma walk_plain fs cur cs :
  Forall plain cs -> cs <> [] -> node_at fs cur = Some Dir ->
  Forall (fun p => node_at fs p = Some Dir) (dir_chain cur (removelast cs)) ->
  walk fs cur cs = inr (cur ++ cs).
Proof.
  intros HF. revert cur. induction HF as [|c cs Hc HF IH]; intros cur Hne Hcur Hch;
    [done|].
  cbn [walk]. rewrite Hcur, step_plain by done.
  destruct cs as [|c' cs]; [done|].
  change (removelast (c :: c' :: cs)) with (c :: removelast (c' :: cs)) in Hch.
  simpl in Hch. apply Forall_cons in Hch as [Hq Hch].
  rewrite IH by done. by rewrite <- app_assoc.
Qed.

Lemma wf_ancestors fs p q :
  fs_wf fs -> is_Some (node_at fs (p ++ q)) -> q <> [] ->
  node_at fs p = Some Dir.
Proof.
  intros [_ Hwf]. induction q as [|c q IH] using rev_ind; [done|].
  intros Hs _. rewrite app_assoc, node_at_snoc in Hs.
  apply Hwf in Hs as [_ Hd]. destruct (decide (q = [])) as [->|Hq].
  - by rewrite app_nil_r in Hd.
  - apply IH; [|done]. by rewrite Hd.
Qed.

Lemma wf_chain_dirs fs cur cs :
  fs_wf fs -> is_Some (node_at fs (cur ++ cs)) ->
  Forall (fun p => node_at fs p = Some Dir) (dir_chain cur (removelast cs)).
Proof.
  intros Hwf Hs. apply Forall_forall. intros p (a & b & Hr & Ha & ->)%elem_of_dir_chain.
  destruct cs as [|c cs _] using rev_ind; [by destruct a|].
  rewrite removelast_last in Hr. subst cs.
  rewrite <- !app_assoc, app_assoc in Hs.
  eapply wf_ancestors; [done..|]. by destruct b.
Qed.

Lemma lookup_add_dirs fs ps p :
  add_dirs fs ps !! p = if decide (p ∈ ps) then Some Dir else fs !! p.
Proof.
  revert fs. induction ps as [|q ps IH]; intros fs.
  - rewrite decide_False; [done|]. apply not_elem_of_nil.
  - unfold add_dirs in *. cbn [foldl]. rewrite IH.
    destruct (decide (p ∈ ps)) as [Hin|Hn].
    + rewrite decide_True; [done|]. by right.
    + destruct (decide (p = q)) as [->|Hne].
      * rewrite lookup_insert_eq, decide_True; [done|]. by left.
      * rewrite lookup_insert_ne by done. rewrite decide_False; [done|].
        by intros [?|?]%elem_of_cons.
Qed.

Lemma node_at_add_dirs fs ps p :
  node_at (add_dirs fs ps) p = if decide (p ∈ ps) then Some Dir else node_at fs p.
Proof.
  destruct p as [|c p]; [by destruct (decide _)|]. apply lookup_add_dirs.
Qed.

Lemma add_dirs_id fs ps :
  Forall (fun p => fs !! p = Some Dir) ps -> add_dirs fs ps = fs.
Proof.
  intros HF. apply map_eq. intros p. rewrite lookup_add_dirs.
  destruct (decide (p ∈ ps)) as [Hin|]; [|done].
  by rewrite (proj1 (Forall_forall _ _) HF p Hin).
Qed.

Lemma dir_chain_ne cur cs : [] ∉ dir_chain cur cs.
Proof. intros (a & b & _ & Ha & H)%elem_of_dir_chain. destruct cur, a; done. Qed.

Lemma mkdir_p_plain fs cur fresh cs :
  Forall plain cs -> cs <> [] -> node_at fs cur = Some Dir ->
  Forall (may_be_dir fs) (dir_chain cur cs) ->
  node_at fs (cur ++ cs) = None ->
  mkdir_p fs cur fresh cs = (add_dirs fs (dir_chain cur cs), None).
Proof.
  intros HF. revert fs cur fresh.
  induction HF as [|c cs Hc HF IH]; intros fs cur fresh Hne Hcur Hch Hfin; [done|].
  cbn [mkdir_p dir_chain].
  rewrite decide_False by (by destruct Hc as (_ & _ & _ & _ & ?)).
  rewrite Hcur, step_plain by done.
  apply Forall_cons in Hch as [Hq Hch]. unfold add_dirs. cbn [foldl].
  destruct (node_at fs (cur ++ [c])) as [n|] eqn:Hn.
  - destruct Hq as [Hq|Hq]; [congruence|].
    destruct cs as [|c' cs]; [congruence|].
    rewrite (insert_id fs) by (by rewrite <- node_at_snoc).
    apply IH; [done|done|done|by rewrite <- app_assoc].
  - rewrite node_at_snoc in Hn. destruct cs as [|c' cs]; [done|].
    apply IH; [done|by rewrite node_at_snoc, lookup_insert_eq| |].
    + apply Forall_forall. intros p Hp.
      pose proof (proj1 (Forall_forall _ _) Hch p Hp) as Hm.
      apply elem_of_dir_chain in Hp as (a & b & _ & Ha & ->).
      unfold may_be_dir in *. rewrite node_at_ne in * by (by destruct cur).
      rewrite lookup_insert_ne; [done|].
      intros H. apply (f_equal length) in H. rewrite !length_app in H.
      destruct a; simpl in *; [done|lia].
    + rewrite <- app_assoc. rewrite node_at_ne in * by (by destruct cur).
      rewrite lookup_insert_ne; [done|].
      intros H. apply (f_equal length) in H. rewrite !length_app in H.
      simpl in H. lia.
Qed.

(** ** Path names with plain components *)

Lemma elem_of_join_with c a ws :
  a ∈ join_with c ws -> a = c \/ exists w, w ∈ ws /\ a ∈ w.
Proof.
  destruct ws as [|w ws]; [by intros ?%elem_of_nil|]. simpl.
  intros [H|H]%elem_of_app.
  - right. exists w. split; [by left|done].
  - induction ws as [|w' ws IH]; [by apply elem_of_nil in H|].
    simpl in H. apply elem_of_cons in H as [->|H]; [by left|].
    apply elem_of_app in H as [H|H].
    + right. exists w'. split; [by right; left|done].
    + destruct (IH H) as [?|(w'' & Hin & ?)]; [by left|].
      right. exists w''. split; [|done].
      apply elem_of_cons in Hin as [->|Hin]; [by left|]. by right; right.
Qed.

Lemma join_plain cs :
  cs <> [] -> Forall plain cs ->
  join_with chr_slash cs <> []
  /\ (chr_nul ∉ join_with chr_slash cs)
  /\ starts_with [chr_slash] (join_with chr_slash cs) = false
  /\ split_on chr_slash (join_with chr_slash cs) = cs.
Proof.
  intros Hne HF. split_and!.
  - destruct HF as [|c cs (Hc & _) _]; [done|]. simpl. by destruct c.
  - intros [?|(w & Hin & Hw)]%elem_of_join_with; [done|].
    by destruct (proj1 (Forall_forall _ _) HF w Hin) as (_ & _ & _ & _ & ?).
  - destruct HF as [|c cs (Hc & _ & _ & Hs & _) _]; [done|]. simpl.
    destruct c as [|a c]; [done|]. simpl.
    apply not_elem_of_cons in Hs as [Hs _].
    by rewrite decide_False.
  - apply split_on_join; [done|]. eapply Forall_impl; [done|].
    by intros c (_ & _ & _ & ? & _).
Qed.

Lemma resolve_join st cs :
  cs <> [] -> Forall plain cs ->
  resolve st (join_with chr_slash cs) = walk (nodes st) (cwd st) cs.
Proof.
  intros Hne HF. destruct (join_plain cs Hne HF) as (H1 & H2 & H3 & H4).
  unfold resolve. by rewrite !decide_False, H3, H4.
Qed.

Lemma strip_trailing_empty_id cs :
  Forall (fun c => c <> []) cs -> strip_trailing_empty cs = cs.
Proof.
  induction 1 as [|c cs Hc _ IH]; [done|]. simpl. rewrite IH.
  destruct cs; [by rewrite decide_False|done].
Qed.

Lemma set_nodes_id st : set_nodes (nodes st) st = st.
Proof. by destruct st. Qed.

(** [os.path.exists] of a path name with plain components, in a
    well-formed tree, tells whether a node stands there. *)
Lemma os_path_exists_join st cs :
  fs_wf (nodes st) -> node_at (nodes st) (cwd st) = Some Dir ->
  cs <> [] -> Forall plain cs ->
  os_path_exists (join_with chr_slash cs) st
  = Ok (bool_decide (is_Some (node_at (nodes st) (cwd st ++ cs)))) st.
Proof.
  intros Hwf Hcwd Hne HF. unfold os_path_exists. rewrite resolve_join by done.
  destruct (decide (is_Some (node_at (nodes st) (cwd st ++ cs)))) as [Hs|Hs].
  - rewrite walk_plain; [done..|]. by apply wf_chain_dirs.
  - rewrite (bool_decide_eq_false_2 _ Hs).
    destruct (walk _ _ _) as [e|q] eqn:Hw; [done|].
    apply walk_plain_inr in Hw as ->; [|done]. by rewrite bool_decide_eq_false_2.
Qed.

Lemma os_makedirs_join st cs :
  node_at (nodes st) (cwd st) = Some Dir ->
  cs <> [] -> Forall plain cs ->
  Forall (may_be_dir (nodes st)) (dir_chain (cwd st) cs) ->
  node_at (nodes st) (cwd st ++ cs) = None ->
  os_makedirs (join_with chr_slash cs) st
  = Ok tt (set_nodes (add_dirs (nodes st) (dir_chain (cwd st) cs)) st).
Proof.
  intros Hcwd Hne HF Hch Hfin.
  destruct (join_plain cs Hne HF) as (H1 & H2 & H3 & H4).
  unfold os_makedirs. rewrite !decide_False, H3, H4 by done.
  rewrite strip_trailing_empty_id
    by (eapply Forall_impl; [done|]; by intros c (? & _)).
  destruct cs as [|c cs]; [done|].
  by rewrite mkdir_p_plain.
Qed.

(** Lines 56-57, 87-88, 94-95, 109-110: the directory is made unless it is
    there.  Either way the directories of the chain are there afterwards. *)
Lemma ensure_dirs st cs :
  fs_wf (nodes st) -> node_at (nodes st) (cwd st) = Some Dir ->
  cs <> [] -> Forall plain cs ->
  Forall (may_be_dir (nodes st)) (dir_chain (cwd st) cs) ->
  (present ← os_path_exists (join_with chr_slash cs);
   if negb present then os_makedirs (join_with chr_slash cs) else ret tt) st
  = Ok tt (set_nodes (add_dirs (nodes st) (dir_chain (cwd st) cs)) st).
Proof.
  intros Hwf Hcwd Hne HF Hch. unfold mbind, M_bind, bind.
  rewrite os_path_exists_join by done.
  destruct (decide (is_Some (node_at (nodes st) (cwd st ++ cs)))) as [Hs|Hs].
  - rewrite (bool_decide_eq_true_2 _ Hs). simpl. unfold ret.
    rewrite add_dirs_id, set_nodes_id; [done|].
    assert (Forall (fun p => node_at (nodes st) p = Some Dir)
              (dir_chain (cwd st) cs)) as Hd.
    { destruct cs as [|c cs _] using rev_ind; [done|].
      rewrite dir_chain_snoc. apply Forall_app. split.
      - rewrite <- (removelast_last cs c) at 1. by apply wf_chain_dirs.
      - apply Forall_singleton.
        rewrite dir_chain_snoc in Hch.
        apply Forall_app in Hch as [_ Hl']. apply Forall_inv in Hl'.
        destruct Hl' as [Hl'|Hl']; [|done]. rewrite Hl' in Hs. by destruct Hs as [? [=]]. }
    apply Forall_forall. intros p Hp.
    rewrite <- node_at_ne; [by apply (proj1 (Forall_forall _ _) Hd)|].
    intros ->. by apply dir_chain_ne in Hp.
  - rewrite (bool_decide_eq_false_2 _ Hs). simpl.
    apply os_makedirs_join; [done..|].
    destruct (node_at (nodes st) (cwd st ++ cs)); [|done]. destruct Hs. eauto.
Qed.

(** ** Sequencing *)

Lemma bind_Ok {A B} (m : M A) (k : A -> M B) st a st' :
  m st = Ok a st' -> (x ← m; k x) st = k a st'.
Proof. unfold mbind, M_bind, bind. by intros ->. Qed.

Lemma bind_Raise {A B} (m : M A) (k : A -> M B) st e st' :
  m st = Raise e st' -> (x ← m; k x) st = Raise e st'.
Proof. unfold mbind, M_bind, bind. by intros ->. Qed.

Lemma ensure_dirs_then {B} (k : M B) st cs :
  fs_wf (nodes st) -> node_at (nodes st) (cwd st) = Some Dir ->
  cs <> [] -> Forall plain cs ->
  Forall (may_be_dir (nodes st)) (dir_chain (cwd st) cs) ->
  (present ← os_path_exists (join_with chr_slash cs);
   (if negb present then os_makedirs (join_with chr_slash cs) else ret tt);;
   k) st
  = k (set_nodes (add_dirs (nodes st) (dir_chain (cwd st) cs)) st).
Proof.
  intros Hwf Hcwd Hne HF Hch.
  pose proof (ensure_dirs st cs Hwf Hcwd Hne HF Hch) as H.
  unfold mbind, M_bind, bind in *.
  destruct (os_path_exists _ st) as [present st1|]; [|done].
  by rewrite H.
Qed.

(** ** Changing directory and writing files *)

Lemma dir_chain_removelast (P : path -> Prop) cur cs :
  Forall P (dir_chain cur cs) -> Forall P (dir_chain cur (removelast cs)).
Proof.
  destruct cs as [|c cs _] using rev_ind; [done|].
  rewrite removelast_last, dir_chain_snoc. by intros [? _]%Forall_app.
Qed.

Lemma dir_chain_last cur cs : cs <> [] -> cur ++ cs ∈ dir_chain cur cs.
Proof. intros Hne. apply elem_of_dir_chain. exists cs, []. by rewrite app_nil_r. Qed.

Lemma os_chdir_join st cs :
  cs <> [] -> Forall plain cs -> node_at (nodes st) (cwd st) = Some Dir ->
  Forall (fun p => node_at (nodes st) p = Some Dir) (dir_chain (cwd st) cs) ->
  os_chdir (join_with chr_slash cs) st = Ok tt (set_cwd (cwd st ++ cs) st).
Proof.
  intros Hne HF Hcwd Hch. unfold os_chdir.
  rewrite resolve_join, walk_plain; [|done..|by apply dir_chain_removelast|done|done].
  by rewrite (proj1 (Forall_forall _ _) Hch _ (dir_chain_last _ _ Hne)).
Qed.

Lemma parent_snoc (p : path) c : parent (p ++ [c]) = p.
Proof. apply removelast_last. Qed.

Lemma trailing_slash_join cs :
  cs <> [] -> Forall plain cs -> trailing_slash (join_with chr_slash cs) = false.
Proof.
  intros Hne HF. destruct (join_with_ends chr_slash cs Hne) as (J & a & HJ & Ha).
  { eapply Forall_impl; [done|]. intros c Hc. by apply plain_no_slash. }
  unfold trailing_slash. rewrite HJ, last_snoc. by apply bool_decide_eq_false_2.
Qed.

Lemma open_w_writelines_join st cs lines :
  cs <> [] -> Forall plain cs -> node_at (nodes st) (cwd st) = Some Dir ->
  Forall (fun p => node_at (nodes st) p = Some Dir)
         (dir_chain (cwd st) (removelast cs)) ->
  may_be_file (nodes st) (cwd st ++ cs) ->
  open_w_writelines (join_with chr_slash cs) lines st
  = Ok tt (set_nodes (<[cwd st ++ cs := File (concat lines)]> (nodes st)) st).
Proof.
  intros Hne HF Hcwd Hch Hfile. unfold open_w_writelines.
  rewrite decide_False
    by (intros (_ & _ & H); by rewrite trailing_slash_join in H).
  rewrite resolve_join, walk_plain by done.
  rewrite (node_at_ne _ (cwd st ++ cs)) by (by destruct (cwd st), cs).
  destruct Hfile as [->|[content ->]]; [|done].
  destruct cs as [|c cs _] using rev_ind; [done|].
  rewrite removelast_last in Hch. rewrite app_assoc, parent_snoc.
  destruct (decide (cs = [])) as [->|Hcs].
  - by rewrite app_nil_r, Hcwd.
  - by rewrite (proj1 (Forall_forall _ _) Hch _ (dir_chain_last _ _ Hcs)).
Qed.

(** ** The tree stays well formed *)

Lemma fs_wf_insert fs d c n :
  fs_wf fs -> plain c -> node_at fs d = Some Dir ->
  n = Dir \/ may_be_file fs (d ++ [c]) ->
  fs_wf (<[d ++ [c] := n]> fs).
Proof.
  intros [Hroot Hwf] Hc Hd Hn. split.
  - rewrite lookup_insert_ne; [done|]. by destruct d.
  - intros p c' Hs. destruct (decide (d ++ [c] = p ++ [c'])) as [Heq|Hne].
    + apply app_inj_tail in Heq as [<- <-]. split; [done|].
      destruct d as [|c0 d]; [done|]. simpl.
      rewrite lookup_insert_ne; [done|].
      intros H. apply (f_equal length) in H. simpl in H.
      rewrite length_app in H. simpl in H. lia.
    + rewrite lookup_insert_ne in Hs by done.
      destruct (Hwf _ _ Hs) as [Hc' Hp]. split; [done|].
      destruct p as [|c0 p]; [done|]. simpl in *.
      destruct (decide (d ++ [c] = c0 :: p)) as [Heq|Hne'].
      * rewrite Heq, lookup_insert_eq. rewrite Heq in Hn.
        destruct Hn as [->|[Hn|[? Hn]]]; [done|congruence..].
      * by rewrite lookup_insert_ne.
Qed.

Lemma fs_wf_add_dirs fs cur cs :
  fs_wf fs -> node_at fs cur = Some Dir -> Forall plain cs ->
  fs_wf (add_dirs fs (dir_chain cur cs)).
Proof.
  intros Hwf Hcur HF. revert fs cur Hwf Hcur.
  induction HF as [|c cs Hc _ IH]; intros fs cur Hwf Hcur; [done|].
  simpl. unfold add_dirs. cbn [foldl]. apply IH.
  - apply fs_wf_insert; auto.
  - by rewrite node_at_snoc, lookup_insert_eq.
Qed.

(** ** Entering the staging directory *)

Lemma enter_nodes st root :
  nodes (enter st root) = add_dirs (nodes st) (dir_chain (cwd st) root).
Proof. done. Qed.

Lemma enter_cwd st root : cwd (enter st root) = cwd st ++ root.
Proof. done. Qed.

Lemma node_at_app_ne fs (p q : path) : q <> [] -> node_at fs (p ++ q) = fs !! (p ++ q).
Proof. intros. apply node_at_ne. by destruct p, q. Qed.

Lemma add_dirs_chain_dirs fs cur cs :
  Forall (fun p => node_at (add_dirs fs (dir_chain cur cs)) p = Some Dir)
         (dir_chain cur cs).
Proof.
  apply Forall_forall. intros p Hp. by rewrite node_at_add_dirs, decide_True.
Qed.

Lemma add_dirs_keeps_dir fs ps p :
  node_at fs p = Some Dir -> node_at (add_dirs fs ps) p = Some Dir.
Proof. intros H. rewrite node_at_add_dirs. by destruct (decide _). Qed.

Lemma enter_facts st root :
  stage_ready st root ->
  fs_wf (nodes (enter st root))
  /\ node_at (nodes (enter st root)) (cwd (enter st root)) = Some Dir.
Proof.
  intros (Hwf & Hcwd & Hne & HF & Hch). split.
  - by apply fs_wf_add_dirs.
  - rewrite enter_nodes, enter_cwd, node_at_add_dirs, decide_True; [done|].
    by apply dir_chain_last.
Qed.

(** Lines 56-60 and 109-113. *)
Lemma stage_root_then `{W : World} {B} (k : M B) st root :
  stage_ready st root ->
  (present ← os_path_exists (join_with chr_slash root);
   (if negb present then os_makedirs (join_with chr_slash root) else ret tt);;
   os_chdir (join_with chr_slash root);;
   k) st
  = k (enter st root).
Proof.
  intros (Hwf & Hcwd & Hne & HF & Hch).
  rewrite ensure_dirs_then by done.
  erewrite bind_Ok; [done|].
  rewrite os_chdir_join; [done..| |].
  - by apply add_dirs_keeps_dir.
  - apply add_dirs_chain_dirs.
Qed.

Lemma join_with_singleton c w : join_with c [w] = w.
Proof. simpl. apply app_nil_r. Qed.

(** A file written in the directory just entered. *)
Lemma write_entered st root name lines :
  stage_ready st root -> plain name ->
  may_be_file (nodes st) (cwd st ++ root ++ [name]) ->
  open_w_writelines name lines (enter st root)
  = Ok tt (staged st root name (concat lines)).
Proof.
  intros Hr Hn Hfile. pose proof Hr as (Hwf & Hcwd & Hne & HF & Hch).
  destruct (enter_facts st root Hr) as [Hwf' Hcwd'].
  rewrite <- (join_with_singleton chr_slash name) at 1.
  rewrite open_w_writelines_join; [|done|by constructor|done|done|].
  - unfold staged. by rewrite enter_cwd, <- app_assoc.
  - rewrite enter_cwd, enter_nodes, <- app_assoc.
    unfold may_be_file. rewrite lookup_add_dirs, decide_False; [done|].
    intros (a & b & -> & Ha & H)%elem_of_dir_chain.
    rewrite <- !app_assoc in H. apply app_inv_head in H.
    apply (f_equal length) in H. rewrite !length_app in H. simpl in H. lia.
Qed.

Lemma staged_facts st root name content :
  stage_ready st root -> plain name ->
  may_be_file (nodes st) (cwd st ++ root ++ [name]) ->
  fs_wf (nodes (staged st root name content))
  /\ cwd (staged st root name content) = cwd st ++ root
  /\ node_at (nodes (staged st root name content)) (cwd st ++ root) = Some Dir
  /\ nodes (staged st root name content) !! (cwd st ++ root ++ [name])
     = Some (File content).
Proof.
  intros Hr Hn Hfile. pose proof Hr as (Hwf & Hcwd & Hne & HF & Hch).
  destruct (enter_facts st root Hr) as [Hwf' Hcwd'].
  assert (forall n, node_at (<[cwd st ++ root ++ [name] := n]> (nodes (enter st root)))
                      (cwd st ++ root) = Some Dir) as Hd.
  { intros n. rewrite node_at_app_ne by done. rewrite lookup_insert_ne.
    - by rewrite <- node_at_app_ne.
    - intros H. apply app_inv_head in H. apply (f_equal length) in H.
      rewrite length_app in H. simpl in H. lia. }
  split_and!; [|done|apply Hd|apply lookup_insert_eq].
  unfold staged. simpl. rewrite app_assoc. apply fs_wf_insert; [done..|].
  right. rewrite <- app_assoc. unfold may_be_file.
  rewrite lookup_add_dirs, decide_False; [done|].
  intros (a & b & -> & Ha & H)%elem_of_dir_chain.
  rewrite <- !app_assoc in H. apply app_inv_head in H.
  apply (f_equal length) in H. rewrite !length_app in H. simpl in H. lia.
Qed.

Lemma open_r_lines_name st name content :
  plain name -> node_at (nodes st) (cwd st) = Some Dir ->
  nodes st !! (cwd st ++ [name]) = Some (File content) ->
  open_r_lines name st = Ok (read_lines content) st.
Proof.
  intros Hn Hcwd Hf. unfold open_r_lines.
  rewrite <- (join_with_singleton chr_slash name) at 1.
  rewrite resolve_join by (done || by constructor).
  rewrite walk_plain by (done || by constructor).
  by rewrite node_at_snoc, Hf.
Qed.

(** ** get_contract_code on submitted code *)

(** Lines 106-116 and 120: the file is staged, and its lines are read back. *)
Lemma get_contract_code_raw `{W : World} st blockchain contract_address code :
  code <> [] -> stage_ready st raw_root ->
  may_be_file (nodes st) (cwd st ++ raw_root ++ [lit "contract.sol"]) ->
  get_contract_code blockchain contract_address (Some code) st
  = (solidity_version ← lift (scan_pragma (read_lines code) []);
     switch_global_version solidity_version;;
     ret (Some (lit "contract.sol")))
      (staged st raw_root (lit "contract.sol") code).
Proof.
  intros Hcode Hr Hfile. unfold get_contract_code.
  assert (falsy (Some code) = false) as -> by (by destruct code).
  cbn [fstr].
  change (lit "contracts/no-bc/contract") with (join_with chr_slash raw_root).
  rewrite stage_root_then by done.
  assert (plain (lit "contract.sol")) as Hp by solve_plain.
  erewrite bind_Ok; [|by apply write_entered].
  rewrite concat_chars.
  destruct (staged_facts st raw_root (lit "contract.sol") code Hr Hp Hfile)
    as (_ & Hc & Hd & Hf).
  erewrite bind_Ok; [done|].
  apply open_r_lines_name; [done|by rewrite Hc|by rewrite Hc, <- app_assoc].
Qed.

Lemma scan_pragma_first lines i line v0 :
  first_pragma_line lines i line ->
  scan_pragma lines v0
  = match re_search rx_version line with
    | Some m => inr (group0 m)
    | None => inl AttributeError
    end.
Proof.
  revert i. induction lines as [|l lines IH]; intros i (Hi & Hin & Hmin).
  - by rewrite lookup_nil in Hi.
  - destruct i as [|i]; simpl in *.
    + injection Hi as ->. by rewrite Hin.
    + rewrite (Hmin 0 l) by (done || lia). apply (IH i). split_and!; [done..|].
      intros j l' Hj Hl'. apply (Hmin (S j)); [lia|done].
Qed.

Lemma scan_pragma_none lines v0 :
  Forall (fun l => str_in (lit "pragma solidity") l = false) lines ->
  scan_pragma lines v0 = inr v0.
Proof. induction 1 as [|l lines Hl _ IH]; [done|]. simpl. by rewrite Hl. Qed.

Lemma activates_switch `{W : World} st v :
  activates ((switch_global_version v;; ret (Some (lit "contract.sol"))) st) v.
Proof.
  unfold activates, mbind, M_bind, bind, switch_global_version.
  destruct (solc_known v) eqn:Hk; simpl.
  - split; [by rewrite last_snoc|]. eexists. split; [done|]. done.
  - split; [by rewrite last_snoc|]. by eexists.
Qed.

(** ** The lines of a text *)

Lemma read_lines_from_plain cur line post :
  chr_lf ∉ line -> chr_cr ∉ line ->
  read_lines_from cur (line ++ post) = read_lines_from (rev line ++ cur) post.
Proof.
  revert cur. induction line as [|a line IH]; intros cur Hlf Hcr; [done|].
  apply not_elem_of_cons in Hlf as [Ha Hlf].
  apply not_elem_of_cons in Hcr as [Ha' Hcr].
  cbn [app read_lines_from]. rewrite !decide_False by (by intros ->).
  rewrite IH by done. cbn [rev]. by rewrite <- app_assoc.
Qed.

(** After the end of a line the reading starts afresh. *)
Lemma read_lines_from_newline cur pre a rest :
  is_newline a -> head rest <> Some chr_lf ->
  read_lines_from cur (pre ++ a :: rest)
  = read_lines_from cur (pre ++ [a]) ++ read_lines_from [] rest.
Proof.
  intros Ha Hrest. remember (length pre) as n eqn:Hn.
  revert pre cur Hn. induction n as [n IH] using lt_wf_ind. intros pre cur Hn.
  destruct pre as [|x pre].
  - cbn [app read_lines_from]. destruct Ha as [-> | ->].
    + by rewrite !decide_True.
    + rewrite !decide_False by done. rewrite !decide_True by done.
      destruct rest as [|b rest]; [done|].
      rewrite decide_False; [done|]. intros ->. by destruct Hrest.
  - simpl in Hn. cbn [app read_lines_from].
    destruct (decide (x = chr_lf)); [by rewrite (IH (length pre)) by (lia || done)|].
    destruct (decide (x = chr_cr)); [|by rewrite (IH (length pre)) by (lia || done)].
    destruct pre as [|y pre].
    + cbn [app]. destruct (decide (a = chr_lf)) as [->|Hne]; [done|].
      by rewrite (IH 0 ltac:(lia) []).
    + cbn [app]. simpl in Hn. destruct (decide (y = chr_lf)) as [->|Hne].
      * by rewrite (IH (length pre)) by (lia || done).
      * by rewrite (IH (S (length pre)) ltac:(lia) (y :: pre)).
Qed.

(** A line read is a piece of the text, with a newline after it or not. *)
Lemma read_lines_from_piece s cur l :
  l ∈ read_lines_from cur s ->
  exists a seg b, rev cur ++ s = a ++ seg ++ b /\ (l = seg \/ l = seg ++ [chr_lf]).
Proof.
  remember (length s) as n eqn:Hn.
  revert s cur Hn. induction n as [n IH] using lt_wf_ind. intros s cur Hn Hl.
  assert (forall t u, length t < n -> l ∈ read_lines_from [] t ->
                      exists a seg b, u ++ t = a ++ seg ++ b
                                      /\ (l = seg \/ l = seg ++ [chr_lf])) as Hlater.
  { intros t u Ht Hin. destruct (IH _ Ht t [] eq_refl Hin) as (a & seg & b & Heq & Hor).
    exists (u ++ a), seg, b. cbn [rev app] in Heq. by rewrite Heq, <- app_assoc. }
  assert (forall t, l = rev (chr_lf :: cur) ->
                    exists a seg b, rev cur ++ t = a ++ seg ++ b
                                    /\ (l = seg \/ l = seg ++ [chr_lf])) as Hhead.
  { intros t ->. exists [], (rev cur), t. split; [done|]. by right. }
  destruct s as [|x s]; cbn [read_lines_from] in Hl.
  - destruct cur as [|c cur]; [by apply elem_of_nil in Hl|].
    apply list_elem_of_singleton in Hl as ->.
    exists [], (rev (c :: cur)), []. split; [by rewrite !app_nil_r|by left].
  - simpl in Hn. destruct (decide (x = chr_lf)) as [->|Hlf].
    + apply elem_of_cons in Hl as [Hl|Hl]; [by apply Hhead|].
      destruct (Hlater s (rev cur ++ [chr_lf]) ltac:(lia) Hl) as (a & seg & b & Heq & Hor).
      exists a, seg, b. split; [|done]. by rewrite <- Heq, <- app_assoc.
    + destruct (decide (x = chr_cr)) as [->|Hcr].
      * destruct s as [|y s].
        -- apply list_elem_of_singleton in Hl. by apply Hhead.
        -- simpl in Hn. destruct (decide (y = chr_lf)) as [->|Hy].
           ++ apply elem_of_cons in Hl as [Hl|Hl]; [by apply Hhead|].
              destruct (Hlater s (rev cur ++ [chr_cr; chr_lf]) ltac:(lia) Hl)
                as (a & seg & b & Heq & Hor).
              exists a, seg, b. split; [|done]. by rewrite <- Heq, <- app_assoc.
           ++ apply elem_of_cons in Hl as [Hl|Hl]; [by apply Hhead|].
              destruct (Hlater (y :: s) (rev cur ++ [chr_cr]) ltac:(simpl; lia) Hl)
                as (a & seg & b & Heq & Hor).
              exists a, seg, b. split; [|done]. by rewrite <- Heq, <- app_assoc.
      * destruct (IH (length s) ltac:(lia) s (x :: cur) eq_refl Hl)
          as (a & seg & b & Heq & Hor).
        exists a, seg, b. split; [|done]. cbn [rev] in Heq.
        by rewrite <- Heq, <- app_assoc.
Qed.

Lemma str_in_app x a s b : str_in x s = true -> str_in x (a ++ s ++ b) = true.
Proof.
  intros (p & q & ->)%str_in_spec. apply str_in_spec.
  exists (a ++ p), (q ++ b). by rewrite <- !app_assoc.
Qed.

(** What has no newline in it and is found in a line is found before the
    newline of the line. *)
Lemma str_in_before_lf x seg :
  chr_lf ∉ x -> str_in x (seg ++ [chr_lf]) = true -> str_in x seg = true.
Proof.
  intros Hx (p & q & Heq)%str_in_spec. apply str_in_spec.
  destruct q as [|c q _] using rev_ind.
  - rewrite app_nil_r in Heq. destruct x as [|c x _] using rev_ind.
    + exists seg, []. by rewrite !app_nil_r.
    + rewrite app_assoc in Heq. apply app_inj_tail in Heq as [_ <-].
      destruct Hx. apply elem_of_app. right. by left.
  - rewrite !app_assoc in Heq. apply app_inj_tail in Heq as [-> _].
    exists p, q. by rewrite <- app_assoc.
Qed.

(** A text without [x] has no line with [x], for an [x] without newline. *)
Lemma read_lines_without x s :
  chr_lf ∉ x -> str_in x s = false ->
  Forall (fun l => str_in x l = false) (read_lines s).
Proof.
  intros Hx Hs. apply Forall_forall. intros l Hl.
  destruct (read_lines_from_piece s [] l Hl) as (a & seg & b & Heq & Hor).
  cbn [rev app] in Heq. destruct (str_in x l) eqn:Hin; [|done].
  assert (str_in x seg = true) as Hseg.
  { destruct Hor as [-> | ->]; [done|]. by apply str_in_before_lf. }
  by rewrite Heq, (str_in_app _ _ _ _ Hseg) in Hs.
Qed.

(** A whole line of the text is a line read, with its newline or, at the
    end of the text, without; the lines read before it are those of the text
    before it. *)
Lemma read_lines_whole_line code pre line post :
  whole_line code pre line post ->
  exists line' tail,
    read_lines code = read_lines pre ++ line' :: tail
    /\ (line' = line \/ line' = line ++ [chr_lf]).
Proof.
  intros (-> & Hne & Hlf & Hcr & Hpre & Hpost).
  assert (exists line' tail,
            read_lines_from [] (line ++ post) = line' :: tail
            /\ (line' = line \/ line' = line ++ [chr_lf]))
    as (line' & tail & Hhead & Hor).
  { rewrite read_lines_from_plain, app_nil_r by done.
    destruct Hpost as [->|(a & post' & -> & Ha)].
    - cbn [read_lines_from]. destruct (rev line) as [|c r] eqn:Hr.
      + apply (f_equal (@rev _)) in Hr. rewrite rev_involutive in Hr. done.
      + exists line, []. rewrite <- Hr, rev_involutive. split; [done|by left].
    - exists (line ++ [chr_lf]). cbn [read_lines_from rev]. rewrite rev_involutive.
      destruct Ha as [-> | ->].
      + rewrite decide_True by done. eexists. split; [done|by right].
      + rewrite decide_False by done. rewrite decide_True by done.
        destruct post' as [|b post']; [|destruct (decide (b = chr_lf))];
          eexists; (split; [done|by right]). }
  exists line', tail. split; [|done]. unfold read_lines.
  destruct Hpre as [->|(pre' & a & -> & Ha)]; [done|].
  rewrite <- app_assoc. cbn [app].
  rewrite read_lines_from_newline, Hhead; [done..|].
  destruct line as [|c line]; [done|]. simpl. intros [= ->].
  apply Hlf. by left.
Qed.

(** The first line of the text with a pragma is the first line read with
    one. *)
Lemma first_pragma_read code pre line post :
  first_pragma code pre line post ->
  exists i line',
    first_pragma_line (read_lines code) i line'
    /\ (line' = line \/ line' = line ++ [chr_lf]).
Proof.
  intros (Hw & Hpre & Hline).
  destruct (read_lines_whole_line _ _ _ _ Hw) as (line' & tail & Hread & Hor).
  assert (chr_lf ∉ lit "pragma solidity") as Hneedle by solve_literal.
  pose proof (read_lines_without _ _ Hneedle Hpre) as Hbefore.
  exists (length (read_lines pre)), line'. split; [|done]. split_and!.
  - rewrite Hread. by rewrite lookup_app_r, Nat.sub_diag by lia.
  - destruct Hor as [-> | ->]; [done|].
    apply (str_in_app _ [] _ [chr_lf]) in Hline. done.
  - intros j l Hj Hl. rewrite Hread, lookup_app_l in Hl by done.
    apply list_elem_of_lookup_2 in Hl.
    by apply (proj1 (Forall_forall _ _) Hbefore).
Qed.

(** ** Versions in a line and in the line with its newline *)

Lemma app_snoc_split {A} (l m rest : list A) x :
  l ++ [x] = m ++ rest -> x ∉ m ->
  exists rest', l = m ++ rest' /\ rest = rest' ++ [x].
Proof.
  intros Heq Hx. destruct rest as [|y rest _] using rev_ind.
  - rewrite app_nil_r in Heq. subst m. destruct Hx. apply elem_of_app. right. by left.
  - rewrite app_assoc in Heq. apply app_inj_tail in Heq as [-> ->]. by exists rest.
Qed.

Lemma digits_no_lf a : forallb is_digit a = true -> chr_lf ∉ a.
Proof.
  intros Ha Hin. apply forallb_forall with (x := chr_lf) in Ha; [done|].
  by apply list_elem_of_In.
Qed.

Lemma version3_no_lf m : version3 m -> chr_lf ∉ m.
Proof.
  intros (a & b & c & [_ Ha] & [_ Hb] & [_ Hc] & ->).
  apply digits_no_lf in Ha, Hb, Hc.
  intros [?|[?|[?|[?|?]%elem_of_cons]%elem_of_app]%elem_of_cons]%elem_of_app; done.
Qed.

Lemma version3_ne m : version3 m -> m <> [].
Proof. intros (a & b & c & [Ha _] & _ & _ & ->). by destruct a. Qed.

Lemma version_at_lf line k :
  version_at (line ++ [chr_lf]) k <-> version_at line k.
Proof.
  split; intros (m & rest & Hd & Hm).
  - assert (k <= length line) as Hk.
    { destruct (decide (k <= length line)) as [|Hgt]; [done|].
      rewrite drop_ge in Hd by (rewrite length_app; simpl; lia).
      destruct m; [by apply version3_ne in Hm|done]. }
    rewrite drop_app_le in Hd by done.
    destruct (app_snoc_split _ _ _ _ Hd (version3_no_lf _ Hm)) as (rest' & Hd' & _).
    by exists m, rest'.
  - assert (k <= length line) as Hk.
    { destruct (decide (k <= length line)) as [|Hgt]; [done|].
      rewrite drop_ge in Hd by lia.
      destruct m; [by apply version3_ne in Hm|done]. }
    exists m, (rest ++ [chr_lf]). split; [|done].
    by rewrite drop_app_le, Hd, <- app_assoc by done.
Qed.

(** The search in a line with its newline finds what stands first in the
    line. *)
Lemma re_search_version_line line line' k :
  line' = line \/ line' = line ++ [chr_lf] ->
  version_at line k -> (forall j, j < k -> ~ version_at line j) ->
  exists ws rest,
    re_search rx_version line' = Some ws /\ drop k line = group0 ws ++ rest
    /\ version3 (group0 ws) /\ no_digit_next rest.
Proof.
  intros [-> | ->] Hk Hmin; [by apply re_search_version_first|].
  destruct (re_search_version_first (line ++ [chr_lf]) k)
    as (ws & rest0 & Hs & Hd & Hv & Hn).
  { by apply version_at_lf. }
  { intros j Hj Hat. by apply (Hmin j Hj), version_at_lf. }
  assert (k <= length line) as Hle.
  { destruct Hk as (m & rest & Hd' & Hm).
    destruct (decide (k <= length line)) as [|Hgt]; [done|].
    rewrite drop_ge in Hd' by lia.
    destruct m; [by apply version3_ne in Hm|done]. }
  rewrite drop_app_le in Hd by done.
  destruct (app_snoc_split _ _ _ _ Hd (version3_no_lf _ Hv)) as (rest & Hd' & ->).
  exists ws, rest. split_and!; [done..|]. by destruct rest.
Qed.

(** C6. For submitted code (a non-empty [code]) staged from a state where
    staging can start. Take the first line of the code, as a text, that
    contains [pragma solidity]: a whole line, between ends of lines or the
    ends of the text, with no [pragma solidity] anywhere before it. If that
    line is [pragma solidity ^0.8.10;], the version handed to the compiler
    selector is [0.8.10]; in general the version handed over is the first
    three-component version of that line, with all the digits of its last
    component. And if the code contains no [pragma solidity], the version
    handed over is the empty string. *)
Theorem get_contract_code_pragma_version `{W : World} (st : state)
    (blockchain contract_address : option str) (code : str) :
  code <> [] -> stage_ready st raw_root ->
  may_be_file (nodes st) (cwd st ++ raw_root ++ [lit "contract.sol"]) ->
  let run := get_contract_code blockchain contract_address (Some code) st in
  (forall pre line post,
      first_pragma code pre line post ->
      (line = lit "pragma solidity ^0.8.10;" -> activates run (lit "0.8.10"))
      /\ (forall k,
            version_at line k -> (forall j, j < k -> ~ version_at line j) ->
            exists m rest,
              drop k line = m ++ rest /\ version3 m /\ no_digit_next rest
              /\ activates run m))
  /\ (str_in (lit "pragma solidity") code = false -> activates run []).
Proof.
  intros Hcode Hr Hfile run. unfold run.
  rewrite get_contract_code_raw by done. split.
  - intros pre line post Hfirst.
    destruct (first_pragma_read _ _ _ _ Hfirst) as (i & line' & Hread & Hor).
    split.
    + intros ->. erewrite bind_Ok; [apply activates_switch|].
      rewrite (scan_pragma_first _ i line') by done.
      by destruct Hor as [-> | ->].
    + intros k Hk Hmin.
      destruct (re_search_version_line line line' k Hor Hk Hmin)
        as (ws & rest & Hs & Hd & Hv & Hn).
      exists (group0 ws), rest. split_and!; [done..|].
      erewrite bind_Ok; [apply activates_switch|].
      by rewrite (scan_pragma_first _ i line'), Hs.
  - intros Hnone. erewrite bind_Ok; [apply activates_switch|].
    rewrite scan_pragma_none; [done|].
    apply read_lines_without; [solve_literal|done].
Qed.

Lemma fs_wf_empty : fs_wf ∅.
Proof. split; [done|]. intros p c [n Hn]. by rewrite lookup_empty in Hn. Qed.

Lemma fs_wf_sample : fs_wf sample_fs.
Proof.
  unfold sample_fs.
  apply (fs_wf_insert _ [lit "srv"] (lit "app")); [|solve_plain|done|by left].
  apply (fs_wf_insert _ [] (lit "srv")); [|solve_plain|done|by left].
  apply fs_wf_empty.
Qed.

Lemma stage_ready_sample :
  stage_ready sample_state raw_root
  /\ may_be_file (nodes sample_state)
       (cwd sample_state ++ raw_root ++ [lit "contract.sol"]).
Proof.
  split; [split_and!|].
  - apply fs_wf_sample.
  - done.
  - done.
  - unfold raw_root. solve_plain.
  - repeat constructor; by left.
  - by left.
Qed.

Lemma first_pragma_sample_code :
  first_pragma sample_code
    (lit "// SPDX-License-Identifier: MIT" ++ [chr_cr; chr_lf])
    (lit "pragma solidity ^0.8.10;")
    ([chr_cr; chr_lf] ++ lit "contract C {}").
Proof.
  split; [unfold whole_line; split_and!|split]; try solve_literal.
  - right. exists (lit "// SPDX-License-Identifier: MIT" ++ [chr_cr]), chr_lf.
    split; [reflexivity|by left].
  - right. exists chr_cr, (chr_lf :: lit "contract C {}").
    split; [reflexivity|by right].
Qed.

Lemma first_pragma_sample_code_commented :
  first_pragma sample_code_commented
    (lit "// since 0.4.0" ++ [chr_lf]) (lit "pragma solidity ^0.8.10;") [].
Proof.
  split; [unfold whole_line; split_and!|split]; try solve_literal.
  - right. exists (lit "// since 0.4.0"), chr_lf. split; [reflexivity|by left].
  - by left.
Qed.

Lemma get_contract_code_pragma_version_witness :
  activates (W := sample_world no_response [] [])
    (get_contract_code (W := sample_world no_response [] [])
       None None (Some sample_code) sample_state)
    (lit "0.8.10")
  /\ activates (W := sample_world no_response [] [])
       (get_contract_code (W := sample_world no_response [] [])
          None None (Some sample_code_commented) sample_state)
       (lit "0.8.10")
  /\ activates (W := sample_world no_response [] [])
       (get_contract_code (W := sample_world no_response [] [])
          None None (Some (lit "contract C {}")) sample_state)
       [].
Proof.
  split_and!.
  - apply (proj1 (proj1 (get_contract_code_pragma_version
                           (W := sample_world no_response [] [])
                           sample_state None None sample_code
                           ltac:(done) (proj1 stage_ready_sample)
                           (proj2 stage_ready_sample))
                    _ _ _ first_pragma_sample_code)).
    reflexivity.
  - apply (proj1 (proj1 (get_contract_code_pragma_version
                           (W := sample_world no_response [] [])
                           sample_state None None sample_code_commented
                           ltac:(done) (proj1 stage_ready_sample)
                           (proj2 stage_ready_sample))
                    _ _ _ first_pragma_sample_code_commented)).
    reflexivity.
  - apply (proj2 (get_contract_code_pragma_version
                    (W := sample_world no_response [] [])
                    sample_state None None (lit "contract C {}")
                    ltac:(done) (proj1 stage_ready_sample)
                    (proj2 stage_ready_sample))).
    reflexivity.
Defined.

Lemma stage_ready_add_event st root e :
  stage_ready st root -> stage_ready (add_event e st) root.
Proof. done. Qed.

(** C10. For submitted code whose first line containing [pragma solidity]
    holds no three-component version: [get_contract_code] raises (the
    [AttributeError] of calling [group] on no match), after the file is
    staged and the working directory changed, and without a call to the
    compiler selector; the route handling such a request raises too, it
    returns no answer. *)
Theorem get_contract_code_pragma_without_version `{W : World} (st : state)
    (blockchain contract_address : option str) (code : str) (i : nat)
    (line : str) :
  code <> [] -> stage_ready st raw_root ->
  may_be_file (nodes st) (cwd st ++ raw_root ++ [lit "contract.sol"]) ->
  first_pragma_line (read_lines code) i line ->
  (forall k, ~ version_at line k) ->
  get_contract_code blockchain contract_address (Some code) st
  = Raise AttributeError (staged st raw_root (lit "contract.sol") code)
  /\ forall req encoded,
       falsy (arg_blockchain req) || falsy (arg_contract req) = true ->
       arg_code req = Some encoded -> encoded <> [] ->
       b64decode_utf8 encoded = Some code ->
       analyze_contract req st
       = Raise AttributeError
           (staged (add_event (Stdout code) (add_event (Stdout encoded) st))
                   raw_root (lit "contract.sol") code).
Proof.
  intros Hcode Hr Hfile Hfirst Hnone.
  assert (scan_pragma (read_lines code) [] = inl AttributeError) as Hscan.
  { rewrite (scan_pragma_first _ i line) by done.
    destruct (re_search rx_version line) as [ws|] eqn:Hs; [|done].
    destruct (re_search_version_Some _ _ Hs) as (k & rest & Hd & Hv & _).
    destruct (Hnone k). by exists (group0 ws), rest. }
  split.
  - rewrite get_contract_code_raw by done.
    apply bind_Raise. by rewrite Hscan.
  - intros req encoded Hid Hc Hne Hdec. unfold analyze_contract.
    rewrite Hid, Hc.
    assert (falsy (Some encoded) = false) as -> by (by destruct encoded).
    cbn [negb fstr]. erewrite bind_Ok; [|done]. rewrite Hdec.
    erewrite bind_Ok; [|done]. erewrite bind_Ok; [|done].
    apply bind_Raise. rewrite get_contract_code_raw by done.
    apply bind_Raise. by rewrite Hscan.
Qed.

Lemma get_contract_code_pragma_without_version_witness :
  get_contract_code (W := sample_world no_response [] [])
    None None (Some (lit "pragma solidity ^0.8;")) sample_state
  = Raise AttributeError
      (staged sample_state raw_root (lit "contract.sol")
              (lit "pragma solidity ^0.8;"))
  /\ analyze_contract (W := sample_world no_response [] [])
       (Request None None (Some (lit "cHJhZ21hIHNvbGlkaXR5IF4wLjg7")))
       sample_state
     = Raise AttributeError
         (staged (add_event (Stdout (lit "pragma solidity ^0.8;"))
                    (add_event (Stdout (lit "cHJhZ21hIHNvbGlkaXR5IF4wLjg7"))
                       sample_state))
                 raw_root (lit "contract.sol") (lit "pragma solidity ^0.8;")).
Proof.
  pose proof (get_contract_code_pragma_without_version
                (W := sample_world no_response [] [])
                sample_state None None (lit "pragma solidity ^0.8;")
                0 (lit "pragma solidity ^0.8;")
                ltac:(done) (proj1 stage_ready_sample)
                (proj2 stage_ready_sample)) as H.
  destruct H as [H1 H2].
  - split_and!; [done|done|]. intros j l Hj. lia.
  - by apply re_search_version_None.
  - split; [exact H1|]. by apply H2.
Defined.

(** ** Listing and removing *)

Lemma last_removelast (p : path) : p <> [] -> exists c, last p = Some c /\ p = parent p ++ [c].
Proof.
  destruct p as [|c p _] using rev_ind; [done|]. intros _. exists c.
  by rewrite last_snoc, parent_snoc.
Qed.

Lemma child_name_Some d p c : child_name d p = Some c <-> p = d ++ [c].
Proof.
  unfold child_name. split.
  - destruct (decide _) as [[Hne <-]|]; [|done]. intros Hl.
    destruct (last_removelast p Hne) as (c' & Hl' & Hp). congruence.
  - intros ->. rewrite decide_True, last_snoc; [done|].
    split; [by destruct d|apply parent_snoc].
Qed.

Lemma elem_of_children fs d c :
  c ∈ children fs d <-> is_Some (fs !! (d ++ [c])).
Proof.
  unfold children. rewrite list_elem_of_omap. split.
  - intros (p & Hp & ->%child_name_Some). by apply elem_of_elements, elem_of_dom in Hp.
  - intros Hs. exists (d ++ [c]). split; [|by apply child_name_Some].
    by apply elem_of_elements, elem_of_dom.
Qed.

Lemma NoDup_children fs d : NoDup (children fs d).
Proof.
  unfold children. pose proof (NoDup_elements (dom fs)) as Hnd.
  induction Hnd as [|p ps Hp Hnd IH]; simpl; [constructor|].
  destruct (child_name d p) as [c|] eqn:Hc; [|done].
  constructor; [|done]. intros (p' & Hp' & Hc')%list_elem_of_omap.
  apply child_name_Some in Hc, Hc'. congruence.
Qed.

Lemma children_plain fs d :
  fs_wf fs -> Forall plain (children fs d).
Proof.
  intros [_ Hwf]. apply Forall_forall. intros c Hc%elem_of_children.
  by destruct (Hwf _ _ Hc).
Qed.

Lemma wf_parent_dir fs p :
  fs_wf fs -> node_at fs p = Some Dir -> node_at fs (parent p) = Some Dir.
Proof.
  intros Hwf Hp. destruct p as [|c p _] using rev_ind; [done|].
  rewrite parent_snoc. apply (wf_ancestors fs p [c]); [done|by rewrite Hp|done].
Qed.

(** The path names the teardown uses. *)
Lemma resolve_relative st p comps :
  p <> [] -> chr_nul ∉ p -> starts_with [chr_slash] p = false ->
  split_on chr_slash p = comps ->
  resolve st p = walk (nodes st) (cwd st) comps.
Proof. intros H1 H2 H3 H4. unfold resolve. by rewrite !decide_False, H3, H4. Qed.

Lemma step_up cur : step cur (lit "..") = parent cur.
Proof.
  unfold step. rewrite decide_False by (by intros [?|?]).
  by rewrite decide_True.
Qed.

Lemma step_here cur : step cur (lit ".") = cur.
Proof. unfold step. by rewrite decide_True by (by right). Qed.

Lemma resolve_up st :
  node_at (nodes st) (cwd st) = Some Dir ->
  resolve st (lit "..") = inr (parent (cwd st)).
Proof.
  intros H. rewrite (resolve_relative st _ [lit ".."]) by solve_literal.
  cbn [walk]. by rewrite H, step_up.
Qed.

Lemma resolve_here st :
  node_at (nodes st) (cwd st) = Some Dir -> resolve st (lit ".") = inr (cwd st).
Proof.
  intros H. rewrite (resolve_relative st _ [lit "."]) by solve_literal.
  cbn [walk]. by rewrite H, step_here.
Qed.

Lemma resolve_up_up st :
  node_at (nodes st) (cwd st) = Some Dir ->
  node_at (nodes st) (parent (cwd st)) = Some Dir ->
  resolve st (lit "../..") = inr (parent (parent (cwd st))).
Proof.
  intros H1 H2.
  rewrite (resolve_relative st _ [lit ".."; lit ".."]) by solve_literal.
  cbn [walk]. by rewrite H1, step_up, H2, step_up.
Qed.

Lemma resolve_entry st c :
  node_at (nodes st) (cwd st) = Some Dir -> plain c ->
  resolve st (lit "./" ++ c) = inr (cwd st ++ [c]).
Proof.
  intros H (Hc1 & Hc2 & Hc3 & Hc4 & Hc5).
  change (lit "./" ++ c) with ("."%char :: chr_slash :: c).
  rewrite (resolve_relative st _ [lit "."; c]).
  - cbn [walk]. rewrite H, step_here, H. by rewrite step_plain.
  - done.
  - by intros [?|[?|?]%elem_of_cons]%elem_of_cons.
  - done.
  - change ("."%char :: chr_slash :: c) with (lit "." ++ chr_slash :: c).
    rewrite split_on_app_sep by (by intros [?|?%elem_of_nil]%elem_of_cons).
    by rewrite split_on_no_sep.
Qed.

(** The entries of a directory, and what lies below them. *)
Lemma children_nil fs d : children fs d = [] <-> forall c, fs !! (d ++ [c]) = None.
Proof.
  split.
  - intros H c. destruct (fs !! (d ++ [c])) as [n|] eqn:Hn; [|done].
    assert (c ∈ children fs d) as Hin by (apply elem_of_children; by rewrite Hn).
    rewrite H in Hin. by apply elem_of_nil in Hin.
  - intros H. destruct (children fs d) as [|c l] eqn:Hc; [done|].
    assert (c ∈ children fs d) as Hin by (rewrite Hc; by left).
    apply elem_of_children in Hin. rewrite H in Hin. by destruct Hin.
Qed.

Lemma under_refl (p : path) : under p p.
Proof. by exists []; rewrite app_nil_r. Qed.

Lemma under_trans (p q r : path) : under p q -> under q r -> under p r.
Proof. intros [a ->] [b ->]. exists (a ++ b). by rewrite app_assoc. Qed.

Lemma under_snoc (d : path) c : under d (d ++ [c]).
Proof. by exists [c]. Qed.

Lemma not_under_shorter (d p : path) c : under (d ++ [c]) p -> p <> d.
Proof.
  intros [q ->] H. apply (f_equal length) in H.
  rewrite !length_app in H. simpl in H. lia.
Qed.

Lemma under_siblings (d p : path) c c' :
  under (d ++ [c]) p -> under (d ++ [c']) p -> c = c'.
Proof.
  intros [q ->] [q' H]. rewrite <- !app_assoc in H.
  apply app_inv_head in H. by injection H.
Qed.

(** What lies below [d] and is not [d] lies below an entry of [d]. *)
Lemma under_child (d p : path) :
  under d p -> p <> d -> exists c, under (d ++ [c]) p.
Proof.
  intros [q ->] Hne. destruct q as [|c q]; [by rewrite app_nil_r in Hne|].
  exists c, q. by rewrite <- app_assoc.
Qed.

(** In a well-formed tree, what stands below [e] stands below a directory. *)
Lemma wf_under_dir fs e p :
  fs_wf fs -> under e p -> p <> e -> is_Some (fs !! p) -> node_at fs e = Some Dir.
Proof.
  intros Hwf [q ->] Hne Hs. apply (wf_ancestors fs e q); [done| |].
  - destruct q as [|c q]; [by rewrite app_nil_r in Hne|].
    by rewrite node_at_app_ne.
  - intros ->. by rewrite app_nil_r in Hne.
Qed.

Lemma wf_under_file fs e p content :
  fs_wf fs -> fs !! e = Some (File content) -> under e p -> is_Some (fs !! p) ->
  p = e.
Proof.
  intros Hwf He Hu Hs. destruct (decide (p = e)) as [|Hne]; [done|].
  pose proof (wf_under_dir fs e p Hwf Hu Hne Hs) as Hd.
  destruct e; [by destruct Hwf as [Hr _]; rewrite Hr in He|].
  simpl in Hd. congruence.
Qed.

Lemma wf_under_none fs e p :
  fs_wf fs -> e <> [] -> fs !! e = None -> under e p -> fs !! p = None.
Proof.
  intros Hwf He0 He Hu. destruct (fs !! p) as [n|] eqn:Hp; [|done]. exfalso.
  destruct (decide (p = e)) as [->|Hne]; [congruence|].
  assert (node_at fs e = Some Dir) as Hd
    by (apply (wf_under_dir fs e p); [done..|by rewrite Hp]).
  rewrite node_at_ne in Hd by done. congruence.
Qed.

(** Removing a node that has nothing below it keeps the tree well formed. *)
Lemma fs_wf_delete_leaf fs q :
  fs_wf fs -> (forall c, fs !! (q ++ [c]) = None) -> fs_wf (delete q fs).
Proof.
  intros [Hroot Hwf] Hleaf. split.
  - destruct (decide (q = [])) as [->|Hq]; [apply lookup_delete_eq|].
    by rewrite lookup_delete_ne.
  - intros p c Hs.
    destruct (decide (q = p ++ [c])) as [->|Hne];
      [rewrite lookup_delete_eq in Hs; by destruct Hs|].
    rewrite lookup_delete_ne in Hs by done.
    destruct (Hwf p c Hs) as [Hc Hp]. split; [done|].
    destruct p as [|c0 p]; [done|]. cbn [node_at] in *.
    rewrite lookup_delete_ne; [done|]. intros ->. by rewrite Hleaf in Hs; destruct Hs.
Qed.

(** ** Removals *)

Lemma removed_below_refl q st : fs_wf (nodes st) -> removed_below q st st.
Proof. intros Hwf. split_and!; try done. by right. Qed.

Lemma removed_below_weaken q q' st st' :
  under q q' -> removed_below q' st st' -> removed_below q st st'.
Proof.
  intros Hu (H1 & H2 & H3 & H4 & H5 & H6 & H7 & H8). split_and!; try done.
  intros p Hp. apply H6. intros Hu'. apply Hp. by eapply under_trans.
Qed.

Lemma removed_below_trans q st st1 st2 :
  removed_below q st st1 -> removed_below q st1 st2 -> removed_below q st st2.
Proof.
  intros (H1 & H2 & H3 & H4 & H5 & H6 & H7 & H8)
         (G1 & G2 & G3 & G4 & G5 & G6 & G7 & G8).
  split_and!; try congruence.
  - intros p Hp. by rewrite G6, H6.
  - intros p. destruct (G7 p) as [?|Heq]; [by left|]. rewrite Heq. apply H7.
  - intros l Hl. rewrite G8, H8; [done..|]. by rewrite H2.
Qed.

Lemma refuses_spec st e :
  refuses st e <-> exists l, l ∈ locked st /\ under e l /\ is_Some (nodes st !! l).
Proof.
  unfold refuses. rewrite Exists_exists. split.
  - intros (l & Hl & Hu & Hs). exists l. by rewrite <- elem_of_elements.
  - intros (l & Hl & Hu & Hs). exists l. by rewrite elem_of_elements.
Qed.

(** Whether an entry refuses depends on what is below it only. *)
Lemma refuses_same st st' e :
  (forall p, under e p -> nodes st' !! p = nodes st !! p) ->
  locked st' = locked st ->
  refuses st' e <-> refuses st e.
Proof.
  intros Hsame Hl. rewrite !refuses_spec, Hl.
  split; intros (l & ? & Hu & Hs); exists l; split_and!; try done.
  - by rewrite <- Hsame.
  - by rewrite Hsame.
Qed.

Lemma refuses_under st d e : under d e -> refuses st e -> refuses st d.
Proof.
  rewrite !refuses_spec. intros Hu (l & ? & Hu' & ?). exists l.
  split_and!; [done| |done]. by eapply under_trans.
Qed.

Lemma not_refuses_unlocked st e : locked st = ∅ -> ~ refuses st e.
Proof.
  intros Hl. rewrite refuses_spec, Hl. intros (l & Hin & _). set_solver.
Qed.

Lemma length_le_depth fs p : is_Some (fs !! p) -> length p <= depth fs.
Proof.
  intros Hs. unfold depth. apply max_list_elem_of_le.
  apply list_elem_of_fmap. exists p. split; [done|].
  by apply elem_of_elements, elem_of_dom.
Qed.

(** [os.unlink] of a file of a well-formed tree. *)
Lemma unlink_at_file st q content :
  fs_wf (nodes st) -> q <> [] -> nodes st !! q = Some (File content) ->
  exists st',
    removed_below q st st'
    /\ ((~ refuses st q /\ unlink_at q st = Ok tt st'
         /\ forall p, under q p -> nodes st' !! p = None)
        \/ (refuses st q /\ unlink_at q st = Raise PermissionError st'
            /\ nodes st' !! q = nodes st !! q)).
Proof.
  intros Hwf Hq Hn. unfold unlink_at. rewrite node_at_ne, Hn by done.
  destruct (decide (q ∈ locked st)) as [Hl|Hl].
  - exists st. split; [by apply removed_below_refl|]. right. split_and!; [|done..].
    apply refuses_spec. exists q. split_and!; [done|apply under_refl|by rewrite Hn].
  - assert (forall c, nodes st !! (q ++ [c]) = None) as Hleaf.
    { intros c. destruct (nodes st !! (q ++ [c])) as [n|] eqn:Hc; [|done].
      assert (q ++ [c] = q) as Heq.
      { eapply wf_under_file; [done..|apply under_snoc|by rewrite Hc]. }
      apply (f_equal length) in Heq. rewrite length_app in Heq. simpl in Heq. lia. }
    eexists. split; [|left; split_and!; [|done|]].
    + split_and!; try done; cbn [nodes set_nodes].
      * by apply fs_wf_delete_leaf.
      * intros p Hp. apply lookup_delete_ne. intros ->. apply Hp, under_refl.
      * intros p. destruct (decide (q = p)) as [->|];
          [left; apply lookup_delete_eq|right; by apply lookup_delete_ne].
      * intros l Hin. apply lookup_delete_ne. by intros ->.
    + intros (l & Hin & Hu & Hs)%refuses_spec.
      by rewrite (wf_under_file _ _ _ _ Hwf Hn Hu Hs) in Hin.
    + intros p Hu. cbn [nodes set_nodes].
      destruct (decide (q = p)) as [->|Hne]; [apply lookup_delete_eq|].
      rewrite lookup_delete_ne by done.
      destruct (nodes st !! p) as [n|] eqn:Hp; [|done].
      destruct Hne. symmetry. eapply wf_under_file; [done..|by rewrite Hp].
Qed.

(** What a removal of the entries [names] of [q] comes to, for a way
    [rmtree_dir] of removing a directory that is right on every directory
    the tree still has below [q]. *)
Lemma rmtree_entries_spec (rmtree_dir : path -> M unit) (n : nat) (q : path) :
  (forall q' st,
      fs_wf (nodes st) -> q' <> [] -> nodes st !! q' = Some Dir ->
      (forall p, under q' p -> is_Some (nodes st !! p) -> length p < length q' + n) ->
      exists st',
        removed_below q' st st'
        /\ ((~ refuses st q' /\ rmtree_dir q' st = Ok tt st'
             /\ forall p, under q' p -> nodes st' !! p = None)
            \/ (refuses st q' /\ rmtree_dir q' st = Raise PermissionError st'
                /\ nodes st' !! q' = Some Dir))) ->
  forall names st,
    fs_wf (nodes st) -> NoDup names ->
    (forall c, c ∈ names -> is_Some (nodes st !! (q ++ [c]))) ->
    (forall c p, c ∈ names -> under (q ++ [c]) p -> is_Some (nodes st !! p) ->
                 length p < length (q ++ [c]) + n) ->
    exists st',
      removed_below q st st'
      /\ (forall p, (forall c, c ∈ names -> ~ under (q ++ [c]) p) ->
                    nodes st' !! p = nodes st !! p)
      /\ (((forall c, c ∈ names -> ~ refuses st (q ++ [c]))
           /\ rmtree_entries rmtree_dir q names st = Ok tt st'
           /\ forall c p, c ∈ names -> under (q ++ [c]) p -> nodes st' !! p = None)
          \/ ((exists c, c ∈ names /\ refuses st (q ++ [c]))
              /\ rmtree_entries rmtree_dir q names st = Raise PermissionError st')).
Proof.
  intros Hrec names. induction names as [|c names IH]; intros st Hwf Hnd Hex Hdepth.
  { exists st. split_and!; [by apply removed_below_refl|done|]. left.
    split_and!; [by intros c ?%elem_of_nil|done|by intros c p ?%elem_of_nil]. }
  apply NoDup_cons in Hnd as [Hnotin Hnd].
  set (e := q ++ [c]).
  assert (e <> []) as He0 by (by destruct q).
  assert (exists st1,
            removed_below e st st1
            /\ ((~ refuses st e
                 /\ (fun st => match node_at (nodes st) e with
                               | Some Dir => rmtree_dir e st
                               | _ => unlink_at e st
                               end) st = Ok tt st1
                 /\ forall p, under e p -> nodes st1 !! p = None)
                \/ (refuses st e
                    /\ (fun st => match node_at (nodes st) e with
                                  | Some Dir => rmtree_dir e st
                                  | _ => unlink_at e st
                                  end) st = Raise PermissionError st1)))
    as (st1 & Hrm & Hone).
  { destruct (Hex c) as [[content|] Hn]; [by left| |]; fold e in Hn; cbv beta;
      rewrite node_at_ne, Hn by done.
    - destruct (unlink_at_file st e content Hwf He0 Hn) as (st1 & Hrm & [H|H]);
        exists st1; (split; [done|]); [by left|right]. by destruct H as (? & ? & _).
    - destruct (Hrec e st Hwf He0 Hn) as (st1 & Hrm & [H|H]).
      { intros p Hu Hs. apply Hdepth; [by left|done..]. }
      + exists st1. split; [done|]. by left.
      + exists st1. split; [done|]. right. by destruct H as (? & ? & _). }
  pose proof Hrm as (Hc1 & Hl1 & Hs1 & He1 & Hwf1 & Hout1 & Hless1 & Hlock1).
  assert (forall c', c' ∈ names -> forall p, under (q ++ [c']) p ->
                                             nodes st1 !! p = nodes st !! p)
    as Hsib.
  { intros c' Hin p Hu. apply Hout1. intros Hu'.
    pose proof (under_siblings _ _ _ _ Hu Hu') as ->. done. }
  destruct Hone as [(Hnr & Hrun1 & Hgone1)|(Hr & Hrun1)].
  2:{ exists st1. split_and!.
      - eapply removed_below_weaken; [apply under_snoc|done].
      - intros p Hp. apply Hout1. apply Hp. by left.
      - right. split; [exists c; split; [by left|done]|].
        cbn [rmtree_entries]. by erewrite bind_Raise by exact Hrun1. }
  destruct (IH st1 Hwf1 Hnd) as (st' & Hrm' & Hframe' & Hrest).
  { intros c' Hin. rewrite (Hsib c' Hin); [|apply under_refl].
    apply Hex. by right. }
  { intros c' p Hin Hu Hs. apply Hdepth; [by right|done|].
    by rewrite <- (Hsib c' Hin p Hu). }
  assert (forall c', c' ∈ names -> refuses st1 (q ++ [c']) <-> refuses st (q ++ [c']))
    as Hsame.
  { intros c' Hin. apply refuses_same; [|done]. by apply Hsib. }
  exists st'. split_and!.
  - eapply removed_below_trans; [|exact Hrm'].
    eapply removed_below_weaken; [apply under_snoc|done].
  - intros p Hp. rewrite Hframe'.
    + apply Hout1. apply Hp. by left.
    + intros c' Hin. apply Hp. by right.
  - destruct Hrest as [(Hnr' & Hrun' & Hgone')|((c' & Hin & Hr') & Hrun')].
    + left. split_and!.
      * intros c' [->|Hin]%elem_of_cons; [done|]. rewrite <- Hsame by done.
        by apply Hnr'.
      * cbn [rmtree_entries]. by erewrite bind_Ok by exact Hrun1.
      * intros c' p [->|Hin]%elem_of_cons Hu; [|by apply (Hgone' c')].
        destruct Hrm' as (_ & _ & _ & _ & _ & _ & Hless' & _).
        destruct (Hless' p) as [?|Heq]; [done|]. rewrite Heq. by apply Hgone1.
    + right. split.
      * exists c'. split; [by right|]. by rewrite <- Hsame.
      * cbn [rmtree_entries]. by erewrite bind_Ok by exact Hrun1.
Qed.

(** [shutil.rmtree] on a directory of a well-formed tree, with fuel for
    its depth: either nothing locked stands in it, and it goes with all that
    is below it; or the removal stops with [PermissionError], the directory
    itself and all that is locked still there. *)
Lemma rmtree_dir_spec n q st :
  fs_wf (nodes st) -> q <> [] -> nodes st !! q = Some Dir ->
  (forall p, under q p -> is_Some (nodes st !! p) -> length p < length q + n) ->
  exists st',
    removed_below q st st'
    /\ ((~ refuses st q /\ rmtree_dir n q st = Ok tt st'
         /\ forall p, under q p -> nodes st' !! p = None)
        \/ (refuses st q /\ rmtree_dir n q st = Raise PermissionError st'
            /\ nodes st' !! q = Some Dir)).
Proof.
  revert q st. induction n as [|n IH]; intros q st Hwf Hq Hn Hdepth.
  { specialize (Hdepth q (under_refl q)). rewrite Hn in Hdepth.
    specialize (Hdepth ltac:(eauto)). lia. }
  destruct (rmtree_entries_spec (rmtree_dir n) n q IH (children (nodes st) q) st)
    as (st1 & Hrm & Hframe & Hres); [done|apply NoDup_children| | |].
  { intros c Hc. by apply elem_of_children. }
  { intros c p Hc Hu Hs. rewrite length_app. simpl.
    specialize (Hdepth p (under_trans _ _ _ (under_snoc q c) Hu) Hs). lia. }
  pose proof Hrm as (Hc1 & Hl1 & Hs1 & He1 & Hwf1 & Hout1 & Hless1 & Hlock1).
  assert (nodes st1 !! q = Some Dir) as Hq1.
  { rewrite Hframe; [done|]. intros c _ Hu. by apply not_under_shorter in Hu. }
  cbn [rmtree_dir].
  destruct Hres as [(Hnr & Hrun & Hgone)|((c & Hin & Hr) & Hrun)].
  2:{ exists st1. split; [done|]. right. split_and!; [| |done].
      - eapply refuses_under; [apply under_snoc|done].
      - erewrite bind_Ok; [|done]. by erewrite bind_Raise by exact Hrun. }
  assert (children (nodes st1) q = []) as Hempty.
  { apply children_nil. intros c.
    destruct (nodes st !! (q ++ [c])) as [x|] eqn:Hx.
    - apply (Hgone c); [|apply under_refl]. apply elem_of_children. by rewrite Hx.
    - destruct (Hless1 (q ++ [c])) as [?|Heq]; [done|]. by rewrite Heq. }
  assert (rmtree_dir (S n) q st = rmdir_at q st1) as Hstep.
  { cbn [rmtree_dir]. erewrite bind_Ok; [|done]. by erewrite bind_Ok by exact Hrun. }
  cbn [rmtree_dir] in Hstep. rewrite Hstep. unfold rmdir_at.
  rewrite node_at_ne, Hq1 by done.
  rewrite decide_False by (intros [?|?]; congruence).
  rewrite Hl1. destruct (decide (q ∈ locked st)) as [Hl|Hl].
  - exists st1. split; [done|]. right. split_and!; [|done..].
    apply refuses_spec. exists q. split_and!; [done|apply under_refl|by rewrite Hn].
  - eexists. split; [|left; split_and!; [|done|]].
    + eapply removed_below_trans; [exact Hrm|].
      split_and!; try done; cbn [nodes set_nodes].
      * apply fs_wf_delete_leaf; [done|]. by apply children_nil.
      * intros p Hp. apply lookup_delete_ne. intros ->. apply Hp, under_refl.
      * intros p. destruct (decide (q = p)) as [->|];
          [left; apply lookup_delete_eq|right; by apply lookup_delete_ne].
      * intros l Hin. apply lookup_delete_ne. intros ->. by rewrite Hl1 in Hin.
    + intros (l & Hin & Hu & Hs)%refuses_spec.
      destruct (decide (l = q)) as [->|Hne]; [done|].
      destruct (under_child q l Hu Hne) as (c & Hc).
      apply (Hnr c).
      * apply elem_of_children.
        destruct (decide (l = q ++ [c])) as [->|Hne']; [done|].
        assert (node_at (nodes st) (q ++ [c]) = Some Dir) as Hd
          by (by apply (wf_under_dir _ _ l)).
        rewrite node_at_app_ne in Hd by done. by rewrite Hd.
      * apply refuses_spec. by exists l.
    + intros p Hu. cbn [nodes set_nodes].
      destruct (decide (q = p)) as [->|Hne]; [apply lookup_delete_eq|].
      rewrite lookup_delete_ne by done.
      destruct (under_child q p Hu (not_eq_sym Hne)) as (c & Hc).
      destruct (nodes st !! (q ++ [c])) as [x|] eqn:Hx.
      * apply (Hgone c); [|done]. apply elem_of_children. by rewrite Hx.
      * destruct (Hless1 p) as [?|Heq]; [done|]. rewrite Heq.
        apply (wf_under_none _ (q ++ [c])); [done|by destruct q|done|done].
Qed.

(** ** The loop of the teardown *)

Lemma delete_entries_cons st c rest :
  delete_entries (c :: rest) st
  = match delete_entries [c] st with
    | Ok _ st1 => delete_entries rest st1
    | Raise e st1 => Raise e st1
    end.
Proof.
  cbn [delete_entries]. unfold mbind, M_bind, bind, ret.
  by destruct (try_except _ _ st).
Qed.

(** Lines 207-214: one turn of the loop, on the entry [c] of the working
    directory. The entry goes with all that is below it; or the removal
    stops at something locked, the failure is printed, and the entry is
    still there, with what was not yet removed. *)
Lemma delete_entries_one st c :
  fs_wf (nodes st) -> node_at (nodes st) (cwd st) = Some Dir -> plain c ->
  exists st1,
    delete_entries [c] st = Ok tt st1
    /\ cwd st1 = cwd st /\ locked st1 = locked st /\ solc st1 = solc st
    /\ fs_wf (nodes st1)
    /\ (forall p, ~ under (cwd st ++ [c]) p -> nodes st1 !! p = nodes st !! p)
    /\ (forall p, nodes st1 !! p = None \/ nodes st1 !! p = nodes st !! p)
    /\ (forall l, l ∈ locked st -> nodes st1 !! l = nodes st !! l)
    /\ ((~ refuses st (cwd st ++ [c]) /\ events st1 = events st
         /\ forall p, under (cwd st ++ [c]) p -> nodes st1 !! p = None)
        \/ (refuses st (cwd st ++ [c])
            /\ events st1
               = events st ++ [PrintFailedToDelete (lit "./" ++ c) PermissionError]
            /\ nodes st1 !! (cwd st ++ [c]) = nodes st !! (cwd st ++ [c]))).
Proof.
  intros Hwf Hcwd Hc.
  assert (cwd st ++ [c] <> []) as He0 by (by destruct (cwd st)).
  cbn [delete_entries].
  unfold mbind, M_bind, bind, try_except, os_path_isfile, os_path_islink,
    os_path_isdir, os_unlink, shutil_rmtree, ret, modify.
  rewrite !resolve_entry by done. rewrite !node_at_ne by done.
  destruct (nodes st !! (cwd st ++ [c])) as [[content|]|] eqn:Hn; cbn [orb].
  - rewrite resolve_entry by done.
    destruct (unlink_at_file st _ content Hwf He0 Hn)
      as (st1 & (H1 & H2 & H3 & H4 & H5 & H6 & H7 & H8)
          & [(Hnr & Hrun & Hg)|(Hr & Hrun & Hk)]); rewrite Hrun.
    + exists st1. split_and!; try done. left. by split_and!.
    + eexists. split_and!; try done. right. split_and!; [done| |].
      * cbn [events add_event]. by rewrite H4.
      * cbn [nodes add_event]. by rewrite Hk.
  - rewrite resolve_entry by done. rewrite node_at_ne, Hn by done.
    rewrite resolve_entry by done. rewrite node_at_ne, Hn by done.
    destruct (rmtree_dir_spec (S (depth (nodes st))) _ st Hwf He0 Hn)
      as (st1 & (H1 & H2 & H3 & H4 & H5 & H6 & H7 & H8)
          & [(Hnr & Hrun & Hg)|(Hr & Hrun & Hk)]).
    { intros p _ Hs. apply length_le_depth in Hs. lia. }
    + rewrite Hrun. exists st1. split_and!; try done. left. by split_and!.
    + rewrite Hrun. eexists. split_and!; try done. right. split_and!; [done| |].
      * cbn [events add_event]. by rewrite H4.
      * cbn [nodes add_event]. by rewrite Hk.
  - rewrite resolve_entry by done. rewrite node_at_ne, Hn by done.
    exists st. split_and!; try done; [by right|]. left.
    split_and!; [|done|intros p Hu; by apply (wf_under_none _ (cwd st ++ [c]))].
    intros (l & _ & Hu & Hs)%refuses_spec.
    rewrite (wf_under_none _ (cwd st ++ [c]) l) in Hs by done. by destruct Hs.
Qed.

(** The loop of [delete_contract_directory] over distinct plain names: it
    always comes to its end; every entry goes with all that is below it, or
    its removal stops at something locked, is reported, and the entry
    stays; nothing that is locked goes, and nothing else changes. *)
Lemma delete_entries_spec names st :
  fs_wf (nodes st) -> node_at (nodes st) (cwd st) = Some Dir ->
  Forall plain names -> NoDup names ->
  exists st',
    delete_entries names st = Ok tt st'
    /\ cwd st' = cwd st /\ locked st' = locked st /\ solc st' = solc st
    /\ fs_wf (nodes st')
    /\ (forall p, (forall c, c ∈ names -> ~ under (cwd st ++ [c]) p) ->
                  nodes st' !! p = nodes st !! p)
    /\ (forall p, nodes st' !! p = None \/ nodes st' !! p = nodes st !! p)
    /\ (forall c, c ∈ names -> ~ refuses st (cwd st ++ [c]) ->
                  forall p, under (cwd st ++ [c]) p -> nodes st' !! p = None)
    /\ (forall c, c ∈ names -> refuses st (cwd st ++ [c]) ->
                  PrintFailedToDelete (lit "./" ++ c) PermissionError ∈ events st'
                  /\ nodes st' !! (cwd st ++ [c]) = nodes st !! (cwd st ++ [c]))
    /\ (forall l, l ∈ locked st -> nodes st' !! l = nodes st !! l)
    /\ ((forall c, c ∈ names -> ~ refuses st (cwd st ++ [c])) ->
        events st' = events st)
    /\ exists more, events st' = events st ++ more.
Proof.
  intros Hwf Hcwd HF Hnd. revert st Hwf Hcwd.
  induction HF as [|c names Hc HF IH]; intros st Hwf Hcwd.
  { exists st. split_and!; try done.
    - by right.
    - by intros c ?%elem_of_nil.
    - by intros c ?%elem_of_nil.
    - exists []. by rewrite app_nil_r. }
  apply NoDup_cons in Hnd as [Hnotin Hnd].
  rewrite delete_entries_cons.
  destruct (delete_entries_one st c Hwf Hcwd Hc)
    as (st1 & -> & Hcwd1 & Hl1 & Hs1 & Hwf1 & Hout & Hless & Hlock & Hone).
  set (e := cwd st ++ [c]) in *.
  assert (node_at (nodes st1) (cwd st1) = Some Dir) as Hd1.
  { rewrite Hcwd1. destruct (decide (cwd st = [])) as [Hd|Hd]; [by rewrite Hd|].
    rewrite node_at_ne in * by done. rewrite Hout; [done|].
    intros Hu. by apply not_under_shorter in Hu. }
  destruct (IH Hnd st1 Hwf1 Hd1)
    as (st' & Hrun & Hc' & Hl' & Hs' & Hwf' & Hframe & Hless' & Hgone & Hkept
        & Hlock' & Hquiet & more & Hev).
  rewrite Hcwd1 in *.
  assert (forall c', c' ∈ names -> forall p, under (cwd st ++ [c']) p ->
                                             nodes st1 !! p = nodes st !! p)
    as Hsib.
  { intros c' Hin p Hu. apply Hout. intros Hu'.
    by pose proof (under_siblings _ _ _ _ Hu Hu') as ->. }
  assert (forall c', c' ∈ names -> refuses st1 (cwd st ++ [c']) <-> refuses st (cwd st ++ [c']))
    as Hsame.
  { intros c' Hin. apply refuses_same; [|done]. by apply Hsib. }
  assert (forall p, under e p -> nodes st' !! p = nodes st1 !! p) as Hmine.
  { intros p Hu. apply Hframe. intros c' Hin Hu'.
    by pose proof (under_siblings _ _ _ _ Hu Hu') as ->. }
  exists st'. split_and!; try congruence.
  - intros p Hp. rewrite Hframe.
    + apply Hout. apply Hp. by left.
    + intros c' Hin. apply Hp. by right.
  - intros p. destruct (Hless' p) as [?|Heq]; [by left|]. rewrite Heq. apply Hless.
  - intros c' [->|Hin]%elem_of_cons Hnr p Hu.
    + destruct Hone as [(_ & _ & Hg)|(Hr & _)]; [|done].
      rewrite Hmine by done. by apply Hg.
    + apply (Hgone c' Hin); [|done]. by rewrite Hsame.
  - intros c' [->|Hin]%elem_of_cons Hr.
    + destruct Hone as [(Hnr & _)|(_ & Hev1 & Hk)]; [done|]. split.
      * rewrite Hev, Hev1. apply elem_of_app. left. apply elem_of_app. right. by left.
      * rewrite Hmine by apply under_refl. done.
    + destruct (Hkept c' Hin) as [Hlog Hk]; [by rewrite Hsame|].
      split; [done|]. rewrite Hk. apply (Hsib c' Hin), under_refl.
  - intros l Hin. rewrite Hlock', Hlock; [done..|]. by rewrite Hl1.
  - intros Hnone. rewrite Hquiet.
    + destruct Hone as [(_ & Hev1 & _)|(Hr & _)]; [done|].
      destruct (Hnone c); [by left|done].
    + intros c' Hin. rewrite Hsame by done. apply Hnone. by right.
  - rewrite Hev. destruct Hone as [(_ & -> & _)|(_ & -> & _)].
    + by exists more.
    + eexists. by rewrite <- app_assoc.
Qed.

(** ** delete_contract_directory *)

Lemma not_under_short (d p : path) c : length p <= length d -> ~ under (d ++ [c]) p.
Proof.
  intros Hl [q ->]. rewrite !length_app in Hl. simpl in Hl. lia.
Qed.

Lemma length_parent (p : path) : length (parent p) = pred (length p).
Proof.
  destruct p as [|c p _] using rev_ind; [done|].
  rewrite parent_snoc, length_app. simpl. lia.
Qed.

Lemma node_at_frame (fs fs' : gmap path node) p :
  fs' !! p = fs !! p -> node_at fs' p = node_at fs p.
Proof. intros H. by destruct p. Qed.

Lemma parent_three (p : path) a b c :
  parent (parent (parent (p ++ [a; b; c]))) = p.
Proof.
  change [a; b; c] with ([a; b] ++ [c]). rewrite app_assoc, parent_snoc.
  change [a; b] with ([a] ++ [b]). rewrite app_assoc, parent_snoc.
  apply parent_snoc.
Qed.

(** Lines 205-217. From a well-formed tree and an existing working
    directory, the teardown always returns, three levels up; in between, one
    level up, every entry goes with all that is below it, or its removal
    stops at something locked, is reported, and the entry stays; nothing
    that is locked goes, and nothing outside that directory changes. *)
Lemma delete_contract_directory_effect (st : state) :
  fs_wf (nodes st) -> node_at (nodes st) (cwd st) = Some Dir ->
  exists st',
    delete_contract_directory st = Ok tt st'
    /\ cwd st' = parent (parent (parent (cwd st)))
    /\ (forall c, is_Some (nodes st !! (parent (cwd st) ++ [c])) ->
          (~ refuses st (parent (cwd st) ++ [c]) ->
           forall p, under (parent (cwd st) ++ [c]) p -> nodes st' !! p = None)
          /\ (refuses st (parent (cwd st) ++ [c]) ->
              PrintFailedToDelete (lit "./" ++ c) PermissionError ∈ events st'
              /\ nodes st' !! (parent (cwd st) ++ [c])
                 = nodes st !! (parent (cwd st) ++ [c])))
    /\ (forall p, (forall c, ~ under (parent (cwd st) ++ [c]) p) ->
                  nodes st' !! p = nodes st !! p)
    /\ fs_wf (nodes st') /\ locked st' = locked st /\ solc st' = solc st
    /\ (forall p, nodes st' !! p = None \/ nodes st' !! p = nodes st !! p)
    /\ (forall l, l ∈ locked st -> nodes st' !! l = nodes st !! l).
Proof.
  intros Hwf Hcwd. pose (d := parent (cwd st)).
  assert (node_at (nodes st) d = Some Dir) as Hd by (by apply wf_parent_dir).
  assert (node_at (nodes st) (parent d) = Some Dir) as Hd1 by (by apply wf_parent_dir).
  assert (node_at (nodes st) (parent (parent d)) = Some Dir) as Hd2
    by (by apply wf_parent_dir).
  pose (st1 := set_cwd d st). unfold d in *. clear d.
  destruct (delete_entries_spec (children (nodes st) (parent (cwd st))) st1)
    as (st2 & Hrun & Hc2 & Hl2 & Hs2 & Hwf2 & Hframe & Hless & Hgone & Hkept
        & Hlock & _).
  { done. } { done. } { by apply children_plain. } { apply NoDup_children. }
  simpl in Hc2, Hl2, Hs2, Hframe, Hless, Hgone, Hkept, Hlock.
  assert (forall p, length p <= length (parent (cwd st)) ->
                    node_at (nodes st2) p = node_at (nodes st) p)
    as Hkeep.
  { intros p Hp. apply node_at_frame, Hframe. intros c _.
    by apply not_under_short. }
  pose proof (length_parent (parent (cwd st))).
  pose proof (length_parent (parent (parent (cwd st)))).
  exists (set_cwd (parent (parent (parent (cwd st)))) st2). split_and!.
  - unfold delete_contract_directory.
    erewrite bind_Ok; [|unfold os_chdir; by rewrite resolve_up, Hd].
    erewrite bind_Ok;
      [|unfold os_listdir; rewrite resolve_here by done; cbn [nodes cwd set_cwd];
        by rewrite Hd].
    erewrite bind_Ok; [|exact Hrun].
    unfold os_chdir. rewrite resolve_up_up.
    + rewrite Hc2. cbn [cwd set_cwd st1]. by rewrite Hkeep, Hd2 by lia.
    + rewrite Hc2. cbn [cwd set_cwd st1]. by rewrite Hkeep by lia.
    + rewrite Hc2. cbn [cwd set_cwd st1]. by rewrite Hkeep by lia.
  - done.
  - intros c Hs. apply elem_of_children in Hs. split.
    + intros Hr. by apply Hgone.
    + intros Hr. by apply Hkept.
  - intros p Hp. apply Hframe. intros c _. apply Hp.
  - done.
  - done.
  - done.
  - done.
  - done.
Qed.


Lemma sample_staged_ready :
  fs_wf (nodes sample_staged)
  /\ node_at (nodes sample_staged) (cwd sample_staged) = Some Dir.
Proof.
  destruct stage_ready_sample as [Hr Hf].
  destruct (staged_facts sample_state raw_root (lit "contract.sol")
              (lit "contract C {}") Hr ltac:(solve_plain) Hf)
    as (Hwf & Hc & Hd & _).
  split; [done|]. unfold sample_staged. by rewrite Hc.
Qed.



(** A removal that fails half way: beside [contract.sol] the staging
    directory holds [a.sol] and the locked [b.sol], listed in this order.
    The teardown removes the first two, fails on the third, prints the
    failure for the directory of the three, which stays with [b.sol] in it,
    and ends three levels up all the same. *)
Example delete_contract_directory_stops_at_locked :
  let run := delete_contract_directory sample_locked in
  let left := fun name =>
    bool_decide (is_Some (nodes (outcome_state run)
                            !! (cwd sample_locked ++ [lit name]))) in
  children (nodes sample_locked) (cwd sample_locked)
  = [lit "contract.sol"; lit "a.sol"; lit "b.sol"]
  /\ returns run tt
  /\ left "contract.sol" = false /\ left "a.sol" = false /\ left "b.sol" = true
  /\ nodes (outcome_state run) !! cwd sample_locked = Some Dir
  /\ events (outcome_state run)
     = [PrintFailedToDelete (lit "./contract") PermissionError]
  /\ cwd (outcome_state run) = cwd sample_state.
Proof.
  split_and!; vm_compute; reflexivity.
Qed.

(** Staging that goes deeper than three levels: for the address [0xabc/x]
    the staging directory is [contracts/ethereum/0xabc/x], four levels
    down; the request is served, and the teardown, three levels up, leaves
    the working directory in [contracts]. *)
Example analyze_contract_address_with_slash :
  let run := analyze_contract
               (W := sample_world single_response [] sample_results)
               (Request (Some (lit "ethereum")) (Some (lit "0xabc/x")) None)
               sample_state in
  match run with
  | Ok (ResultBody _, status) st' =>
      status = 200%Z /\ cwd st' = cwd sample_state ++ [lit "contracts"]
  | _ => False
  end.
Proof.
  vm_compute. split; reflexivity.
Qed.

(** ** Staging the files of a multi-file source *)

Lemma comps_last f :
  nested_name f ->
  exists ds n, comps f = ds ++ [n] /\ ds <> [] /\ Forall plain ds /\ plain n
               /\ removelast (comps f) = ds.
Proof.
  intros [HF Hl]. destruct (comps f) as [|n ds _] using rev_ind; [simpl in Hl; lia|].
  apply Forall_app in HF as [Hds Hn]. apply Forall_inv in Hn.
  exists ds, n. split_and!; [done| |done|done|by rewrite removelast_last].
  intros ->. simpl in Hl. lia.
Qed.

Lemma lookup_stage_file fs root f content p :
  stage_file fs root f content !! p
  = if decide (p = root ++ comps f) then Some (File content)
    else if decide (p ∈ dir_chain root (removelast (comps f))) then Some Dir
    else fs !! p.
Proof.
  unfold stage_file. destruct (decide (p = root ++ comps f)) as [->|Hne].
  - apply lookup_insert_eq.
  - by rewrite lookup_insert_ne, lookup_add_dirs.
Qed.

Lemma in_chain_removelast root (cs : list str) p :
  p ∈ dir_chain root (removelast cs) ->
  exists a, p = root ++ a /\ a <> [] /\ a `prefix_of` cs /\ length a < length cs.
Proof.
  intros (a & b & Hr & Ha & ->)%elem_of_dir_chain.
  destruct cs as [|c cs _] using rev_ind; [by destruct a|].
  rewrite removelast_last in Hr. subst cs. exists a. split_and!; [done..| |].
  - exists (b ++ [c]). by rewrite <- app_assoc.
  - rewrite !length_app. simpl. lia.
Qed.

(** Lines 83-98: one file. *)
Lemma write_one_file st f content :
  fs_wf (nodes st) -> node_at (nodes st) (cwd st) = Some Dir ->
  file_fits (nodes st) (cwd st) f ->
  (present ← os_path_exists (dirname f);
   (if negb present then os_makedirs (dirname f) else ret tt);;
   open_w_writelines f (chars content)) st
  = Ok tt (set_nodes (stage_file (nodes st) (cwd st) f content) st).
Proof.
  intros Hwf Hcwd (Hnest & Hch & Hfile).
  destruct (comps_last f Hnest) as (ds & n & Hcs & Hds & HFds & Hn & Hrl).
  assert (f = join_with chr_slash (ds ++ [n])) as Hf
    by (by rewrite <- Hcs; unfold comps; rewrite join_with_split).
  assert (dirname f = join_with chr_slash ds) as ->
    by (by rewrite Hf, dirname_join).
  rewrite Hrl in Hch.
  rewrite ensure_dirs_then by done. rewrite Hf at 1.
  rewrite open_w_writelines_join.
  - cbn [nodes cwd set_nodes]. unfold stage_file.
    by rewrite concat_chars, Hrl, Hcs.
  - by destruct ds.
  - apply Forall_app. split; [done|by constructor].
  - by apply add_dirs_keeps_dir.
  - rewrite removelast_last. apply add_dirs_chain_dirs.
  - cbn [nodes cwd set_nodes]. rewrite <- Hcs. unfold may_be_file.
    rewrite lookup_add_dirs, decide_False; [done|].
    rewrite <- Hrl. intros (a & Ha & _ & _ & Hl)%in_chain_removelast.
    apply app_inv_head in Ha. rewrite Ha in Hl. lia.
Qed.

Lemma stage_file_wf fs root f content :
  fs_wf fs -> node_at fs root = Some Dir -> file_fits fs root f ->
  fs_wf (stage_file fs root f content)
  /\ node_at (stage_file fs root f content) root = Some Dir.
Proof.
  intros Hwf Hroot (Hnest & Hch & Hfile).
  destruct (comps_last f Hnest) as (ds & n & Hcs & Hds & HFds & Hn & Hrl).
  split.
  - unfold stage_file. rewrite Hrl, Hcs, app_assoc.
    apply fs_wf_insert; [by apply fs_wf_add_dirs|done| |].
    + rewrite node_at_add_dirs, decide_True; [done|]. by apply dir_chain_last.
    + right. unfold may_be_file. rewrite <- app_assoc, <- Hcs.
      rewrite lookup_add_dirs, decide_False; [done|].
      rewrite <- Hrl. intros (a & Ha & _ & _ & Hl)%in_chain_removelast.
      apply app_inv_head in Ha. rewrite Ha in Hl. lia.
  - destruct (decide (root = [])) as [->|Hr]; [done|].
    rewrite node_at_ne by done. rewrite lookup_stage_file.
    rewrite decide_False.
    2:{ intros H. apply (f_equal length) in H. rewrite length_app, Hcs, length_app in H.
        simpl in H. lia. }
    rewrite decide_False; [by rewrite <- node_at_ne|].
    intros (a & Ha & Hne & _)%in_chain_removelast.
    apply (f_equal length) in Ha. rewrite length_app in Ha.
    destruct a; simpl in *; [done|lia].
Qed.

Lemma files_fit_cons fs root f content rest :
  files_fit fs root ((f, content) :: rest) ->
  file_fits fs root f /\ files_fit (stage_file fs root f content) root rest.
Proof.
  intros [HF Hpre]. apply Forall_cons in HF as [Hf HF]. split; [done|].
  split.
  - apply Forall_forall. intros [f' c'] Hin.
    pose proof (proj1 (Forall_forall _ _) HF _ Hin) as (Hnest' & Hch' & Hfile').
    assert (f' ∈ ((f, content) :: rest).*1) as Hin'.
    { right. apply list_elem_of_fmap. by exists (f', c'). }
    assert (f ∈ ((f, content) :: rest).*1) as Hin0 by (by left).
    simpl in *. split_and!; [done| |].
    + apply Forall_forall. intros p Hp.
      pose proof (proj1 (Forall_forall _ _) Hch' p Hp) as Hm.
      destruct (in_chain_removelast _ _ _ Hp) as (a & -> & Ha & Hpa & Hl).
      unfold may_be_dir in *. rewrite node_at_app_ne in * by done.
      rewrite lookup_stage_file.
      destruct (decide (root ++ a = root ++ comps f)) as [Heq|_].
      * apply app_inv_head in Heq. subst a.
        pose proof (Hpre f f' Hin0 Hin' Hpa) as ->. lia.
      * destruct (decide _); [by right|done].
    + unfold may_be_file in *. rewrite lookup_stage_file.
      destruct (decide _) as [|_]; [by right; eexists|].
      destruct (decide _) as [Hp|_]; [|done].
      destruct (in_chain_removelast _ _ _ Hp) as (a & Ha & _ & Hpa & Hl).
      apply app_inv_head in Ha. subst a.
      pose proof (Hpre f' f Hin' Hin0 Hpa) as ->. lia.
  - intros f1 f2 H1 H2. apply Hpre; by right.
Qed.

(** Lines 82-98: the loop writes every file. *)
Lemma write_contract_files_staged main_contract items st :
  fs_wf (nodes st) -> node_at (nodes st) (cwd st) = Some Dir ->
  files_fit (nodes st) (cwd st) items ->
  write_contract_files main_contract items st
  = Ok tt (set_nodes (stage_files (nodes st) (cwd st) items) st)
  /\ fs_wf (stage_files (nodes st) (cwd st) items)
  /\ node_at (stage_files (nodes st) (cwd st) items) (cwd st) = Some Dir.
Proof.
  revert st. induction items as [|[f content] rest IH]; intros st Hwf Hcwd Hfit.
  - simpl. by rewrite set_nodes_id.
  - apply files_fit_cons in Hfit as [Hf Hfit].
    destruct (stage_file_wf _ _ f content Hwf Hcwd Hf) as [Hwf1 Hcwd1].
    destruct (IH (set_nodes (stage_file (nodes st) (cwd st) f content) st))
      as (Hrun & Hwf' & Hcwd'); [done..|].
    cbn [write_contract_files stage_files].
    split; [|done].
    erewrite bind_Ok; [exact Hrun|].
    destruct (decide (main_contract = f)); by apply write_one_file.
Qed.

Lemma stage_files_keeps fs root items p :
  (forall f, f ∈ items.*1 ->
             p <> root ++ comps f
             /\ p ∉ dir_chain root (removelast (comps f))) ->
  stage_files fs root items !! p = fs !! p.
Proof.
  revert fs. induction items as [|[f c] rest IH]; intros fs Hp; [done|].
  cbn [stage_files]. rewrite IH.
  - destruct (Hp f) as [H1 H2]; [by left|].
    by rewrite lookup_stage_file, !decide_False.
  - intros f' Hin. apply Hp. by right.
Qed.

Lemma stage_files_keeps_dir fs root items p :
  (forall f, f ∈ items.*1 -> p <> root ++ comps f) ->
  fs !! p = Some Dir -> stage_files fs root items !! p = Some Dir.
Proof.
  revert fs. induction items as [|[f c] rest IH]; intros fs Hp Hd; [done|].
  cbn [stage_files]. apply IH.
  - intros f' Hin. apply Hp. by right.
  - rewrite lookup_stage_file, decide_False by (apply Hp; by left).
    by destruct (decide _).
Qed.

(** Every file staged is found again with its content. *)
Lemma stage_files_lookup fs root items f c :
  (forall f f', f ∈ items.*1 -> f' ∈ items.*1 ->
                comps f `prefix_of` comps f' -> f = f') ->
  NoDup items.*1 -> (f, c) ∈ items ->
  stage_files fs root items !! (root ++ comps f) = Some (File c).
Proof.
  revert fs. induction items as [|[f0 c0] rest IH]; intros fs Hpre Hnd Hin.
  { by apply elem_of_nil in Hin. }
  cbn [fmap list_fmap] in Hnd. apply NoDup_cons in Hnd as [Hnotin Hnd].
  cbn [stage_files]. apply elem_of_cons in Hin as [[= <- <-]|Hin].
  - rewrite stage_files_keeps.
    + by rewrite lookup_stage_file, decide_True.
    + intros f' Hin'. split.
      * intros Heq%app_inv_head%split_on_inj. by subst f'.
      * intros (a & Ha & _ & Hpa & Hl)%in_chain_removelast.
        apply app_inv_head in Ha. subst a.
        assert (f = f') as <-; [|lia].
        apply Hpre; [by left|by right|done].
  - apply IH; [|done|done]. intros f1 f2 H1 H2. apply Hpre; by right.
Qed.

(** Every directory of a file staged is there. *)
Lemma stage_files_dirs fs root items f p :
  (forall f f', f ∈ items.*1 -> f' ∈ items.*1 ->
                comps f `prefix_of` comps f' -> f = f') ->
  f ∈ items.*1 -> p ∈ dir_chain root (removelast (comps f)) ->
  stage_files fs root items !! p = Some Dir.
Proof.
  revert fs. induction items as [|[f0 c0] rest IH]; intros fs Hpre Hin Hp.
  { by apply elem_of_nil in Hin. }
  assert (forall f', f' ∈ ((f0, c0) :: rest).*1 -> p <> root ++ comps f') as Hnf.
  { intros f' Hin' ->.
    destruct (in_chain_removelast _ _ _ Hp) as (a & Ha & _ & Hpa & Hl).
    apply app_inv_head in Ha. subst a.
    assert (f' = f) as ->; [|lia]. by apply Hpre. }
  cbn [stage_files]. cbn [fmap list_fmap] in Hin.
  apply elem_of_cons in Hin as [->|Hin].
  - apply stage_files_keeps_dir.
    + intros f' Hin'. apply Hnf. by right.
    + rewrite lookup_stage_file, decide_False by (apply Hnf; by left).
      by rewrite decide_True.
  - apply IH; [|done|done]. intros f1 f2 H1 H2. apply Hpre; by right.
Qed.

Lemma files_fit_enter fs cur root items :
  files_fit fs (cur ++ root) items ->
  files_fit (add_dirs fs (dir_chain cur root)) (cur ++ root) items.
Proof.
  intros [HF Hpre]. split; [|done].
  assert (forall a : path, a <> [] ->
            add_dirs fs (dir_chain cur root) !! ((cur ++ root) ++ a)
            = fs !! ((cur ++ root) ++ a)) as Hsame.
  { intros a Ha. rewrite lookup_add_dirs, decide_False; [done|].
    intros (a' & b & -> & _ & Heq)%elem_of_dir_chain.
    rewrite <- !app_assoc in Heq. apply app_inv_head in Heq.
    apply (f_equal length) in Heq. rewrite !length_app in Heq.
    destruct a; simpl in *; [done|lia]. }
  eapply Forall_impl; [exact HF|]. intros [f c] (Hnest & Hch & Hfile).
  simpl in *. split_and!; [done| |].
  - apply Forall_forall. intros p Hp.
    pose proof (proj1 (Forall_forall _ _) Hch p Hp) as Hm.
    destruct (in_chain_removelast _ _ _ Hp) as (a & -> & Ha & _).
    unfold may_be_dir in *. rewrite node_at_app_ne in * by done.
    by rewrite Hsame.
  - unfold may_be_file in *. rewrite Hsame; [done|].
    destruct Hnest as [_ Hl]. intros H. rewrite H in Hl. simpl in Hl. lia.
Qed.

(** ** get_contract_code on an explorer answer *)

Lemma explorer_root_join blockchain contract_address :
  lit "contracts/" ++ blockchain ++ lit "/" ++ contract_address
  = join_with chr_slash (explorer_root blockchain contract_address).
Proof.
  unfold explorer_root. cbn [join_with map concat].
  rewrite app_nil_r.
  change (lit "contracts/") with (lit "contracts" ++ [chr_slash]).
  by rewrite <- app_assoc.
Qed.

Lemma switch_global_version_known `{W : World} version st :
  solc_known version = true ->
  switch_global_version version st = Ok tt (switched version st).
Proof. intros H. unfold switch_global_version. by rewrite H. Qed.

(** Lines 37-60: the answer is fetched, the compiler selected, the staging
    directory made and entered. *)
Lemma get_contract_code_explorer `{W : World} st blockchain contract_address
    code resp :
  falsy code = true ->
  explorer_answers blockchain contract_address resp ->
  status_code resp = 200%Z ->
  solc_known (get_solidity_version (CompilerVersion resp)) = true ->
  stage_ready st (explorer_root blockchain (fstr contract_address)) ->
  get_contract_code (Some blockchain) contract_address code st
  = stage_source (SourceCode resp) (ContractName resp)
      (enter (switched (get_solidity_version (CompilerVersion resp)) st)
             (explorer_root blockchain (fstr contract_address))).
Proof.
  intros Hcode (entry & api_url & api_key & Henv & Hsplit & Hget) Hstatus Hknown Hr.
  unfold get_contract_code. rewrite Hcode.
  erewrite bind_Ok; [|done]. rewrite Henv.
  erewrite bind_Ok; [|done]. rewrite Hsplit.
  erewrite bind_Ok; [|done]. cbv beta iota zeta. rewrite Hget.
  rewrite decide_True by done.
  erewrite bind_Ok; [|by apply switch_global_version_known].
  cbn [fstr]. rewrite explorer_root_join.
  by rewrite stage_root_then.
Qed.

Lemma concat_split_on c s : concat (split_on c s) = filter (fun a => a <> c) s.
Proof.
  induction s as [|a s IH]; [done|]. rewrite filter_cons. cbn [split_on].
  destruct (decide (a = c)) as [->|Hne].
  - rewrite decide_False by (by intros ?). by rewrite <- IH.
  - rewrite decide_True by done. rewrite <- IH.
    pose proof (split_on_ne c s). by destruct (split_on c s).
Qed.

Lemma plain_sol name :
  chr_slash ∉ name -> chr_nul ∉ name -> plain (name ++ lit ".sol").
Proof.
  intros Hs Hn.
  assert (chr_slash ∉ lit ".sol") as Hs' by solve_literal.
  assert (chr_nul ∉ lit ".sol") as Hn' by solve_literal.
  split_and!.
  - by destruct name.
  - intros H. apply (f_equal length) in H. rewrite length_app in H.
    simpl in H. lia.
  - intros H. apply (f_equal length) in H. rewrite length_app in H.
    simpl in H. lia.
  - by apply not_elem_of_app.
  - by apply not_elem_of_app.
Qed.

Lemma stage_ready_switched st root version :
  stage_ready st root -> stage_ready (switched version st) root.
Proof. done. Qed.

(** Lines 63-69: a source that is one file. The file holds four newlines,
    then the pieces of the source between its newlines, written one after
    the other: the source without its newlines. *)
Lemma get_contract_code_single_file `{W : World} st blockchain contract_address
    code resp :
  falsy code = true ->
  explorer_answers blockchain contract_address resp ->
  status_code resp = 200%Z ->
  solc_known (get_solidity_version (CompilerVersion resp)) = true ->
  stage_ready st (explorer_root blockchain (fstr contract_address)) ->
  SourceCode resp <> [] -> head (SourceCode resp) <> Some "{"%char ->
  chr_slash ∉ ContractName resp -> chr_nul ∉ ContractName resp ->
  may_be_file (nodes st)
    (cwd st ++ explorer_root blockchain (fstr contract_address)
     ++ [ContractName resp ++ lit ".sol"]) ->
  get_contract_code (Some blockchain) contract_address code st
  = Ok (Some (ContractName resp ++ lit ".sol"))
       (staged (switched (get_solidity_version (CompilerVersion resp)) st)
          (explorer_root blockchain (fstr contract_address))
          (ContractName resp ++ lit ".sol")
          ([chr_lf; chr_lf; chr_lf; chr_lf]
           ++ filter (fun a => a <> chr_lf) (SourceCode resp))).
Proof.
  intros Hcode Hans Hstatus Hknown Hr Hne Hhead Hs Hn Hfile.
  rewrite (get_contract_code_explorer st _ _ _ resp) by done.
  unfold stage_source. destruct (SourceCode resp) as [|c0 rest] eqn:Hsrc; [done|].
  rewrite decide_True by (intros ->; by apply Hhead).
  cbv zeta. erewrite bind_Ok.
  2:{ apply write_entered; [by apply stage_ready_switched|by apply plain_sol|done]. }
  unfold ret. do 2 f_equal.
  rewrite concat_app, concat_split_on. by simpl.
Qed.

(** Lines 71-100: a source that is a mapping of files. *)
Lemma get_contract_code_multi_file `{W : World} st blockchain contract_address
    code resp code_rest items :
  falsy code = true ->
  explorer_answers blockchain contract_address resp ->
  status_code resp = 200%Z ->
  solc_known (get_solidity_version (CompilerVersion resp)) = true ->
  stage_ready st (explorer_root blockchain (fstr contract_address)) ->
  SourceCode resp = "{"%char :: code_rest ->
  json_loads_sources (removelast code_rest) = inr items ->
  files_fit (nodes st)
    (cwd st ++ explorer_root blockchain (fstr contract_address)) items ->
  let st1 := enter (switched (get_solidity_version (CompilerVersion resp)) st)
               (explorer_root blockchain (fstr contract_address)) in
  get_contract_code (Some blockchain) contract_address code st
  = Ok (Some (find_main_contract (ContractName resp) items []))
       (set_nodes (stage_files (nodes st1) (cwd st1) items) st1)
  /\ fs_wf (stage_files (nodes st1) (cwd st1) items)
  /\ node_at (stage_files (nodes st1) (cwd st1) items) (cwd st1) = Some Dir.
Proof.
  intros Hcode Hans Hstatus Hknown Hr Hsrc Hjson Hfit st1.
  rewrite (get_contract_code_explorer st _ _ _ resp) by done.
  fold st1. unfold stage_source. rewrite Hsrc.
  rewrite decide_False by (by intros ?). cbn [tail]. rewrite Hjson.
  erewrite bind_Ok; [|done]. cbv zeta.
  destruct (enter_facts _ _
              (stage_ready_switched st _
                 (get_solidity_version (CompilerVersion resp)) Hr))
    as [Hwf1 Hcwd1].
  fold st1 in Hwf1, Hcwd1.
  destruct (write_contract_files_staged
              (find_main_contract (ContractName resp) items []) items st1)
    as (Hrun & Hwf' & Hcwd'); [done|done| |].
  { by apply files_fit_enter. }
  split; [|done]. by erewrite bind_Ok.
Qed.

Lemma read_back_staged st root items f c :
  node_at (nodes st) root = Some Dir -> cwd st = root ->
  Forall (fun item => nested_name item.1) items ->
  (forall f f', f ∈ items.*1 -> f' ∈ items.*1 ->
                comps f `prefix_of` comps f' -> f = f') ->
  NoDup items.*1 -> (f, c) ∈ items ->
  node_at (stage_files (nodes st) root items) root = Some Dir ->
  read_back (set_nodes (stage_files (nodes st) root items) st) f = Some c.
Proof.
  intros Hroot Hcwd Hnest Hpre Hnd Hin Hroot'.
  pose proof (proj1 (Forall_forall _ _) Hnest _ Hin) as Hn. simpl in Hn.
  destruct (comps_last f Hn) as (ds & n & Hcs & Hds & HFds & Hpn & Hrl).
  assert (f ∈ items.*1) as Hinf.
  { apply list_elem_of_fmap. by exists (f, c). }
  unfold read_back.
  assert (f = join_with chr_slash (comps f)) as Hf
    by (unfold comps; by rewrite join_with_split).
  rewrite Hf at 1. rewrite resolve_join; [|by rewrite Hcs; destruct ds|by destruct Hn].
  cbn [nodes cwd set_nodes]. rewrite Hcwd.
  rewrite walk_plain; [|by destruct Hn|by rewrite Hcs; destruct ds|done|].
  - rewrite node_at_app_ne by (by rewrite Hcs; destruct ds).
    by rewrite (stage_files_lookup _ _ _ f c).
  - apply Forall_forall. intros p Hp.
    destruct (in_chain_removelast _ _ _ Hp) as (a & -> & Ha & _).
    rewrite node_at_app_ne by done. by apply (stage_files_dirs _ _ _ f).
Qed.

(** Staging a mapping of files that fit, then reading back: every file
    name leads to the content the mapping gave it, and the directories of
    every file name are there. *)
Lemma stage_multi_roundtrip `{W : World} st blockchain contract_address
    code resp code_rest items :
  falsy code = true ->
  explorer_answers blockchain contract_address resp ->
  status_code resp = 200%Z ->
  solc_known (get_solidity_version (CompilerVersion resp)) = true ->
  stage_ready st (explorer_root blockchain (fstr contract_address)) ->
  SourceCode resp = "{"%char :: code_rest ->
  json_loads_sources (removelast code_rest) = inr items ->
  files_fit (nodes st)
    (cwd st ++ explorer_root blockchain (fstr contract_address)) items ->
  NoDup items.*1 ->
  exists st',
    get_contract_code (Some blockchain) contract_address code st
    = Ok (Some (find_main_contract (ContractName resp) items [])) st'
    /\ cwd st' = cwd st ++ explorer_root blockchain (fstr contract_address)
    /\ fs_wf (nodes st')
    /\ node_at (nodes st') (cwd st') = Some Dir
    /\ (forall f c, (f, c) ∈ items -> read_back st' f = Some c)
    /\ (forall f p, f ∈ items.*1 ->
                    p ∈ dir_chain (cwd st') (removelast (comps f)) ->
                    nodes st' !! p = Some Dir).
Proof.
  intros Hcode Hans Hstatus Hknown Hr Hsrc Hjson Hfit Hnd.
  destruct (get_contract_code_multi_file st blockchain contract_address code
              resp code_rest items)
    as (Hrun & Hwf & Hcwd); [done..|].
  eexists. split; [exact Hrun|]. cbn [nodes cwd set_nodes].
  split_and!; [done..| |].
  - intros f c Hin.
    destruct (enter_facts _ _
                (stage_ready_switched st _
                   (get_solidity_version (CompilerVersion resp)) Hr))
      as [_ Hd].
    apply read_back_staged; [done|done| |by destruct Hfit|done|done|done].
    destruct Hfit as [HF _]. eapply Forall_impl; [exact HF|].
    by intros [f' c'] (? & _).
  - intros f p Hin Hp. apply (stage_files_dirs _ _ _ f); [by destruct Hfit|done..].
Qed.

(** ** The main contract *)

Lemma find_main_contract_none name items main_contract :
  (forall f c, (f, c) ∈ items -> str_in (lit "contract " ++ name) c = false) ->
  find_main_contract name items main_contract = main_contract.
Proof.
  revert main_contract. induction items as [|[f c] rest IH];
    intros main_contract Hnone; [done|].
  cbn [find_main_contract]. rewrite (Hnone f c) by (by left).
  apply IH. intros f' c' Hin. apply (Hnone f' c'). by right.
Qed.

Lemma find_main_contract_last name items main_contract i f c :
  items !! i = Some (f, c) ->
  str_in (lit "contract " ++ name) c = true ->
  (forall j f' c', i < j -> items !! j = Some (f', c') ->
                   str_in (lit "contract " ++ name) c' = false) ->
  find_main_contract name items main_contract = f.
Proof.
  revert main_contract i. induction items as [|[f0 c0] rest IH];
    intros main_contract i Hi Hin Hlater; [by rewrite lookup_nil in Hi|].
  cbn [find_main_contract]. destruct i as [|i].
  - injection Hi as -> ->. rewrite Hin. apply find_main_contract_none.
    intros f' c' (j & Hj)%list_elem_of_lookup.
    apply (Hlater (S j) f' c'); [lia|done].
  - assert (forall m, find_main_contract name rest m = f) as Hrest.
    { intros m. apply (IH m i); [done|done|].
      intros j f' c' Hj Hl. apply (Hlater (S j) f' c'); [lia|done]. }
    by destruct (str_in _ c0).
Qed.

(** X21. For a multi-file source whose files fit below the staging
    directory (every name with a directory part): if some file contains
    [contract] followed by the contract name, [get_contract_code] returns
    the name of the last such file of the mapping; if none does, it returns
    the empty name, and the route answers [Unable to retrieve contract code]
    with status 400 instead of raising. *)
Theorem get_contract_code_main_contract `{W : World} (st : state)
    (blockchain contract_address : str) (resp : response) (code_rest : str)
    (items : list (str * str)) :
  explorer_answers blockchain (Some contract_address) resp ->
  status_code resp = 200%Z ->
  solc_known (get_solidity_version (CompilerVersion resp)) = true ->
  SourceCode resp = "{"%char :: code_rest ->
  json_loads_sources (removelast code_rest) = inr items ->
  stage_ready st (explorer_root blockchain contract_address) ->
  files_fit (nodes st) (cwd st ++ explorer_root blockchain contract_address) items ->
  let needle := lit "contract " ++ ContractName resp in
  (forall i f c,
      items !! i = Some (f, c) -> str_in needle c = true ->
      (forall j f' c', i < j -> items !! j = Some (f', c') ->
                       str_in needle c' = false) ->
      exists st',
        get_contract_code (Some blockchain) (Some contract_address) None st
        = Ok (Some f) st')
  /\ ((forall f c, (f, c) ∈ items -> str_in needle c = false) ->
      exists st',
        get_contract_code (Some blockchain) (Some contract_address) None st
        = Ok (Some []) st'
        /\ forall code,
             analyze_contract
               (Request (Some blockchain) (Some contract_address) code) st
             = Ok (ErrorBody (lit "Unable to retrieve contract code"), 400%Z) st').
Proof.
  intros Hans Hstatus Hknown Hsrc Hjson Hr Hfit needle.
  destruct (get_contract_code_multi_file st blockchain (Some contract_address)
              None resp code_rest items)
    as (Hrun & _); [done..|].
  split.
  - intros i f c Hi Hin Hlater. eexists. rewrite Hrun.
    by rewrite (find_main_contract_last _ _ _ i f c).
  - intros Hnone. rewrite find_main_contract_none in Hrun by done.
    eexists. split; [exact Hrun|]. intros code.
    destruct Hr as (_ & _ & _ & HF & _).
    apply Forall_cons in HF as [_ HF]. apply Forall_cons in HF as [[Hb _] HF].
    apply Forall_cons in HF as [[Ha _] _].
    unfold analyze_contract. cbn [arg_blockchain arg_contract arg_code].
    assert (falsy (Some blockchain) = false) as -> by (by destruct blockchain).
    assert (falsy (Some contract_address) = false) as ->
      by (by destruct contract_address).
    cbn [orb]. erewrite bind_Ok; [|exact Hrun]. done.
Qed.

Lemma explorer_answers_sample resp sources results :
  explorer_answers (W := sample_world resp sources results)
    (lit "ethereum") (Some (lit "0xabc")) resp.
Proof. by exists (lit "api.etherscan.io,KEY"), (lit "api.etherscan.io"), (lit "KEY"). Qed.

Lemma stage_ready_sample_explorer :
  stage_ready sample_state (explorer_root (lit "ethereum") (lit "0xabc")).
Proof.
  split_and!.
  - apply fs_wf_sample.
  - done.
  - done.
  - unfold explorer_root. solve_plain.
  - repeat constructor; by left.
Qed.

Lemma files_fit_sample :
  files_fit (nodes sample_state)
    (cwd sample_state ++ explorer_root (lit "ethereum") (lit "0xabc"))
    sample_sources.
Proof.
  split.
  - repeat apply Forall_cons_2; try apply Forall_nil_2;
      (split_and!;
       [ split; [unfold comps; vm_compute split_on; solve_plain
                | vm_compute; lia]
       | repeat constructor; by left
       | by left ]).
  - intros f f' Hf Hf'.
    assert (Forall (fun f => Forall (fun f' => comps f `prefix_of` comps f' -> f = f')
                                    sample_sources.*1) sample_sources.*1) as H
      by (apply (bool_decide_unpack _); vm_compute; exact I).
    by apply (proj1 (Forall_forall _ _) (proj1 (Forall_forall _ _) H f Hf) f' Hf').
Qed.

Lemma get_contract_code_main_contract_witness :
  (exists st',
      get_contract_code (W := sample_world (multi_response "Vault") sample_sources [])
        (Some (lit "ethereum")) (Some (lit "0xabc")) None sample_state
      = Ok (Some (lit "contracts/VaultV2.sol")) st')
  /\ (exists st',
      get_contract_code (W := sample_world (multi_response "Token") sample_sources [])
        (Some (lit "ethereum")) (Some (lit "0xabc")) None sample_state
      = Ok (Some []) st'
      /\ forall code,
           analyze_contract (W := sample_world (multi_response "Token") sample_sources [])
             (Request (Some (lit "ethereum")) (Some (lit "0xabc")) code) sample_state
           = Ok (ErrorBody (lit "Unable to retrieve contract code"), 400%Z) st').
Proof.
  split.
  - apply (proj1 (get_contract_code_main_contract
                    (W := sample_world (multi_response "Vault") sample_sources [])
                    sample_state (lit "ethereum") (lit "0xabc")
                    (multi_response "Vault") (lit "{...}}") sample_sources
                    (explorer_answers_sample _ _ _) eq_refl eq_refl eq_refl eq_refl
                    stage_ready_sample_explorer files_fit_sample)
             2 (lit "contracts/VaultV2.sol") (lit "contract VaultV2 is Vault {}")).
    + reflexivity.
    + reflexivity.
    + intros [|[|[|j]]] f' c' Hj Hl; try lia.
      unfold sample_sources in Hl. cbn in Hl. by destruct j.
  - apply (proj2 (get_contract_code_main_contract
                    (W := sample_world (multi_response "Token") sample_sources [])
                    sample_state (lit "ethereum") (lit "0xabc")
                    (multi_response "Token") (lit "{...}}") sample_sources
                    (explorer_answers_sample _ _ _) eq_refl eq_refl eq_refl eq_refl
                    stage_ready_sample_explorer files_fit_sample)).
    intros f c Hin.
    assert (Forall (fun item : str * str =>
                      str_in (lit "contract " ++ lit "Token") item.2 = false)
                   sample_sources) as H
      by (repeat constructor).
    apply (proj1 (Forall_forall _ _) H (f, c) Hin).
Defined.

(** ** The route on submitted code, end to end *)

(** A request with code only, whose pragma gives a version the selector
    knows and whose analysis returns: the answer is the list of normalized
    findings, and the working directory is the one before the request. *)
Lemma analyze_contract_submitted_code `{W : World} (st : state) (req : request)
    (encoded code version : str) (results : list (list dict))
    (filtered_results : list dict) :
  falsy (arg_blockchain req) || falsy (arg_contract req) = true ->
  arg_code req = Some encoded -> encoded <> [] ->
  b64decode_utf8 encoded = Some code -> code <> [] ->
  stage_ready st raw_root ->
  may_be_file (nodes st) (cwd st ++ raw_root ++ [lit "contract.sol"]) ->
  scan_pragma (read_lines code) [] = inr version ->
  solc_known version = true ->
  slither_run_detectors
    (switched version
       (staged (add_event (Stdout code) (add_event (Stdout encoded) st))
               raw_root (lit "contract.sol") code))
    (lit "contract.sol") = Some results ->
  filter_results results [] = inr filtered_results ->
  exists st',
    analyze_contract req st = Ok (ResultBody filtered_results, 200%Z) st'
    /\ cwd st' = cwd st
    /\ fs_wf (nodes st').
Proof.
  intros Hid Hc Hne Hdec Hcode Hr Hfile Hscan Hknown Hrun Hfilter.
  set (st0 := add_event (Stdout code) (add_event (Stdout encoded) st)) in *.
  assert (stage_ready st0 raw_root) as Hr0 by done.
  assert (plain (lit "contract.sol")) as Hp by solve_plain.
  destruct (staged_facts st0 raw_root (lit "contract.sol") code Hr0 Hp Hfile)
    as (Hwf & Hcwd & Hd & _).
  set (st1 := switched version (staged st0 raw_root (lit "contract.sol") code)) in *.
  destruct (delete_contract_directory_effect st1)
    as (st' & Hdel & Hup & _ & _ & Hwf' & _).
  { done. }
  { unfold st1. cbn [nodes cwd switched set_solc add_event]. by rewrite Hcwd. }
  exists st'. split_and!; [| |done].
  2:{ rewrite Hup. unfold st1. cbn [cwd switched set_solc add_event].
      rewrite Hcwd. apply parent_three. }
  unfold analyze_contract. rewrite Hid, Hc.
  assert (falsy (Some encoded) = false) as -> by (by destruct encoded).
  cbn [negb fstr]. erewrite bind_Ok; [|done]. rewrite Hdec.
  erewrite bind_Ok; [|done]. erewrite bind_Ok; [|done].
  erewrite bind_Ok.
  2:{ rewrite get_contract_code_raw by done. rewrite Hscan.
      erewrite bind_Ok; [|done].
      erewrite bind_Ok; [|by apply switch_global_version_known]. done. }
  change (falsy (Some (lit "contract.sol"))) with false. cbn [fstr].
  erewrite bind_Ok.
  2:{ unfold analyze_contract_code. erewrite bind_Ok; [|done].
      fold st0 st1. rewrite Hrun. erewrite bind_Ok; [|done].
      by rewrite Hfilter. }
  by erewrite bind_Ok.
Qed.

(** ** Where the code departs from its specification *)

(** C1. The single-file source of two lines, [// SPDX-License-Identifier:
    MIT] and [contract Token {}], is staged as one file, [Token.sol], whose
    name is returned; but the file holds, after the four newlines, the two
    lines with nothing between them, not the source as it was: the line
    structure is lost. *)
Theorem get_contract_code_single_file_joins_lines :
  let run := get_contract_code (W := sample_world single_response [] [])
               (Some (lit "ethereum")) (Some (lit "0xabc")) None sample_state in
  returns run (Some (lit "Token.sol"))
  /\ read_back (outcome_state run) (lit "Token.sol")
     = Some ([chr_lf; chr_lf; chr_lf; chr_lf]
             ++ lit "// SPDX-License-Identifier: MITcontract Token {}")
  /\ read_back (outcome_state run) (lit "Token.sol")
     <> Some ([chr_lf; chr_lf; chr_lf; chr_lf] ++ sample_single_code).
Proof.
  split_and!; vm_compute; first [reflexivity | discriminate].
Qed.

(** C2. A multi-file source whose file lies at the top of the tree,
    [Token.sol], is not staged: the directory part of the name is empty,
    [os.makedirs] of the empty name raises, and the file is not written. *)
Theorem get_contract_code_top_level_file_raises :
  let run := get_contract_code
               (W := sample_world (multi_response "Token") top_level_sources [])
               (Some (lit "ethereum")) (Some (lit "0xabc")) None sample_state in
  raises run FileNotFoundError
  /\ read_back (outcome_state run) (lit "Token.sol") = None.
Proof.
  split_and!; vm_compute; reflexivity.
Qed.

(** C3. A multi-file source whose one file, [Token.sol], lies at the top of
    the tree and contains [contract Token]: the scan for the main contract
    finds the file, but [get_contract_code] does not return its name; it
    raises [FileNotFoundError] when it comes to write the file, and the
    route raises with it. *)
Theorem get_contract_code_main_contract_top_level :
  let W := sample_world (multi_response "Token") top_level_sources [] in
  let run := get_contract_code (W := W)
               (Some (lit "ethereum")) (Some (lit "0xabc")) None sample_state in
  str_in (lit "contract " ++ ContractName (multi_response "Token"))
         (lit "contract Token {}") = true
  /\ find_main_contract (ContractName (multi_response "Token"))
       top_level_sources [] = lit "Token.sol"
  /\ ~ returns run (Some (lit "Token.sol"))
  /\ raises run FileNotFoundError
  /\ raises (analyze_contract (W := W)
               (Request (Some (lit "ethereum")) (Some (lit "0xabc")) None)
               sample_state)
            FileNotFoundError.
Proof.
  split_and!; vm_compute; first [reflexivity | by intros ?].
Qed.

(** C4. When no file of a multi-file source contains the contract name, the
    route answers [Unable to retrieve contract code] with status 400 and
    without teardown: the working directory stays in the staging directory,
    and the staged files stay on disk. *)
Theorem analyze_contract_entry_not_found_leaks :
  let run := analyze_contract
               (W := sample_world (multi_response "Token") sample_sources [])
               (Request (Some (lit "ethereum")) (Some (lit "0xabc")) None)
               sample_state in
  returns run (ErrorBody (lit "Unable to retrieve contract code"), 400%Z)
  /\ cwd (outcome_state run)
     = cwd sample_state ++ explorer_root (lit "ethereum") (lit "0xabc")
  /\ cwd (outcome_state run) <> cwd sample_state
  /\ read_back (outcome_state run) (lit "contracts/Vault.sol")
     = Some (lit "import './lib/Math.sol'; contract Vault {}")
  /\ events (outcome_state run) = [SwitchGlobalVersion (lit "0.8.19")].
Proof.
  split_and!; vm_compute; first [reflexivity | discriminate].
Qed.

(** * Further properties of the code *)

(** ** get_solidity_version: shape and round trip *)

(** X1. Whatever the compiler-version string, [get_solidity_version]
    returns the empty string or a well-formed [major.minor.patch] that
    stands in the string right after a [v]. *)
Theorem get_solidity_version_shape (compiler_version : str) :
  get_solidity_version compiler_version = []
  \/ (version3 (get_solidity_version compiler_version)
      /\ exists pre rest,
           compiler_version
           = pre ++ "v"%char :: get_solidity_version compiler_version ++ rest).
Proof.
  unfold get_solidity_version.
  destruct (re_search rx_v_version compiler_version) as [ws|] eqn:Hs; [|by left].
  right. destruct (re_search_v_version_Some _ _ Hs) as (i & rest & Hd & Hv & _).
  split; [done|]. exists (take i compiler_version), rest.
  by rewrite <- Hd, take_drop.
Qed.

Lemma digits_run_unique (a a' x x' : str) :
  forallb is_digit a = true -> forallb is_digit a' = true ->
  no_digit_next x -> no_digit_next x' ->
  a ++ x = a' ++ x' -> a = a' /\ x = x'.
Proof.
  revert a'. induction a as [|c a IH]; intros a' Ha Ha' Hx Hx' Heq.
  - destruct a' as [|c' a']; [done|]. simpl in *. subst x.
    apply andb_prop in Ha' as [Hc' _]. simpl in Hx. congruence.
  - destruct a' as [|c' a'].
    + simpl in *. subst x'. apply andb_prop in Ha as [Hc _]. simpl in Hx'.
      congruence.
    + simpl in *. injection Heq as <- Heq.
      apply andb_prop in Ha as [_ Ha]. apply andb_prop in Ha' as [_ Ha'].
      destruct (IH a' Ha Ha' Hx Hx' Heq) as [-> ->]. done.
Qed.

(** A three-component version followed by no digit is read in one way. *)
Lemma version3_unique (m m' rest rest' : str) :
  version3 m -> version3 m' -> no_digit_next rest -> no_digit_next rest' ->
  m ++ rest = m' ++ rest' -> m = m'.
Proof.
  intros (a & b & c & [_ Ha] & [_ Hb] & [_ Hc] & ->)
         (a' & b' & c' & [_ Ha'] & [_ Hb'] & [_ Hc'] & ->) Hr Hr' Heq.
  rewrite <- !app_assoc in Heq. simpl in Heq.
  rewrite <- !app_assoc in Heq. simpl in Heq.
  apply digits_run_unique in Heq as [-> Heq]; [|done..].
  injection Heq as Heq.
  apply digits_run_unique in Heq as [-> Heq]; [|done..].
  injection Heq as Heq.
  apply digits_run_unique in Heq as [-> _]; done.
Qed.

(** X2. Writing a version behind a [v] and reading it back: for every
    well-formed version [m], text [pre] without a [v], and continuation
    [rest] that does not go on with a digit, [get_solidity_version] of
    [pre ++ "v" ++ m ++ rest] is [m]. *)
Theorem get_solidity_version_round_trip (pre m rest : str) :
  "v"%char ∉ pre -> version3 m -> no_digit_next rest ->
  get_solidity_version (pre ++ "v"%char :: m ++ rest) = m.
Proof.
  intros Hpre Hm Hrest. unfold get_solidity_version.
  set (s := pre ++ "v"%char :: m ++ rest).
  assert (v_version_at s (length pre)) as Hat.
  { exists m, rest. unfold s. by rewrite drop_app_length. }
  destruct (re_search rx_v_version s) as [ws|] eqn:Hs;
    [|by destruct (re_search_v_version_None _ Hs (length pre))].
  destruct (re_search_v_version_Some _ _ Hs) as (i & rest' & Hd & Hv & Hn & Hmin).
  assert (i = length pre) as ->.
  { destruct (lt_eq_lt_dec i (length pre)) as [[Hlt|?]|?]; [|done|].
    - destruct Hpre. unfold s in Hd. rewrite drop_app_le in Hd by lia.
      assert (drop i pre !! 0 = Some "v"%char) as Hl.
      { destruct (drop i pre) as [|c t] eqn:E.
        - apply (f_equal length) in E. rewrite length_drop in E. simpl in E. lia.
        - simpl in Hd. by injection Hd as ->. }
      rewrite lookup_drop in Hl. by eapply list_elem_of_lookup_2.
    - by destruct (Hmin (length pre)). }
  unfold s in Hd. rewrite drop_app_length in Hd. injection Hd as Hd.
  symmetry. exact (version3_unique _ _ _ _ Hm Hv Hrest Hn Hd).
Qed.

Lemma get_solidity_version_round_trip_witness :
  get_solidity_version
    (lit "solc-" ++ "v"%char :: lit "0.8.19" ++ lit "+commit.7dd6d404")
  = lit "0.8.19".
Proof.
  apply (get_solidity_version_round_trip (lit "solc-") (lit "0.8.19")
           (lit "+commit.7dd6d404")).
  - vm_compute. intros H. repeat (apply elem_of_cons in H as [H|H]; [discriminate H|]).
    by apply elem_of_nil in H.
  - exists (lit "0"), (lit "8"), (lit "19"). by repeat split.
  - reflexivity.
Defined.

(** ** find_main_contract *)

(** X3. Whatever the mapping, the scan for the main contract gives either
    the name of a file of the mapping whose content contains [contract]
    followed by the contract name, or, no file of the mapping containing it,
    the name it started with (the empty name in [get_contract_code]). *)
Theorem find_main_contract_sound (contract_name : str)
    (items : list (str * str)) (main_contract : str) :
  (exists c, (find_main_contract contract_name items main_contract, c) ∈ items
             /\ str_in (lit "contract " ++ contract_name) c = true)
  \/ (find_main_contract contract_name items main_contract = main_contract
      /\ forall f c, (f, c) ∈ items ->
                     str_in (lit "contract " ++ contract_name) c = false).
Proof.
  revert main_contract.
  induction items as [|[f c] items IH]; intros main_contract.
  - right. split; [done|]. intros f c H. by apply elem_of_nil in H.
  - cbn [find_main_contract].
    destruct (str_in (lit "contract " ++ contract_name) c) eqn:Hc.
    + destruct (IH f) as [(c' & Hin & Hc')|[Heq Hnone]].
      * left. exists c'. split; [by apply list_elem_of_further|done].
      * left. exists c. rewrite Heq. split; [by apply list_elem_of_here|done].
    + destruct (IH main_contract) as [(c' & Hin & Hc')|[Heq Hnone]].
      * left. exists c'. split; [by apply list_elem_of_further|done].
      * right. split; [done|]. intros f' c' [[= -> ->]|Hin]%elem_of_cons; [done|].
        by eapply Hnone.
Qed.

(** X4. The scan looks for a substring, not for a declaration: a file that
    declares a contract whose name only starts with the contract name (as
    [VaultV2] for [Vault]) counts, and standing last in the mapping it is
    the file returned, whatever the files before it. *)
Theorem find_main_contract_longer_name (contract_name suffix : str)
    (items : list (str * str)) (file_name pre post main_contract : str) :
  find_main_contract contract_name
    (items ++ [(file_name,
                pre ++ lit "contract " ++ contract_name ++ suffix ++ post)])
    main_contract
  = file_name.
Proof.
  apply (find_main_contract_last _ _ _ (length items) file_name
           (pre ++ lit "contract " ++ contract_name ++ suffix ++ post)).
  - by rewrite lookup_app_r, Nat.sub_diag by lia.
  - apply str_in_spec. exists pre, (suffix ++ post).
    by rewrite <- !app_assoc.
  - intros j f' c' Hj Hl. apply lookup_lt_Some in Hl.
    rewrite length_app in Hl. simpl in Hl. lia.
Qed.

(** ** analyze_contract_code: findings that lack a key, and grouping *)

Lemma dict_get_error d k e : dict_get d k = inl e -> e = KeyError.
Proof.
  induction d as [|[k' v] d IH]; simpl; [congruence|].
  destruct (decide (k' = k)); [done|auto].
Qed.

Lemma filter_issue_error issue e : filter_issue issue = inl e -> e = KeyError.
Proof.
  unfold filter_issue.
  destruct (dict_get issue (lit "check")) eqn:H1;
    [intros [= <-]; by eapply dict_get_error|].
  destruct (dict_get issue (lit "description")) eqn:H2;
    [intros [= <-]; by eapply dict_get_error|].
  destruct (dict_get issue (lit "impact")) eqn:H3;
    [intros [= <-]; by eapply dict_get_error|].
  destruct (dict_get issue (lit "confidence")) eqn:H4;
    [intros [= <-]; by eapply dict_get_error|done].
Qed.

Lemma filter_issue_lacks issue : lacks_key issue -> filter_issue issue = inl KeyError.
Proof.
  intros H. destruct (filter_issue issue) as [e|out] eqn:Hf.
  - by rewrite (filter_issue_error _ _ Hf).
  - exfalso. unfold filter_issue in Hf. unfold lacks_key, issue_keys in H.
    rewrite !Exists_cons, Exists_nil in H.
    destruct (dict_get issue (lit "check")); [done|].
    destruct (dict_get issue (lit "description")); [done|].
    destruct (dict_get issue (lit "impact")); [done|].
    destruct (dict_get issue (lit "confidence")); [done|].
    by destruct H as [?|[?|[?|[?|[]]]]].
Qed.

Lemma filter_result_lacks result acc :
  Exists lacks_key result -> filter_result result acc = inl KeyError.
Proof.
  revert acc. induction result as [|issue result IH]; intros acc H.
  - by apply Exists_nil in H.
  - cbn [filter_result]. destruct (filter_issue issue) as [e|out] eqn:Hf.
    + by rewrite (filter_issue_error _ _ Hf).
    + apply Exists_cons in H as [H|H]; [|by apply IH].
      by rewrite (filter_issue_lacks _ H) in Hf.
Qed.

(** The two loops are one loop over the findings of all the groups. *)
Lemma filter_results_concat results acc :
  filter_results results acc = filter_result (concat results) acc.
Proof.
  revert acc. induction results as [|result results IH]; intros acc; [done|].
  cbn [filter_results concat].
  assert (forall r a, filter_result (r ++ concat results) a
                      = match filter_result r a with
                        | inl e => inl e
                        | inr a' => filter_result (concat results) a'
                        end) as Happ.
  { induction r as [|i r IHr]; intros a; [done|]. cbn [app filter_result].
    destruct (filter_issue i); [done|]. apply IHr. }
  rewrite Happ. destruct (decide (result <> [])) as [Hne|He].
  - destruct (filter_result result acc); [done|]. apply IH.
  - apply dec_stable in He. subst result. simpl. apply IH.
Qed.

(** X5. A finding without one of the four keys stops the whole analysis:
    if some finding of some group lacks [check], [description], [impact] or
    [confidence], [analyze_contract_code] raises [KeyError] and returns no
    record at all, also none of the findings before it. *)
Theorem analyze_contract_code_missing_key `{W : World} (st : state)
    (contract : str) (results : list (list dict)) :
  slither_run_detectors st contract = Some results ->
  Exists (Exists lacks_key) results ->
  analyze_contract_code contract st = Raise KeyError st.
Proof.
  intros Hrun Hex. unfold analyze_contract_code.
  cbv [get_state mbind M_bind bind]. rewrite Hrun. cbv [ret].
  rewrite filter_results_concat, (filter_result_lacks (concat results)); [done|].
  apply Exists_exists in Hex as (g & Hg & Hx).
  apply Exists_exists in Hx as (i & Hi & Hl).
  apply Exists_exists. exists i. split; [|done].
  apply list_elem_of_In, in_concat. exists g. by rewrite <- !list_elem_of_In.
Qed.

Lemma analyze_contract_code_missing_key_witness :
  analyze_contract_code
    (W := sample_world no_response [] [[sample_issue]; []; [sample_issue_short]])
    (lit "contract.sol") sample_state
  = Raise KeyError sample_state.
Proof.
  apply (analyze_contract_code_missing_key
           (W := sample_world no_response [] [[sample_issue]; []; [sample_issue_short]])
           sample_state (lit "contract.sol")
           [[sample_issue]; []; [sample_issue_short]]).
  - reflexivity.
  - apply Exists_cons_tl, Exists_cons_tl, Exists_cons_hd, Exists_cons_hd.
    apply Exists_cons_tl, Exists_cons_hd. reflexivity.
Defined.

(** X6. The grouping of the findings by detector does not show in the
    answer: two runs of the engine whose groups hold the same findings in
    the same order give the same records, or fail alike, however the
    findings are spread over the groups. *)
Theorem analyze_contract_code_grouping `{W : World} (st st' : state)
    (contract contract' : str) (results results' : list (list dict)) :
  slither_run_detectors st contract = Some results ->
  slither_run_detectors st' contract' = Some results' ->
  concat results = concat results' ->
  (forall out, returns (analyze_contract_code contract st) out
               <-> returns (analyze_contract_code contract' st') out)
  /\ (forall e, raises (analyze_contract_code contract st) e
                <-> raises (analyze_contract_code contract' st') e).
Proof.
  intros Hrun Hrun' Heq. unfold analyze_contract_code.
  cbv [get_state mbind M_bind bind]. rewrite Hrun, Hrun'. cbv [ret].
  rewrite !filter_results_concat, Heq.
  by destruct (filter_result (concat results') []) as [e|out].
Qed.

Lemma analyze_contract_code_grouping_witness :
  (forall out,
      returns (analyze_contract_code (W := regrouping_world) (lit "a.sol")
                 sample_state) out
      <-> returns (analyze_contract_code (W := regrouping_world) (lit "b.sol")
                     sample_state) out)
  /\ (forall e,
      raises (analyze_contract_code (W := regrouping_world) (lit "a.sol")
                sample_state) e
      <-> raises (analyze_contract_code (W := regrouping_world) (lit "b.sol")
                    sample_state) e).
Proof.
  apply (analyze_contract_code_grouping (W := regrouping_world)
           sample_state sample_state (lit "a.sol") (lit "b.sol")
           [[sample_issue; sample_issue_2]]
           [[sample_issue]; []; [sample_issue_2]]); reflexivity.
Defined.

(** ** The explorer path: what goes wrong before and after staging *)

(** X7. When the explorer answers with a status other than 200,
    [get_contract_code] prints one line and returns [None], and the route
    answers [Unable to retrieve contract code] with status 400, whatever
    [code] the request carries beside its two identifiers; nothing is
    staged, the compiler selector is not called, the working directory is
    where it was. *)
Theorem analyze_contract_explorer_unavailable `{W : World} (st : state)
    (blockchain contract_address : str) (code : option str) (resp : response) :
  blockchain <> [] -> contract_address <> [] ->
  explorer_answers blockchain (Some contract_address) resp ->
  status_code resp <> 200%Z ->
  let st' := add_event (Stdout (lit "Error: Unable to retrieve contract code")) st in
  get_contract_code (Some blockchain) (Some contract_address) None st = Ok None st'
  /\ analyze_contract (Request (Some blockchain) (Some contract_address) code) st
     = Ok (ErrorBody (lit "Unable to retrieve contract code"), 400%Z) st'.
Proof.
  intros Hb Ha (entry & api_url & api_key & Henv & Hsplit & Hget) Hstatus st'.
  assert (get_contract_code (Some blockchain) (Some contract_address) None st
          = Ok None st') as Hrun.
  { unfold get_contract_code. cbn [falsy].
    erewrite bind_Ok; [|done]. rewrite Henv.
    erewrite bind_Ok; [|done]. rewrite Hsplit.
    erewrite bind_Ok; [|done]. cbv beta iota zeta. rewrite Hget.
    by rewrite decide_False by done. }
  split; [done|]. unfold analyze_contract.
  cbn [arg_blockchain arg_contract arg_code falsy].
  destruct blockchain as [|b0 b]; [done|].
  destruct contract_address as [|a0 a]; [done|]. cbn [orb].
  by erewrite bind_Ok by exact Hrun.
Qed.

Lemma analyze_contract_explorer_unavailable_witness :
  get_contract_code (W := sample_world no_response [] [])
    (Some (lit "ethereum")) (Some (lit "0xabc")) None sample_state
  = Ok None
       (add_event (Stdout (lit "Error: Unable to retrieve contract code"))
                  sample_state)
  /\ analyze_contract (W := sample_world no_response [] [])
       (Request (Some (lit "ethereum")) (Some (lit "0xabc"))
                (Some (lit "cHJhZ21hIHNvbGlkaXR5IF4wLjguMTA7")))
       sample_state
     = Ok (ErrorBody (lit "Unable to retrieve contract code"), 400%Z)
          (add_event (Stdout (lit "Error: Unable to retrieve contract code"))
                     sample_state).
Proof.
  apply (analyze_contract_explorer_unavailable
           (W := sample_world no_response [] []) sample_state
           (lit "ethereum") (lit "0xabc")
           (Some (lit "cHJhZ21hIHNvbGlkaXR5IF4wLjguMTA7")) no_response).
  - discriminate.
  - discriminate.
  - apply explorer_answers_sample.
  - discriminate.
Defined.

Lemma length_split_on c s :
  length (split_on c s) = S (length (filter (fun a => a = c) s)).
Proof.
  induction s as [|a s IH]; [done|]. rewrite filter_cons. cbn [split_on].
  destruct (decide (a = c)) as [->|Hne]; simpl.
  - by rewrite IH.
  - pose proof (split_on_ne c s). destruct (split_on c s); [done|].
    simpl in *. lia.
Qed.

(** X8. A request for a blockchain the environment does not configure, or
    configures with an entry that has not exactly one comma, gets no answer:
    the route raises [KeyError], or [ValueError], before the explorer is
    asked and before anything is staged; the state is the one before the
    request. *)
Theorem analyze_contract_unconfigured_blockchain `{W : World} (st : state)
    (blockchain contract_address : str) (code : option str) :
  blockchain <> [] -> contract_address <> [] ->
  let req := Request (Some blockchain) (Some contract_address) code in
  (environ_upper blockchain = None -> analyze_contract req st = Raise KeyError st)
  /\ (forall entry,
        environ_upper blockchain = Some entry -> commas entry <> 1 ->
        analyze_contract req st = Raise ValueError st).
Proof.
  intros Hb Ha req. unfold req, analyze_contract.
  cbn [arg_blockchain arg_contract arg_code falsy].
  destruct blockchain as [|b0 b]; [done|].
  destruct contract_address as [|a0 a]; [done|]. cbn [orb].
  split.
  - intros Henv. erewrite bind_Raise; [done|].
    unfold get_contract_code. cbn [falsy].
    erewrite bind_Ok; [|done]. rewrite Henv. by erewrite bind_Raise.
  - intros entry Henv Hc. erewrite bind_Raise; [done|].
    unfold get_contract_code. cbn [falsy].
    erewrite bind_Ok; [|done]. rewrite Henv.
    erewrite bind_Ok; [|done].
    pose proof (length_split_on ","%char entry) as Hlen.
    fold (commas entry) in Hlen.
    destruct (split_on ","%char entry) as [|u [|k [|x l]]] eqn:Hs;
      simpl in Hlen; try (by erewrite bind_Raise).
    lia.
Qed.

Lemma analyze_contract_unconfigured_blockchain_witness :
  analyze_contract (W := sample_world single_response [] [])
    (Request (Some (lit "polygon")) (Some (lit "0xabc")) None) sample_state
  = Raise KeyError sample_state.
Proof.
  apply (analyze_contract_unconfigured_blockchain
           (W := sample_world single_response [] []) sample_state
           (lit "polygon") (lit "0xabc") None).
  - discriminate.
  - discriminate.
  - reflexivity.
Defined.

(** X9. When the compiler selector does not know the version read from
    the explorer's answer (the empty version, when the answer names none),
    [get_contract_code] raises the selector's error right after asking it:
    no directory is made, no file written, and the working directory and
    the current compiler are the ones from before. *)
Theorem get_contract_code_unknown_compiler `{W : World} (st : state)
    (blockchain : str) (contract_address code : option str) (resp : response) :
  falsy code = true ->
  explorer_answers blockchain contract_address resp ->
  status_code resp = 200%Z ->
  solc_known (get_solidity_version (CompilerVersion resp)) = false ->
  get_contract_code (Some blockchain) contract_address code st
  = Raise ArgumentTypeError
      (add_event (SwitchGlobalVersion (get_solidity_version (CompilerVersion resp)))
                 st).
Proof.
  intros Hcode (entry & api_url & api_key & Henv & Hsplit & Hget) Hstatus Hknown.
  unfold get_contract_code. rewrite Hcode.
  erewrite bind_Ok; [|done]. rewrite Henv.
  erewrite bind_Ok; [|done]. rewrite Hsplit.
  erewrite bind_Ok; [|done]. cbv beta iota zeta. rewrite Hget.
  rewrite decide_True by done.
  erewrite bind_Raise; [done|]. unfold switch_global_version. by rewrite Hknown.
Qed.

Lemma get_contract_code_unknown_compiler_witness :
  get_contract_code (W := sample_world vyper_response [] [])
    (Some (lit "ethereum")) (Some (lit "0xabc")) None sample_state
  = Raise ArgumentTypeError (add_event (SwitchGlobalVersion []) sample_state).
Proof.
  apply (get_contract_code_unknown_compiler
           (W := sample_world vyper_response [] []) sample_state
           (lit "ethereum") (Some (lit "0xabc")) None vyper_response).
  - reflexivity.
  - apply explorer_answers_sample.
  - reflexivity.
  - reflexivity.
Defined.

(** X10. When the explorer answers with status 200 and a source that
    cannot be staged, an empty source (as for a contract that is not
    verified) or a payload from which the files cannot be read,
    [get_contract_code] raises [IndexError], or the exception that reading
    the payload raises (the decoder's, or [KeyError] for a payload without
    [sources]), only after the compiler is selected and the staging
    directory made and entered: the working directory is left three levels
    down, with no file in it from this call. *)
Theorem get_contract_code_unreadable_source `{W : World} (st : state)
    (blockchain : str) (contract_address code : option str) (resp : response) :
  falsy code = true ->
  explorer_answers blockchain contract_address resp ->
  status_code resp = 200%Z ->
  solc_known (get_solidity_version (CompilerVersion resp)) = true ->
  stage_ready st (explorer_root blockchain (fstr contract_address)) ->
  let st1 := enter (switched (get_solidity_version (CompilerVersion resp)) st)
               (explorer_root blockchain (fstr contract_address)) in
  let run := get_contract_code (Some blockchain) contract_address code st in
  cwd st1 = cwd st ++ [lit "contracts"; blockchain; fstr contract_address]
  /\ (SourceCode resp = [] -> run = Raise IndexError st1)
  /\ (forall code_rest e,
        SourceCode resp = "{"%char :: code_rest ->
        json_loads_sources (removelast code_rest) = inl e ->
        run = Raise e st1).
Proof.
  intros Hcode Hans Hstatus Hknown Hr st1 run. unfold run.
  rewrite (get_contract_code_explorer st blockchain contract_address code resp)
    by done.
  fold st1. split; [done|]. split.
  - by intros ->.
  - intros code_rest e -> Hj. unfold stage_source.
    rewrite decide_False by (by intros ?). cbn [tail].
    rewrite Hj. by erewrite bind_Raise.
Qed.

Lemma get_contract_code_unreadable_source_witness :
  raises (get_contract_code (W := sample_world unverified_response [] [])
            (Some (lit "ethereum")) (Some (lit "0xabc")) None sample_state)
         IndexError.
Proof.
  pose proof (get_contract_code_unreadable_source
                (W := sample_world unverified_response [] []) sample_state
                (lit "ethereum") (Some (lit "0xabc")) None unverified_response
                eq_refl (explorer_answers_sample _ _ _) eq_refl eq_refl
                stage_ready_sample_explorer) as (_ & H & _).
  by rewrite (H eq_refl).
Defined.

(** ** Staging: what is on disk afterwards *)

Lemma read_back_name st name content :
  plain name -> node_at (nodes st) (cwd st) = Some Dir ->
  nodes st !! (cwd st ++ [name]) = Some (File content) ->
  read_back st name = Some content.
Proof.
  intros Hn Hcwd Hf. unfold read_back.
  rewrite <- (join_with_singleton chr_slash name) at 1.
  rewrite resolve_join by (done || by constructor).
  rewrite walk_plain by (done || by constructor).
  by rewrite node_at_snoc, Hf.
Qed.

Lemma under_dir_chain (cur p : path) c cs :
  p ∈ dir_chain cur (c :: cs) -> under (cur ++ [c]) p.
Proof.
  intros (a & b & Heq & Hne & ->)%elem_of_dir_chain.
  destruct a as [|c' a]; [done|]. injection Heq as <- _.
  exists a. by rewrite <- app_assoc.
Qed.

(** Entering the staging directory changes nothing outside the top
    directory of the staging area. *)
Lemma enter_frame st c cs p :
  ~ under (cwd st ++ [c]) p ->
  nodes (enter st (c :: cs)) !! p = nodes st !! p.
Proof.
  intros Hp. rewrite enter_nodes, lookup_add_dirs.
  rewrite decide_False; [done|]. intros H. by apply Hp, (under_dir_chain _ _ _ cs).
Qed.

Lemma staged_frame st c cs name content p :
  ~ under (cwd st ++ [c]) p ->
  nodes (staged st (c :: cs) name content) !! p = nodes st !! p.
Proof.
  intros Hp. unfold staged. cbn [nodes set_nodes].
  rewrite lookup_insert_ne.
  - by apply enter_frame.
  - intros <-. apply Hp. exists (cs ++ [name]). by rewrite <- app_assoc.
Qed.

(** The version is looked for and handed over when the file is on disk:
    whatever comes of it, the tree and the working directory stay. *)
Lemma select_version_state `{W : World} {A} (r : exn + str) (a : A) st :
  let run := (solidity_version ← lift r;
              switch_global_version solidity_version;;
              ret a) st in
  nodes (outcome_state run) = nodes st /\ cwd (outcome_state run) = cwd st.
Proof.
  destruct r as [e|v]; [done|]. cbn [lift]. cbv zeta.
  erewrite bind_Ok; [|done]. unfold switch_global_version.
  cbv [mbind M_bind bind]. by destruct (solc_known v).
Qed.

(** X11. Submitted code is on disk before its version is looked at: from a
    state where staging can start, and whatever the identifiers of the call,
    whether [get_contract_code] returns or raises, [contract.sol] in the
    working directory it leaves reads back as the code, character for
    character; the working directory is [contracts/no-bc/contract] below the
    former one, the tree is well formed, and nothing outside [contracts] has
    changed. *)
Theorem get_contract_code_stages_code `{W : World} (st : state)
    (blockchain contract_address : option str) (code : str) :
  code <> [] -> stage_ready st raw_root ->
  may_be_file (nodes st) (cwd st ++ raw_root ++ [lit "contract.sol"]) ->
  let st' := outcome_state
               (get_contract_code blockchain contract_address (Some code) st) in
  read_back st' (lit "contract.sol") = Some code
  /\ cwd st' = cwd st ++ raw_root
  /\ fs_wf (nodes st')
  /\ forall p, ~ under (cwd st ++ [lit "contracts"]) p ->
               nodes st' !! p = nodes st !! p.
Proof.
  intros Hcode Hr Hfile st'. unfold st'.
  rewrite get_contract_code_raw by done.
  assert (plain (lit "contract.sol")) as Hp by solve_plain.
  destruct (staged_facts st raw_root (lit "contract.sol") code Hr Hp Hfile)
    as (Hwf & Hc & Hd & Hf).
  destruct (select_version_state (scan_pragma (read_lines code) [])
              (Some (lit "contract.sol"))
              (staged st raw_root (lit "contract.sol") code)) as [Hn Hcw].
  cbv zeta in Hn, Hcw.
  set (run := (solidity_version ← lift _; _) _) in *.
  split_and!.
  - apply read_back_name; [done|by rewrite Hn, Hcw, Hc|].
    by rewrite Hn, Hcw, Hc, <- app_assoc.
  - by rewrite Hcw.
  - by rewrite Hn.
  - intros p Hp'. rewrite Hn. by apply staged_frame.
Qed.

Lemma get_contract_code_stages_code_witness :
  read_back
    (outcome_state
       (get_contract_code (W := sample_world no_response [] [])
          None (Some (lit "0xabc")) (Some sample_code) sample_state))
    (lit "contract.sol")
  = Some sample_code.
Proof.
  apply (get_contract_code_stages_code (W := sample_world no_response [] [])
           sample_state None (Some (lit "0xabc")) sample_code).
  - discriminate.
  - apply stage_ready_sample.
  - apply stage_ready_sample.
Defined.

(** X12. A source that is one file, fetched from the explorer into a state
    where staging can start: [get_contract_code] returns the contract name
    with [.sol]; the file of that name in the working directory it leaves
    holds four newlines and then the source without any of its newlines (the
    source itself when it has none); the working directory is
    [contracts/{blockchain}/{contract_address}] below the former one, the
    compiler of the answer is current, and nothing outside [contracts] has
    changed. *)
Theorem get_contract_code_single_file_staged `{W : World} (st : state)
    (blockchain contract_address : str) (resp : response) :
  explorer_answers blockchain (Some contract_address) resp ->
  status_code resp = 200%Z ->
  solc_known (get_solidity_version (CompilerVersion resp)) = true ->
  stage_ready st (explorer_root blockchain contract_address) ->
  SourceCode resp <> [] -> head (SourceCode resp) <> Some "{"%char ->
  chr_slash ∉ ContractName resp -> chr_nul ∉ ContractName resp ->
  may_be_file (nodes st)
    (cwd st ++ explorer_root blockchain contract_address
     ++ [ContractName resp ++ lit ".sol"]) ->
  exists st',
    get_contract_code (Some blockchain) (Some contract_address) None st
    = Ok (Some (ContractName resp ++ lit ".sol")) st'
    /\ read_back st' (ContractName resp ++ lit ".sol")
       = Some ([chr_lf; chr_lf; chr_lf; chr_lf]
               ++ filter (fun a => a <> chr_lf) (SourceCode resp))
    /\ (chr_lf ∉ SourceCode resp ->
        read_back st' (ContractName resp ++ lit ".sol")
        = Some ([chr_lf; chr_lf; chr_lf; chr_lf] ++ SourceCode resp))
    /\ cwd st' = cwd st ++ explorer_root blockchain contract_address
    /\ solc st' = get_solidity_version (CompilerVersion resp)
    /\ fs_wf (nodes st')
    /\ forall p, ~ under (cwd st ++ [lit "contracts"]) p ->
                 nodes st' !! p = nodes st !! p.
Proof.
  intros Hans Hstatus Hknown Hr Hne Hhd Hs Hn Hfile.
  pose proof (plain_sol _ Hs Hn) as Hp.
  set (v := get_solidity_version (CompilerVersion resp)) in *.
  set (name := ContractName resp ++ lit ".sol") in *.
  set (content := [chr_lf; chr_lf; chr_lf; chr_lf]
                  ++ filter (fun a => a <> chr_lf) (SourceCode resp)).
  pose proof (stage_ready_switched _ _ v Hr) as Hr'.
  destruct (staged_facts (switched v st) _ name content Hr' Hp Hfile)
    as (Hwf & Hc & Hd & Hf).
  assert (read_back (staged (switched v st)
                       (explorer_root blockchain contract_address) name content)
                    name = Some content) as Hread.
  { apply read_back_name; [done|by rewrite Hc|]. by rewrite Hc, <- app_assoc. }
  exists (staged (switched v st) (explorer_root blockchain contract_address)
            name content).
  split.
  { by apply (get_contract_code_single_file st blockchain
                (Some contract_address) None resp). }
  split_and!; [done| |done|done|done|].
  - intros Hlf. rewrite Hread. unfold content. do 2 f_equal.
    clear -Hlf.
    induction (SourceCode resp) as [|a l IH]; [done|].
    apply not_elem_of_cons in Hlf as [Ha Hl].
    rewrite filter_cons, decide_True by done. by rewrite IH.
  - intros p Hp'. by apply (staged_frame (switched v st)).
Qed.

Lemma get_contract_code_single_file_staged_witness :
  exists st',
    get_contract_code (W := sample_world single_response [] [])
      (Some (lit "ethereum")) (Some (lit "0xabc")) None sample_state
    = Ok (Some (ContractName single_response ++ lit ".sol")) st'
    /\ read_back st' (ContractName single_response ++ lit ".sol")
       = Some ([chr_lf; chr_lf; chr_lf; chr_lf]
               ++ filter (fun a => a <> chr_lf) (SourceCode single_response))
    /\ (chr_lf ∉ SourceCode single_response ->
        read_back st' (ContractName single_response ++ lit ".sol")
        = Some ([chr_lf; chr_lf; chr_lf; chr_lf] ++ SourceCode single_response))
    /\ cwd st' = cwd sample_state ++ explorer_root (lit "ethereum") (lit "0xabc")
    /\ solc st' = get_solidity_version (CompilerVersion single_response)
    /\ fs_wf (nodes st')
    /\ forall p, ~ under (cwd sample_state ++ [lit "contracts"]) p ->
                 nodes st' !! p = nodes sample_state !! p.
Proof.
  apply (get_contract_code_single_file_staged
           (W := sample_world single_response [] []) sample_state
           (lit "ethereum") (lit "0xabc") single_response).
  - apply explorer_answers_sample.
  - reflexivity.
  - reflexivity.
  - apply stage_ready_sample_explorer.
  - discriminate.
  - discriminate.
  - solve_literal.
  - solve_literal.
  - left. vm_compute. reflexivity.
Defined.

(** X13. A source that is a mapping of files, no name twice, fetched from
    the explorer into a state where staging can start and the files fit:
    [get_contract_code] returns, and in the working directory it leaves,
    [contracts/{blockchain}/{contract_address}] below the former one, every
    file of the mapping reads back under its name with its content, every
    directory on the way to a file exists, the tree is well formed, and
    nothing outside [contracts] has changed. *)
Theorem get_contract_code_multi_file_staged `{W : World} (st : state)
    (blockchain contract_address : str) (resp : response) (code_rest : str)
    (items : list (str * str)) :
  explorer_answers blockchain (Some contract_address) resp ->
  status_code resp = 200%Z ->
  solc_known (get_solidity_version (CompilerVersion resp)) = true ->
  stage_ready st (explorer_root blockchain contract_address) ->
  SourceCode resp = "{"%char :: code_rest ->
  json_loads_sources (removelast code_rest) = inr items ->
  files_fit (nodes st) (cwd st ++ explorer_root blockchain contract_address) items ->
  NoDup items.*1 ->
  exists main_contract st',
    get_contract_code (Some blockchain) (Some contract_address) None st
    = Ok (Some main_contract) st'
    /\ cwd st' = cwd st ++ explorer_root blockchain contract_address
    /\ (forall f c, (f, c) ∈ items -> read_back st' f = Some c)
    /\ (forall f p, f ∈ items.*1 ->
                    p ∈ dir_chain (cwd st') (removelast (comps f)) ->
                    nodes st' !! p = Some Dir)
    /\ fs_wf (nodes st')
    /\ forall p, ~ under (cwd st ++ [lit "contracts"]) p ->
                 nodes st' !! p = nodes st !! p.
Proof.
  intros Hans Hstatus Hknown Hr Hsrc Hjson Hfit Hnd.
  destruct (stage_multi_roundtrip st blockchain (Some contract_address) None
              resp code_rest items)
    as (st' & Hrun & Hcwd & Hwf & Hd & Hread & Hdirs); [done..|].
  destruct (get_contract_code_multi_file st blockchain (Some contract_address)
              None resp code_rest items)
    as (Hrun' & _); [done..|].
  exists (find_main_contract (ContractName resp) items []), st'.
  split_and!; [done..|].
  intros p Hp.
  assert (nodes st'
          = stage_files
              (nodes (enter (switched (get_solidity_version (CompilerVersion resp)) st)
                            (explorer_root blockchain contract_address)))
              (cwd st ++ explorer_root blockchain contract_address) items) as ->.
  { rewrite Hrun in Hrun'. injection Hrun' as Hst. by rewrite Hst. }
  rewrite stage_files_keeps.
  - by apply (enter_frame (switched _ st)).
  - intros f Hf. split.
    + intros ->. apply Hp. unfold explorer_root.
      exists ([blockchain; contract_address] ++ comps f). by rewrite <- !app_assoc.
    + intros (a & b & _ & _ & ->)%elem_of_dir_chain. apply Hp.
      unfold explorer_root.
      exists ([blockchain; contract_address] ++ a). by rewrite <- !app_assoc.
Qed.

Lemma get_contract_code_multi_file_staged_witness :
  exists main_contract st',
    get_contract_code (W := sample_world (multi_response "Vault") sample_sources [])
      (Some (lit "ethereum")) (Some (lit "0xabc")) None sample_state
    = Ok (Some main_contract) st'
    /\ cwd st' = cwd sample_state ++ explorer_root (lit "ethereum") (lit "0xabc")
    /\ (forall f c, (f, c) ∈ sample_sources -> read_back st' f = Some c)
    /\ (forall f p, f ∈ sample_sources.*1 ->
                    p ∈ dir_chain (cwd st') (removelast (comps f)) ->
                    nodes st' !! p = Some Dir)
    /\ fs_wf (nodes st')
    /\ forall p, ~ under (cwd sample_state ++ [lit "contracts"]) p ->
                 nodes st' !! p = nodes sample_state !! p.
Proof.
  apply (get_contract_code_multi_file_staged
           (W := sample_world (multi_response "Vault") sample_sources [])
           sample_state (lit "ethereum") (lit "0xabc") (multi_response "Vault")
           (lit "{...}}") sample_sources).
  - apply explorer_answers_sample.
  - reflexivity.
  - reflexivity.
  - apply stage_ready_sample_explorer.
  - reflexivity.
  - reflexivity.
  - apply files_fit_sample.
  - apply (bool_decide_unpack _). vm_compute. exact I.
Defined.

(** ** The route: analysis and teardown after staging *)

(** The teardown only removes. *)
Lemma delete_contract_directory_shrinks (st st' : state) :
  fs_wf (nodes st) -> node_at (nodes st) (cwd st) = Some Dir ->
  delete_contract_directory st = Ok tt st' ->
  forall p, nodes st' !! p = None \/ nodes st' !! p = nodes st !! p.
Proof.
  intros Hwf Hcwd Hdel.
  destruct (delete_contract_directory_effect st Hwf Hcwd)
    as (st'' & Hdel' & _ & _ & _ & _ & _ & _ & Hless & _).
  rewrite Hdel' in Hdel. by injection Hdel as <-.
Qed.

Lemma under_app (d p q : path) : under (d ++ q) p -> under d p.
Proof. intros [r ->]. exists (q ++ r). by rewrite <- app_assoc. Qed.

Lemma not_under_length (e p : path) : length p < length e -> ~ under e p.
Proof. intros Hl [r ->]. rewrite length_app in Hl. lia. Qed.

(** Lines 261-263 and 270-272, from a staged state three levels below [d]:
    the findings are normalized, the staging area is emptied, the working
    directory is [d] again, and staging can start anew. *)
Lemma serve_staged `{W : World} (st1 : state) (contract : str)
    (results : list (list dict)) (filtered_results : list dict)
    (d : path) (x y z : str) :
  fs_wf (nodes st1) -> node_at (nodes st1) (cwd st1) = Some Dir ->
  cwd st1 = d ++ [x; y; z] ->
  slither_run_detectors st1 contract = Some results ->
  filter_results results [] = inr filtered_results ->
  exists st',
    (slither_result ← analyze_contract_code contract;
     delete_contract_directory;;
     ret (ResultBody slither_result, 200%Z)) st1
    = Ok (ResultBody filtered_results, 200%Z) st'
    /\ cwd st' = d /\ fs_wf (nodes st')
    /\ solc st' = solc st1 /\ locked st' = locked st1
    /\ (forall p, nodes st' !! p = None \/ nodes st' !! p = nodes st1 !! p)
    /\ (forall p, ~ under (d ++ [x; y]) p -> nodes st' !! p = nodes st1 !! p)
    /\ nodes st' !! (d ++ [x; y]) = Some Dir
    /\ (locked st1 = ∅ ->
        forall c p, under (d ++ [x; y; c]) p -> nodes st' !! p = None)
    /\ stage_ready st' [x; y; z].
Proof.
  intros Hwf Hcwd Hc Hrun Hfilter.
  destruct (delete_contract_directory_effect st1 Hwf Hcwd)
    as (st' & Hdel & Hup & Hentries & Hframe & Hwf' & Hl & Hs & _).
  pose proof (delete_contract_directory_shrinks st1 st' Hwf Hcwd Hdel) as Hshrink.
  assert (parent (cwd st1) = d ++ [x; y]) as Hpar.
  { rewrite Hc. change (d ++ [x; y; z]) with (d ++ [x; y] ++ [z]).
    rewrite app_assoc. apply parent_snoc. }
  rewrite Hpar in Hentries, Hframe.
  assert (cwd st' = d) as Hcwd'.
  { rewrite Hup, Hc. apply parent_three. }
  assert (forall p, ~ under (d ++ [x; y]) p \/ p = d ++ [x; y] ->
                    nodes st' !! p = nodes st1 !! p) as Hout.
  { intros p Hp. apply Hframe. intros c Hu. destruct Hp as [Hp| ->].
    - apply Hp. by apply (under_app _ _ [c]).
    - revert Hu. apply not_under_length. rewrite !length_app. simpl. lia. }
  assert (nodes st1 !! (d ++ [x; y; z]) = Some Dir) as Hz.
  { rewrite <- Hc. rewrite <- Hcwd. symmetry. apply node_at_ne.
    rewrite Hc. by destruct d. }
  assert (nodes st1 !! (d ++ [x; y]) = Some Dir) as Hy.
  { rewrite <- (node_at_app_ne _ d [x; y]) by done.
    change (d ++ [x; y]) with (d ++ [x] ++ [y]). rewrite app_assoc.
    apply (wf_ancestors _ _ [z]); [done| |done].
    rewrite <- !app_assoc. simpl. rewrite node_at_app_ne by done. by rewrite Hz. }
  assert (nodes st1 !! (d ++ [x]) = Some Dir) as Hx.
  { rewrite <- (node_at_app_ne _ d [x]) by done.
    apply (wf_ancestors _ _ [y]); [done| |done].
    rewrite <- !app_assoc. simpl. rewrite node_at_app_ne by done. by rewrite Hy. }
  assert (node_at (nodes st1) d = Some Dir) as Hd.
  { apply (wf_ancestors _ _ [x]); [done| |done].
    rewrite node_at_app_ne by done. by rewrite Hx. }
  assert (~ under (d ++ [x; y]) d) as Hnd.
  { apply not_under_length. rewrite length_app. simpl. lia. }
  assert (~ under (d ++ [x; y]) (d ++ [x])) as Hnx.
  { apply not_under_length. rewrite !length_app. simpl. lia. }
  exists st'. split_and!; [|done..| | | |].
  - unfold analyze_contract_code.
    erewrite bind_Ok.
    2:{ erewrite bind_Ok; [|done]. rewrite Hrun. erewrite bind_Ok; [|done].
        by rewrite Hfilter. }
    erewrite bind_Ok; [|exact Hdel]. done.
  - intros p Hp. apply Hout. by left.
  - rewrite Hout by (by right). done.
  - intros Hlock c p Hu.
    destruct (nodes st1 !! (d ++ [x; y] ++ [c])) as [n|] eqn:Hn.
    + rewrite app_assoc in Hn.
      destruct (Hentries c) as [Hgone _]; [by rewrite Hn|].
      apply Hgone; [by apply not_refuses_unlocked|].
      by rewrite <- app_assoc.
    + destruct (Hshrink p) as [?|Heq]; [done|]. rewrite Heq.
      destruct Hu as [r ->].
      destruct (nodes st1 !! ((d ++ [x; y; c]) ++ r)) as [n|] eqn:Hp; [|done].
      exfalso. destruct (decide (r = [])) as [->|Hr].
      * rewrite app_nil_r in Hp. simpl in Hn. congruence.
      * assert (node_at (nodes st1) (d ++ [x; y; c]) = Some Dir) as Hdir.
        { apply (wf_ancestors _ _ r); [done| |done].
          rewrite node_at_app_ne by done. by rewrite Hp. }
        rewrite node_at_app_ne in Hdir by done. simpl in Hn. congruence.
  - split_and!; [done| |done| |].
    + rewrite Hcwd'. rewrite <- Hd. apply node_at_frame. by apply Hout; left.
    + destruct Hwf as [_ Hwf].
      destruct (Hwf d x) as [Hpx _]; [by rewrite Hx|].
      destruct (Hwf (d ++ [x]) y) as [Hpy _]; [rewrite <- app_assoc; simpl; by rewrite Hy|].
      destruct (Hwf (d ++ [x; y]) z) as [Hpz _]; [rewrite <- app_assoc; simpl; by rewrite Hz|].
      repeat apply Forall_cons_2; [done..|apply Forall_nil_2].
    + rewrite Hcwd'. cbn [dir_chain]. repeat apply Forall_cons_2; [..|apply Forall_nil_2].
      * right. rewrite node_at_app_ne by done.
        by rewrite Hout by (by left).
      * right. rewrite <- app_assoc. rewrite node_at_app_ne by done.
        by rewrite Hout by (by right).
      * rewrite <- !app_assoc. simpl. unfold may_be_dir.
        rewrite node_at_app_ne by done.
        destruct (Hshrink (d ++ [x; y; z])) as [He|He]; rewrite He;
          [by left|by right].
Qed.

Lemma analyze_contract_code_state `{W : World} contract st :
  outcome_state (analyze_contract_code contract st) = st.
Proof.
  unfold analyze_contract_code. cbv [get_state mbind M_bind bind].
  destruct (slither_run_detectors st contract) as [results|]; [|done].
  cbv [ret]. by destruct (filter_results results []).
Qed.

Lemma raises_Raise {A} (run : outcome A) e :
  raises run e -> run = Raise e (outcome_state run).
Proof. destruct run; [done|]. by intros ->. Qed.

(** X14. No teardown when the analysis fails. For submitted code that is
    staged and whose compiler is selected: if [analyze_contract_code]
    raises, the engine failing or a finding lacking a key, the route raises
    the same error in the state staging left; the working directory stays
    in [contracts/no-bc/contract], and [contract.sol] stays on disk with the
    code in it. *)
Theorem analyze_contract_failure_keeps_staging `{W : World} (st : state)
    (req : request) (encoded code version : str) (e : exn) :
  falsy (arg_blockchain req) || falsy (arg_contract req) = true ->
  arg_code req = Some encoded -> encoded <> [] ->
  b64decode_utf8 encoded = Some code -> code <> [] ->
  stage_ready st raw_root ->
  may_be_file (nodes st) (cwd st ++ raw_root ++ [lit "contract.sol"]) ->
  scan_pragma (read_lines code) [] = inr version ->
  solc_known version = true ->
  let st1 := switched version
               (staged (add_event (Stdout code) (add_event (Stdout encoded) st))
                       raw_root (lit "contract.sol") code) in
  raises (analyze_contract_code (lit "contract.sol") st1) e ->
  analyze_contract req st = Raise e st1
  /\ cwd st1 = cwd st ++ raw_root
  /\ read_back st1 (lit "contract.sol") = Some code.
Proof.
  intros Hid Hc Henc Hdec Hcode Hr Hfile Hscan Hknown st1 Hraise.
  set (st0 := add_event (Stdout code) (add_event (Stdout encoded) st)) in *.
  assert (stage_ready st0 raw_root) as Hr0 by done.
  assert (plain (lit "contract.sol")) as Hp by solve_plain.
  destruct (staged_facts st0 raw_root (lit "contract.sol") code Hr0 Hp Hfile)
    as (Hwf & Hcwd & Hd & Hf).
  split_and!.
  - apply raises_Raise in Hraise. rewrite analyze_contract_code_state in Hraise.
    unfold analyze_contract. rewrite Hid, Hc.
    assert (falsy (Some encoded) = false) as -> by (by destruct encoded).
    cbn [negb fstr]. erewrite bind_Ok; [|done]. rewrite Hdec.
    erewrite bind_Ok; [|done]. erewrite bind_Ok; [|done].
    erewrite bind_Ok.
    2:{ rewrite get_contract_code_raw by done. rewrite Hscan.
        erewrite bind_Ok; [|done].
        erewrite bind_Ok; [|by apply switch_global_version_known]. done. }
    change (falsy (Some (lit "contract.sol"))) with false. cbn [fstr].
    fold st0 st1. by erewrite bind_Raise.
  - exact Hcwd.
  - apply read_back_name; [done| |].
    + unfold st1. cbn [nodes cwd switched set_solc add_event]. by rewrite Hcwd.
    + unfold st1. cbn [nodes cwd switched set_solc add_event].
      by rewrite Hcwd, <- app_assoc.
Qed.

Lemma analyze_contract_failure_keeps_staging_witness :
  analyze_contract (W := sample_world no_response [] [[sample_issue_short]])
    (Request None None (Some (lit "cHJhZ21hIHNvbGlkaXR5IF4wLjguMTA7")))
    sample_state
  = Raise KeyError
      (switched (lit "0.8.10")
         (staged (add_event (Stdout (lit "pragma solidity ^0.8.10;"))
                    (add_event (Stdout (lit "cHJhZ21hIHNvbGlkaXR5IF4wLjguMTA7"))
                               sample_state))
                 raw_root (lit "contract.sol")
                 (lit "pragma solidity ^0.8.10;")))
  /\ cwd (switched (lit "0.8.10")
            (staged (add_event (Stdout (lit "pragma solidity ^0.8.10;"))
                       (add_event (Stdout (lit "cHJhZ21hIHNvbGlkaXR5IF4wLjguMTA7"))
                                  sample_state))
                    raw_root (lit "contract.sol")
                    (lit "pragma solidity ^0.8.10;")))
     = cwd sample_state ++ raw_root
  /\ read_back
       (switched (lit "0.8.10")
          (staged (add_event (Stdout (lit "pragma solidity ^0.8.10;"))
                     (add_event (Stdout (lit "cHJhZ21hIHNvbGlkaXR5IF4wLjguMTA7"))
                                sample_state))
                  raw_root (lit "contract.sol")
                  (lit "pragma solidity ^0.8.10;")))
       (lit "contract.sol")
     = Some (lit "pragma solidity ^0.8.10;").
Proof.
  apply (analyze_contract_failure_keeps_staging
           (W := sample_world no_response [] [[sample_issue_short]])
           sample_state
           (Request None None (Some (lit "cHJhZ21hIHNvbGlkaXR5IF4wLjguMTA7")))
           (lit "cHJhZ21hIHNvbGlkaXR5IF4wLjguMTA7")
           (lit "pragma solidity ^0.8.10;") (lit "0.8.10") KeyError).
  - reflexivity.
  - reflexivity.
  - discriminate.
  - reflexivity.
  - discriminate.
  - apply stage_ready_sample.
  - apply stage_ready_sample.
  - reflexivity.
  - reflexivity.
  - reflexivity.
Defined.

(** X15. A request with submitted code that is served leaves the process
    ready for the next one. From a state where staging can start, when the
    code names a version the selector knows and the engine reports findings
    that carry the four fields, the route answers the normalized findings;
    afterwards the working directory is the one from before, that compiler
    is current, staging can start again, nothing outside [contracts] has
    changed, and, no file being locked, nothing is left below
    [contracts/no-bc]. *)
Theorem analyze_contract_submitted_code_cycle `{W : World} (st : state)
    (req : request) (encoded code version : str) (results : list (list dict))
    (filtered_results : list dict) :
  falsy (arg_blockchain req) || falsy (arg_contract req) = true ->
  arg_code req = Some encoded -> encoded <> [] ->
  b64decode_utf8 encoded = Some code -> code <> [] ->
  stage_ready st raw_root ->
  may_be_file (nodes st) (cwd st ++ raw_root ++ [lit "contract.sol"]) ->
  scan_pragma (read_lines code) [] = inr version ->
  solc_known version = true ->
  slither_run_detectors
    (switched version
       (staged (add_event (Stdout code) (add_event (Stdout encoded) st))
               raw_root (lit "contract.sol") code))
    (lit "contract.sol") = Some results ->
  filter_results results [] = inr filtered_results ->
  exists st',
    analyze_contract req st = Ok (ResultBody filtered_results, 200%Z) st'
    /\ cwd st' = cwd st /\ solc st' = version
    /\ stage_ready st' raw_root
    /\ may_be_file (nodes st') (cwd st' ++ raw_root ++ [lit "contract.sol"])
    /\ (forall p, ~ under (cwd st ++ [lit "contracts"]) p ->
                  nodes st' !! p = nodes st !! p)
    /\ (locked st = ∅ ->
        forall c p, under (cwd st ++ [lit "contracts"; lit "no-bc"; c]) p ->
                    nodes st' !! p = None).
Proof.
  intros Hid Hc Henc Hdec Hcode Hr Hfile Hscan Hknown Hrun Hfilter.
  set (st0 := add_event (Stdout code) (add_event (Stdout encoded) st)) in *.
  assert (stage_ready st0 raw_root) as Hr0 by done.
  assert (plain (lit "contract.sol")) as Hp by solve_plain.
  destruct (staged_facts st0 raw_root (lit "contract.sol") code Hr0 Hp Hfile)
    as (Hwf & Hcwd & Hd & Hf).
  set (st1 := switched version (staged st0 raw_root (lit "contract.sol") code)) in *.
  destruct (serve_staged st1 (lit "contract.sol") results filtered_results
              (cwd st) (lit "contracts") (lit "no-bc") (lit "contract"))
    as (st' & Hserve & Hcwd' & Hwf' & Hsolc & Hlock & Hshrink & Hframe & _
        & Hgone & Hready); [done| |done..|].
  { unfold st1. cbn [nodes cwd switched set_solc add_event]. by rewrite Hcwd. }
  exists st'. split_and!; [|done|done|done| | |].
  - unfold analyze_contract. rewrite Hid, Hc.
    assert (falsy (Some encoded) = false) as -> by (by destruct encoded).
    cbn [negb fstr]. erewrite bind_Ok; [|done]. rewrite Hdec.
    erewrite bind_Ok; [|done]. erewrite bind_Ok; [|done].
    erewrite bind_Ok.
    2:{ rewrite get_contract_code_raw by done. rewrite Hscan.
        erewrite bind_Ok; [|done].
        erewrite bind_Ok; [|by apply switch_global_version_known]. done. }
    change (falsy (Some (lit "contract.sol"))) with false. cbn [fstr].
    exact Hserve.
  - rewrite Hcwd'. destruct (Hshrink (cwd st ++ raw_root ++ [lit "contract.sol"]))
      as [He|He]; [by left|].
    right. exists code. rewrite He. exact Hf.
  - intros p Hp'. rewrite Hframe.
    + by apply (staged_frame st0).
    + intros [r ->]. apply Hp'. exists (lit "no-bc" :: r).
      by rewrite <- !app_assoc.
  - intros Hl. by apply Hgone.
Qed.

Lemma analyze_contract_submitted_code_cycle_witness :
  exists filtered_results st',
    analyze_contract (W := sample_world no_response [] sample_results)
      (Request None None (Some (lit "cHJhZ21hIHNvbGlkaXR5IF4wLjguMTA7")))
      sample_state
    = Ok (ResultBody filtered_results, 200%Z) st'
    /\ cwd st' = cwd sample_state /\ solc st' = lit "0.8.10"
    /\ stage_ready st' raw_root
    /\ may_be_file (nodes st') (cwd st' ++ raw_root ++ [lit "contract.sol"])
    /\ (forall p, ~ under (cwd sample_state ++ [lit "contracts"]) p ->
                  nodes st' !! p = nodes sample_state !! p)
    /\ (locked sample_state = ∅ ->
        forall c p,
          under (cwd sample_state ++ [lit "contracts"; lit "no-bc"; c]) p ->
          nodes st' !! p = None).
Proof.
  eexists.
  apply (analyze_contract_submitted_code_cycle
           (W := sample_world no_response [] sample_results) sample_state
           (Request None None (Some (lit "cHJhZ21hIHNvbGlkaXR5IF4wLjguMTA7")))
           (lit "cHJhZ21hIHNvbGlkaXR5IF4wLjguMTA7")
           (lit "pragma solidity ^0.8.10;") (lit "0.8.10") sample_results).
  - reflexivity.
  - reflexivity.
  - discriminate.
  - reflexivity.
  - discriminate.
  - apply stage_ready_sample.
  - apply stage_ready_sample.
  - reflexivity.
  - reflexivity.
  - reflexivity.
  - reflexivity.
Defined.

(** X16. A request by identifiers whose source is one file, when it is
    served, leaves the process ready for the next one. From a state where
    staging can start, when the explorer answers with a single-file source,
    the selector knows its compiler and the engine reports findings that
    carry the four fields, the route answers the normalized findings,
    whatever [code] the request carries; afterwards the working directory
    is the one from before, staging can start again, nothing outside
    [contracts] has changed, and, no file being locked, nothing is left
    below [contracts/{blockchain}]: the teardown empties the directory of
    the blockchain, not only the directory of this address. *)
Theorem analyze_contract_single_file_cycle `{W : World} (st : state)
    (blockchain contract_address : str) (code : option str) (resp : response)
    (results : list (list dict)) (filtered_results : list dict) :
  blockchain <> [] -> contract_address <> [] ->
  explorer_answers blockchain (Some contract_address) resp ->
  status_code resp = 200%Z ->
  solc_known (get_solidity_version (CompilerVersion resp)) = true ->
  stage_ready st (explorer_root blockchain contract_address) ->
  SourceCode resp <> [] -> head (SourceCode resp) <> Some "{"%char ->
  chr_slash ∉ ContractName resp -> chr_nul ∉ ContractName resp ->
  may_be_file (nodes st)
    (cwd st ++ explorer_root blockchain contract_address
     ++ [ContractName resp ++ lit ".sol"]) ->
  slither_run_detectors
    (staged (switched (get_solidity_version (CompilerVersion resp)) st)
       (explorer_root blockchain contract_address)
       (ContractName resp ++ lit ".sol")
       ([chr_lf; chr_lf; chr_lf; chr_lf]
        ++ filter (fun a => a <> chr_lf) (SourceCode resp)))
    (ContractName resp ++ lit ".sol") = Some results ->
  filter_results results [] = inr filtered_results ->
  exists st',
    analyze_contract (Request (Some blockchain) (Some contract_address) code) st
    = Ok (ResultBody filtered_results, 200%Z) st'
    /\ cwd st' = cwd st
    /\ solc st' = get_solidity_version (CompilerVersion resp)
    /\ stage_ready st' (explorer_root blockchain contract_address)
    /\ (forall p, ~ under (cwd st ++ [lit "contracts"]) p ->
                  nodes st' !! p = nodes st !! p)
    /\ (locked st = ∅ ->
        forall c p, under (cwd st ++ [lit "contracts"; blockchain; c]) p ->
                    nodes st' !! p = None).
Proof.
  intros Hb Ha Hans Hstatus Hknown Hr Hne Hhd Hs Hn Hfile Hrun Hfilter.
  pose proof (plain_sol _ Hs Hn) as Hp.
  set (v := get_solidity_version (CompilerVersion resp)) in *.
  set (name := ContractName resp ++ lit ".sol") in *.
  set (content := [chr_lf; chr_lf; chr_lf; chr_lf]
                  ++ filter (fun a => a <> chr_lf) (SourceCode resp)) in *.
  pose proof (stage_ready_switched _ _ v Hr) as Hr'.
  destruct (staged_facts (switched v st) _ name content Hr' Hp Hfile)
    as (Hwf & Hc & Hd & Hf).
  set (st1 := staged (switched v st) (explorer_root blockchain contract_address)
                name content) in *.
  destruct (serve_staged st1 name results filtered_results
              (cwd st) (lit "contracts") blockchain contract_address)
    as (st' & Hserve & Hcwd' & Hwf' & Hsolc & Hlock & Hshrink & Hframe & _
        & Hgone & Hready); [done|by rewrite Hc|done..|].
  exists st'. split_and!; [|done|done|done| |].
  - unfold analyze_contract. cbn [arg_blockchain arg_contract arg_code falsy].
    destruct blockchain as [|b0 b]; [done|].
    destruct contract_address as [|a0 a]; [done|]. cbn [orb].
    erewrite bind_Ok.
    2:{ by apply (get_contract_code_single_file st (b0 :: b) (Some (a0 :: a))
                    None resp). }
    fold v name content st1.
    assert (falsy (Some name) = false) as ->.
    { unfold name. by destruct (ContractName resp). }
    cbn [fstr]. exact Hserve.
  - intros p Hp'. rewrite Hframe.
    + by apply (staged_frame (switched v st)).
    + intros [r ->]. apply Hp'. exists (blockchain :: r).
      by rewrite <- !app_assoc.
  - intros Hl. by apply Hgone.
Qed.

Lemma analyze_contract_single_file_cycle_witness :
  exists filtered_results st',
    analyze_contract (W := sample_world single_response [] sample_results)
      (Request (Some (lit "ethereum")) (Some (lit "0xabc")) None) sample_state
    = Ok (ResultBody filtered_results, 200%Z) st'
    /\ cwd st' = cwd sample_state
    /\ solc st' = get_solidity_version (CompilerVersion single_response)
    /\ stage_ready st' (explorer_root (lit "ethereum") (lit "0xabc"))
    /\ (forall p, ~ under (cwd sample_state ++ [lit "contracts"]) p ->
                  nodes st' !! p = nodes sample_state !! p)
    /\ (locked sample_state = ∅ ->
        forall c p,
          under (cwd sample_state ++ [lit "contracts"; lit "ethereum"; c]) p ->
          nodes st' !! p = None).
Proof.
  eexists.
  apply (analyze_contract_single_file_cycle
           (W := sample_world single_response [] sample_results) sample_state
           (lit "ethereum") (lit "0xabc") None single_response sample_results).
  - discriminate.
  - discriminate.
  - apply explorer_answers_sample.
  - reflexivity.
  - reflexivity.
  - apply stage_ready_sample_explorer.
  - discriminate.
  - discriminate.
  - solve_literal.
  - solve_literal.
  - left. vm_compute. reflexivity.
  - reflexivity.
  - reflexivity.
Defined.

(** ** The teardown and the order of the listing *)

(** X17. Where none of the entries refuses to go, the order in which the
    directory is listed does not matter to the teardown loop: run on two
    listings of the same plain names, it returns both times, with the same
    tree and the same working directory, and it prints nothing. *)
Theorem delete_entries_any_order (st : state) (names names' : list str) :
  fs_wf (nodes st) -> node_at (nodes st) (cwd st) = Some Dir ->
  Forall plain names -> NoDup names -> names ≡ₚ names' ->
  (forall c, c ∈ names -> ~ refuses st (cwd st ++ [c])) ->
  returns (delete_entries names st) tt
  /\ returns (delete_entries names' st) tt
  /\ nodes (outcome_state (delete_entries names st))
     = nodes (outcome_state (delete_entries names' st))
  /\ cwd (outcome_state (delete_entries names st))
     = cwd (outcome_state (delete_entries names' st))
  /\ events (outcome_state (delete_entries names st)) = events st
  /\ events (outcome_state (delete_entries names' st)) = events st.
Proof.
  intros Hwf Hcwd Hplain Hnd Hperm Hnone.
  assert (forall c, c ∈ names' -> ~ refuses st (cwd st ++ [c])) as Hnone'.
  { intros c Hin. apply Hnone. by rewrite Hperm. }
  destruct (delete_entries_spec names st Hwf Hcwd Hplain Hnd)
    as (st1 & Hrun1 & Hc1 & _ & _ & _ & Hframe1 & _ & Hgone1 & _ & _ & Hq1 & _).
  destruct (delete_entries_spec names' st Hwf Hcwd)
    as (st2 & Hrun2 & Hc2 & _ & _ & _ & Hframe2 & _ & Hgone2 & _ & _ & Hq2 & _).
  { by rewrite <- Hperm. } { by rewrite <- Hperm. }
  rewrite Hrun1, Hrun2. cbn [returns outcome_state].
  split_and!; [done|done| |congruence|by apply Hq1|by apply Hq2].
  apply map_eq. intros p.
  destruct (decide (Exists (fun c => (cwd st ++ [c]) `prefix_of` p) names))
    as [Hex|Hno].
  - apply Exists_exists in Hex as (c & Hin & Hu).
    assert (c ∈ names') as Hin' by (by rewrite <- Hperm).
    by rewrite (Hgone1 c Hin (Hnone c Hin) p Hu),
         (Hgone2 c Hin' (Hnone' c Hin') p Hu).
  - assert (forall c, c ∈ names -> ~ under (cwd st ++ [c]) p) as Hout.
    { intros c Hin Hu. apply Hno, Exists_exists. by exists c. }
    rewrite Hframe1 by done. rewrite Hframe2; [done|].
    intros c Hin. apply Hout. by rewrite Hperm.
Qed.

Lemma delete_entries_any_order_witness :
  returns (delete_entries [lit "contract.sol"; lit "artifacts"] sample_staged) tt
  /\ returns (delete_entries [lit "artifacts"; lit "contract.sol"] sample_staged) tt
  /\ nodes (outcome_state
              (delete_entries [lit "contract.sol"; lit "artifacts"] sample_staged))
     = nodes (outcome_state
                (delete_entries [lit "artifacts"; lit "contract.sol"] sample_staged))
  /\ cwd (outcome_state
            (delete_entries [lit "contract.sol"; lit "artifacts"] sample_staged))
     = cwd (outcome_state
              (delete_entries [lit "artifacts"; lit "contract.sol"] sample_staged))
  /\ events (outcome_state
               (delete_entries [lit "contract.sol"; lit "artifacts"] sample_staged))
     = events sample_staged
  /\ events (outcome_state
               (delete_entries [lit "artifacts"; lit "contract.sol"] sample_staged))
     = events sample_staged.
Proof.
  apply (delete_entries_any_order sample_staged
           [lit "contract.sol"; lit "artifacts"]
           [lit "artifacts"; lit "contract.sol"]).
  - apply sample_staged_ready.
  - apply sample_staged_ready.
  - solve_plain.
  - apply (bool_decide_unpack _). vm_compute. exact I.
  - apply Permutation_swap.
  - intros c _. by apply not_refuses_unlocked.
Defined.

(** ** The route: code that does not decode, or decodes to nothing *)

(** X18. A request without its two identifiers whose [code] is not empty
    but does not decode, or decodes to the empty text, gets no answer. In
    the first case the route raises the decoder's error after printing the
    code as it came; in the second the empty text counts as no code, the
    explorer is tried, and with no blockchain at all the route raises
    [AttributeError] after printing twice. Nothing is staged in either
    case. *)
Theorem analyze_contract_undecodable_code `{W : World} (st : state)
    (req : request) (encoded : str) :
  falsy (arg_blockchain req) || falsy (arg_contract req) = true ->
  arg_code req = Some encoded -> encoded <> [] ->
  (b64decode_utf8 encoded = None ->
   analyze_contract req st = Raise DecodeError (add_event (Stdout encoded) st))
  /\ (b64decode_utf8 encoded = Some [] -> arg_blockchain req = None ->
      analyze_contract req st
      = Raise AttributeError
          (add_event (Stdout []) (add_event (Stdout encoded) st))).
Proof.
  intros Hid Hc Henc. unfold analyze_contract. rewrite Hid, Hc.
  assert (falsy (Some encoded) = false) as -> by (by destruct encoded).
  cbn [negb fstr]. split.
  - intros Hdec. erewrite bind_Ok; [|done]. rewrite Hdec.
    by erewrite bind_Raise.
  - intros Hdec Hb. erewrite bind_Ok; [|done]. rewrite Hdec, Hb.
    erewrite bind_Ok; [|done]. erewrite bind_Ok; [|done].
    erewrite bind_Raise; [done|].
    unfold get_contract_code. cbn [falsy]. by erewrite bind_Raise.
Qed.

Lemma analyze_contract_undecodable_code_witness :
  analyze_contract (W := sample_world no_response [] [])
    (Request None (Some (lit "0xabc")) (Some (lit "abc"))) sample_state
  = Raise DecodeError (add_event (Stdout (lit "abc")) sample_state).
Proof.
  apply (analyze_contract_undecodable_code (W := sample_world no_response [] [])
           sample_state (Request None (Some (lit "0xabc")) (Some (lit "abc")))
           (lit "abc")).
  - reflexivity.
  - reflexivity.
  - discriminate.
  - reflexivity.
Defined.

(** ** File names of a mapping that are absolute *)

Lemma resolve_absolute st cs :
  cs <> [] -> Forall plain cs ->
  resolve st (chr_slash :: join_with chr_slash cs) = walk (nodes st) [] cs.
Proof.
  intros Hne HF. destruct (join_plain cs Hne HF) as (H1 & H2 & H3 & H4).
  unfold resolve. rewrite decide_False by done.
  rewrite decide_False.
  2:{ intros [Hc|Hc]%elem_of_cons; [|done]. revert Hc. solve_literal. }
  cbn [starts_with split_on]. rewrite !decide_True by done. cbn [starts_with].
  rewrite H4. cbn [walk node_at]. unfold step. by rewrite decide_True by (by left).
Qed.

Lemma os_path_exists_absolute st cs :
  fs_wf (nodes st) -> cs <> [] -> Forall plain cs ->
  os_path_exists (chr_slash :: join_with chr_slash cs) st
  = Ok (bool_decide (is_Some (node_at (nodes st) cs))) st.
Proof.
  intros Hwf Hne HF. unfold os_path_exists. rewrite resolve_absolute by done.
  destruct (decide (is_Some (node_at (nodes st) cs))) as [Hs|Hs].
  - rewrite walk_plain; [done..|]. by apply (wf_chain_dirs _ []).
  - rewrite (bool_decide_eq_false_2 _ Hs).
    destruct (walk _ _ _) as [e|q] eqn:Hw; [done|].
    apply walk_plain_inr in Hw as ->; [|done]. by rewrite bool_decide_eq_false_2.
Qed.

Lemma mkdir_p_root fs c cs :
  mkdir_p fs [] false ([] :: c :: cs) = mkdir_p fs [] false (c :: cs).
Proof. reflexivity. Qed.

Lemma os_makedirs_absolute st cs :
  cs <> [] -> Forall plain cs ->
  Forall (may_be_dir (nodes st)) (dir_chain [] cs) ->
  node_at (nodes st) cs = None ->
  os_makedirs (chr_slash :: join_with chr_slash cs) st
  = Ok tt (set_nodes (add_dirs (nodes st) (dir_chain [] cs)) st).
Proof.
  intros Hne HF Hch Hfin.
  destruct (join_plain cs Hne HF) as (H1 & H2 & H3 & H4).
  unfold os_makedirs. rewrite decide_False by done.
  cbn [starts_with split_on]. rewrite !decide_True by done. cbn [starts_with].
  rewrite H4. cbn [strip_trailing_empty].
  rewrite strip_trailing_empty_id
    by (eapply Forall_impl; [done|]; by intros c (? & _)).
  destruct cs as [|c cs]; [done|].
  rewrite mkdir_p_root. by rewrite mkdir_p_plain.
Qed.

Lemma ensure_dirs_absolute {B} (k : M B) st cs :
  fs_wf (nodes st) -> cs <> [] -> Forall plain cs ->
  Forall (may_be_dir (nodes st)) (dir_chain [] cs) ->
  (present ← os_path_exists (chr_slash :: join_with chr_slash cs);
   (if negb present then os_makedirs (chr_slash :: join_with chr_slash cs)
    else ret tt);;
   k) st
  = k (set_nodes (add_dirs (nodes st) (dir_chain [] cs)) st).
Proof.
  intros Hwf Hne HF Hch.
  erewrite bind_Ok; [|by apply os_path_exists_absolute].
  destruct (decide (is_Some (node_at (nodes st) cs))) as [Hs|Hs].
  - rewrite (bool_decide_eq_true_2 _ Hs). cbn [negb].
    erewrite bind_Ok; [|done].
    rewrite add_dirs_id, set_nodes_id; [done|].
    assert (Forall (fun p => node_at (nodes st) p = Some Dir) (dir_chain [] cs))
      as Hd.
    { destruct cs as [|c cs _] using rev_ind; [done|].
      rewrite dir_chain_snoc. apply Forall_app. split.
      - rewrite <- (removelast_last cs c) at 1. by apply (wf_chain_dirs _ []).
      - apply Forall_singleton.
        rewrite dir_chain_snoc in Hch.
        apply Forall_app in Hch as [_ Hl']. apply Forall_inv in Hl'.
        destruct Hl' as [Hl'|Hl']; [|done]. cbn [app] in Hl'.
        rewrite Hl' in Hs. by destruct Hs as [? [=]]. }
    apply Forall_forall. intros p Hp.
    rewrite <- node_at_ne; [by apply (proj1 (Forall_forall _ _) Hd)|].
    intros ->. by apply dir_chain_ne in Hp.
  - rewrite (bool_decide_eq_false_2 _ Hs). cbn [negb].
    erewrite bind_Ok; [done|].
    apply os_makedirs_absolute; [done..|].
    destruct (node_at (nodes st) cs); [|done]. destruct Hs. eauto.
Qed.

Lemma open_w_writelines_absolute st cs lines :
  cs <> [] -> Forall plain cs ->
  Forall (fun p => node_at (nodes st) p = Some Dir) (dir_chain [] (removelast cs)) ->
  may_be_file (nodes st) cs ->
  open_w_writelines (chr_slash :: join_with chr_slash cs) lines st
  = Ok tt (set_nodes (<[cs := File (concat lines)]> (nodes st)) st).
Proof.
  intros Hne HF Hch Hfile. unfold open_w_writelines.
  rewrite decide_False.
  2:{ intros (_ & _ & H). unfold trailing_slash in H.
      destruct (join_with_ends chr_slash cs Hne) as (J & a & HJ & Ha).
      { eapply Forall_impl; [done|]. intros c Hc. by apply plain_no_slash. }
      rewrite HJ in H.
      change (chr_slash :: J ++ [a]) with ((chr_slash :: J) ++ [a]) in H.
      rewrite last_snoc in H. by apply bool_decide_eq_true_1 in H. }
  rewrite resolve_absolute by done.
  rewrite (walk_plain _ [] cs) by done. cbn [app].
  rewrite (node_at_ne _ cs) by done.
  destruct Hfile as [->|[content ->]]; [|done].
  destruct cs as [|c cs _] using rev_ind; [done|].
  rewrite removelast_last in Hch. rewrite parent_snoc.
  destruct (decide (cs = [])) as [->|Hcs]; [done|].
  pose proof (proj1 (Forall_forall _ _) Hch _ (dir_chain_last [] _ Hcs)) as Hdir.
  cbn [app] in Hdir. by rewrite Hdir.
Qed.

Lemma dirname_absolute ds n :
  ds <> [] -> Forall plain ds -> plain n ->
  dirname (chr_slash :: join_with chr_slash (ds ++ [n]))
  = chr_slash :: join_with chr_slash ds.
Proof.
  intros Hne HF Hn. rewrite join_with_snoc by done.
  destruct (join_with_ends chr_slash ds Hne) as (J & a & HJ & Ha).
  { eapply Forall_impl; [done|]. intros c Hc. by apply plain_no_slash. }
  rewrite HJ. change (chr_slash :: (J ++ [a]) ++ chr_slash :: n)
    with (((chr_slash :: J) ++ [a]) ++ chr_slash :: n).
  rewrite dirname_snoc; [done|done|]. by apply plain_no_slash.
Qed.

(** Lines 82-98 on one file with an absolute name. *)
Lemma write_contract_files_absolute main_contract st ds n content :
  fs_wf (nodes st) -> ds <> [] -> Forall plain ds -> plain n ->
  Forall (may_be_dir (nodes st)) (dir_chain [] ds) ->
  may_be_file (nodes st) (ds ++ [n]) ->
  write_contract_files main_contract
    [(chr_slash :: join_with chr_slash (ds ++ [n]), content)] st
  = Ok tt (set_nodes (<[ds ++ [n] := File content]>
                        (add_dirs (nodes st) (dir_chain [] ds))) st).
Proof.
  intros Hwf Hne HF Hn Hch Hfile.
  assert ((present ← os_path_exists
                       (dirname (chr_slash :: join_with chr_slash (ds ++ [n])));
           (if negb present
            then os_makedirs (dirname (chr_slash :: join_with chr_slash (ds ++ [n])))
            else ret tt);;
           open_w_writelines (chr_slash :: join_with chr_slash (ds ++ [n]))
             (chars content)) st
          = Ok tt (set_nodes (<[ds ++ [n] := File content]>
                                (add_dirs (nodes st) (dir_chain [] ds))) st))
    as Hone.
  { rewrite dirname_absolute by done.
    rewrite ensure_dirs_absolute by done.
    rewrite open_w_writelines_absolute.
    - cbn [nodes set_nodes]. by rewrite concat_chars.
    - by destruct ds.
    - apply Forall_app. split; [done|by constructor].
    - rewrite removelast_last. apply add_dirs_chain_dirs.
    - cbn [nodes set_nodes]. unfold may_be_file.
      rewrite lookup_add_dirs, decide_False; [done|].
      intros (a & b & Hab & _ & Hp)%elem_of_dir_chain. cbn [app] in Hp.
      apply (f_equal length) in Hab. apply (f_equal length) in Hp.
      rewrite !length_app in *. simpl in *. lia. }
  cbn [write_contract_files].
  destruct (decide (main_contract
                    = chr_slash :: join_with chr_slash (ds ++ [n])));
    by erewrite bind_Ok by exact Hone.
Qed.

(** X19. The file names of a mapping are not confined to the staging
    directory. A mapping whose one file has an absolute name, [/] and plain
    components, is written where the name says, wherever no file is in the
    way of its directories: [get_contract_code] returns, and the file stands
    at that absolute place with its content, its directories made on the
    way, outside [contracts]. *)
Theorem get_contract_code_absolute_file_name `{W : World} (st : state)
    (blockchain contract_address : str) (resp : response) (code_rest : str)
    (ds : list str) (n content : str) :
  explorer_answers blockchain (Some contract_address) resp ->
  status_code resp = 200%Z ->
  solc_known (get_solidity_version (CompilerVersion resp)) = true ->
  stage_ready st (explorer_root blockchain contract_address) ->
  SourceCode resp = "{"%char :: code_rest ->
  json_loads_sources (removelast code_rest)
  = inr [(chr_slash :: join_with chr_slash (ds ++ [n]), content)] ->
  ds <> [] -> Forall plain ds -> plain n ->
  Forall (may_be_dir (nodes st)) (dir_chain [] ds) ->
  may_be_file (nodes st) (ds ++ [n]) ->
  ~ under (cwd st ++ [lit "contracts"]) (ds ++ [n]) ->
  exists main_contract st',
    get_contract_code (Some blockchain) (Some contract_address) None st
    = Ok (Some main_contract) st'
    /\ cwd st' = cwd st ++ explorer_root blockchain contract_address
    /\ nodes st' !! (ds ++ [n]) = Some (File content)
    /\ Forall (fun p => nodes st' !! p = Some Dir) (dir_chain [] ds).
Proof.
  intros Hans Hstatus Hknown Hr Hsrc Hjson Hne HF Hn Hch Hfile Hout.
  set (v := get_solidity_version (CompilerVersion resp)) in *.
  pose proof (stage_ready_switched _ _ v Hr) as Hr'.
  destruct (enter_facts _ _ Hr') as [Hwf1 Hd1].
  set (st1 := enter (switched v st) (explorer_root blockchain contract_address))
    in *.
  assert (Forall (may_be_dir (nodes st1)) (dir_chain [] ds)) as Hch1.
  { apply Forall_forall. intros p Hp. unfold may_be_dir, st1.
    rewrite enter_nodes, node_at_add_dirs. destruct (decide _); [by right|].
    by apply (proj1 (Forall_forall _ _) Hch). }
  assert (may_be_file (nodes st1) (ds ++ [n])) as Hfile1.
  { unfold may_be_file, st1. rewrite enter_nodes, lookup_add_dirs.
    rewrite decide_False; [done|]. intros Hin. apply Hout.
    by apply (under_dir_chain _ _ _ [blockchain; contract_address]). }
  eexists _, _. split.
  { rewrite (get_contract_code_explorer st blockchain (Some contract_address)
               None resp) by done.
    cbn [fstr]. fold v st1. unfold stage_source. rewrite Hsrc.
    rewrite decide_False by (by intros ?). cbn [tail]. rewrite Hjson.
    erewrite bind_Ok; [|done]. cbv zeta.
    erewrite bind_Ok; [done|]. by apply write_contract_files_absolute. }
  cbn [cwd nodes set_nodes]. split_and!.
  - unfold st1. by rewrite enter_cwd.
  - by rewrite lookup_insert_eq.
  - apply Forall_forall. intros p Hp.
    rewrite lookup_insert_ne.
    + by rewrite lookup_add_dirs, decide_True.
    + intros <-. apply elem_of_dir_chain in Hp as (a & b & Hab & _ & Hp).
      cbn [app] in Hp. apply (f_equal length) in Hab. apply (f_equal length) in Hp.
      rewrite !length_app in *. simpl in *. lia.
Qed.

Lemma get_contract_code_absolute_file_name_witness :
  exists main_contract st',
    get_contract_code
      (W := sample_world (multi_response "Token")
              [(lit "/etc/cron.d/job.sol", lit "contract Token {}")] [])
      (Some (lit "ethereum")) (Some (lit "0xabc")) None sample_state
    = Ok (Some main_contract) st'
    /\ cwd st' = cwd sample_state ++ explorer_root (lit "ethereum") (lit "0xabc")
    /\ nodes st' !! ([lit "etc"; lit "cron.d"] ++ [lit "job.sol"])
       = Some (File (lit "contract Token {}"))
    /\ Forall (fun p => nodes st' !! p = Some Dir)
              (dir_chain [] [lit "etc"; lit "cron.d"]).
Proof.
  apply (get_contract_code_absolute_file_name
           (W := sample_world (multi_response "Token")
                   [(lit "/etc/cron.d/job.sol", lit "contract Token {}")] [])
           sample_state (lit "ethereum") (lit "0xabc") (multi_response "Token")
           (lit "{...}}") [lit "etc"; lit "cron.d"] (lit "job.sol")
           (lit "contract Token {}")).
  - apply explorer_answers_sample.
  - reflexivity.
  - reflexivity.
  - apply stage_ready_sample_explorer.
  - reflexivity.
  - reflexivity.
  - discriminate.
  - solve_plain.
  - solve_plain.
  - repeat constructor; by left.
  - left. vm_compute. reflexivity.
  - apply (bool_decide_unpack _). vm_compute. exact I.
Defined.

(** ** The main contract and the writing of the files *)

(** X20. Which file is the main contract makes no difference to what is
    written: the two branches of the writing loop do the same, so the loop
    run with any two names for the main contract has the same outcome, from
    any state and for any mapping. *)
Theorem write_contract_files_any_main_contract (main_contract main_contract' : str)
    (items : list (str * str)) (st : state) :
  write_contract_files main_contract items st
  = write_contract_files main_contract' items st.
Proof.
  revert st. induction items as [|[file_name contract_lines] items IH];
    intros st; [done|].
  cbn [write_contract_files]. cbv [mbind M_bind bind].
  destruct (decide (main_contract = file_name)) as [?|?],
           (decide (main_contract' = file_name)) as [?|?];
    (destruct (os_path_exists (dirname file_name) st) as [present st1|e1 st1];
     [|done];
     destruct ((if negb present then os_makedirs (dirname file_name) else ret tt)
                 st1) as [[] st2|e2 st2]; [|done];
     destruct (open_w_writelines file_name (chars contract_lines) st2)
       as [[] st3|e3 st3]; [|done];
     apply IH).
Qed.
